(** * Birds Party: a shallow embedding of the rules engine

    The Go package [birdsparty] is embedded as follows.

    - Go [int] is [Z]; the three counters that the handlers increment
      or decrement on caller-supplied values wrap at 64 bits ([wrap64]).
    - Go [float64] is the primitive binary64 type [float]; [math.Round]
      is written out on the decoded mantissa and exponent.
    - [[][]string] is [list (list string)]; an index out of range is a
      run-time panic, modelled by [None].
    - [*rand.Rand] and the unspecified iteration order of Go maps are
      drawn from a [World] threaded through the monad [M].
    - The two outbound services are a record of functions; every call
      is appended to the world's call log. *)

From Stdlib Require Import ZArith List String Bool Lia Floats Permutation Arith.
From Stdlib Require Import Sorted.
Import ListNotations.

#[local] Set Warnings "-inexact-float".
#[local] Open Scope string_scope.
#[local] Open Scope list_scope.
#[local] Open Scope Z_scope.
#[local] Abbreviation length := List.length.

(* ------------------------------------------------------------------ *)
(** ** Slices indexed by machine integers *)

Definition len {A : Type} (l : list A) : Z := Z.of_nat (length l).

(** [l[i]], panicking out of range. *)
Definition idx {A : Type} (l : list A) (i : Z) : option A :=
  if i <? 0 then None else nth_error l (Z.to_nat i).

(** [l[i] = v], panicking out of range. *)
Definition upd {A : Type} (l : list A) (i : Z) (v : A) : option (list A) :=
  if (0 <=? i) && (i <? len l)
  then Some (firstn (Z.to_nat i) l ++ v :: skipn (S (Z.to_nat i)) l)
  else None.

(** [m[y][x]] *)
Definition mget {A : Type} (m : list (list A)) (y x : Z) : option A :=
  match idx m y with
  | Some row => idx row x
  | None => None
  end.

(** [m[y][x] = v] *)
Definition mset {A : Type} (m : list (list A)) (y x : Z) (v : A)
  : option (list (list A)) :=
  match idx m y with
  | Some row =>
      match upd row x v with
      | Some row' => upd m y row'
      | None => None
      end
  | None => None
  end.

(** Exactly [n] rows of exactly [n] cells. *)
Definition square {A : Type} (n : Z) (m : list (list A)) : Prop :=
  len m = n /\ Forall (fun row => len row = n) m.

(** Bounded loops: [for i := lo; i < lo + n; i++] and
    [for i := n - 1; i >= 0; i--], with a body that may panic. *)
Fixpoint forUp {S : Type} (n : nat) (lo : Z) (body : Z -> S -> option S)
  (s : S) : option S :=
  match n with
  | O => Some s
  | S k =>
      match body lo s with
      | Some s' => forUp k (lo + 1) body s'
      | None => None
      end
  end.

Fixpoint forDown {S : Type} (n : nat) (body : Z -> S -> option S)
  (s : S) : option S :=
  match n with
  | O => Some s
  | S k =>
      match body (Z.of_nat k) s with
      | Some s' => forDown k body s'
      | None => None
      end
  end.

(* ------------------------------------------------------------------ *)
(** ** types.go *)

Definition Symbol := string.

Definition SymbolPurpleOwl : Symbol := "purple_owl".
Definition SymbolGreenOwl : Symbol := "green_owl".
Definition SymbolYellowOwl : Symbol := "yellow_owl".
Definition SymbolBlueOwl : Symbol := "blue_owl".
Definition SymbolRedOwl : Symbol := "red_owl".
Definition SymbolFreeGame : Symbol := "free_game".
Definition SymbolOrangeSlice : Symbol := "orange_slice".
Definition SymbolHoneyPot : Symbol := "honey_pot".
Definition SymbolStrawberry : Symbol := "strawberry".

Definition Level1MinConnection : Z := 4.
Definition Level2MinConnection : Z := 5.
Definition Level3MinConnection : Z := 6.
Definition Level1GridSize : Z := 4.
Definition Level2GridSize : Z := 5.
Definition Level3GridSize : Z := 6.
Definition StageProgressTarget : Z := 15.
Definition FreeSpinsAwarded : Z := 10.

Definition Level := Z.
Definition Level1 : Level := 1.
Definition Level2 : Level := 2.
Definition Level3 : Level := 3.

Record Position := mkPosition { X : Z; Y : Z }.

Record StageClearedSymbol := mkStageClearedSymbol
  { scSymbol : Symbol; scPosition : Position }.

Record Connection := mkConnection
  { cSymbol : Symbol;
    cPositions : list Position;
    cCount : Z;
    cPayout : float }.

Definition Grid := list (list string).

Record BetT := mkBet { Amount : float; Multiplier : Z }.

Record FreeSpinsT := mkFreeSpins
  { Remaining : Z; TotalAwarded : Z; fsMultiplier : float }.

Record GameState := mkGameState
  { Bet : BetT;
    CurrentLevel : Level;
    GridSize : Z;
    gsGrid : Grid;
    StageProgress : Z;
    GameMode : string;
    FreeSpins : FreeSpinsT;
    TotalWin : float;
    Cascading : bool;
    LastConnections : list Connection;
    CascadeCount : Z;
    StageClearedSymbols : list StageClearedSymbol }.

(** The three request bodies have the same fields. *)
Record Request := mkRequest
  { reqGameState : GameState;
    ClientID : string;
    GameID : string;
    PlayerID : string;
    BetID : string }.

Record SpinResponse := mkSpinResponse
  { spStatus : string;
    spMessage : string;
    spGameState : GameState;
    spStageClearedSymbols : list StageClearedSymbol;
    spHasStageCleared : bool;
    spTotalCost : float }.

Record ProcessStageClearedResponse := mkProcessStageClearedResponse
  { pscStatus : string;
    pscMessage : string;
    pscGameState : GameState;
    pscStageClearedCount : Z;
    pscLevelAdvanced : bool;
    pscOldLevel : Level;
    pscNewLevel : Level;
    pscConnections : list Connection;
    pscTotalCost : float }.

Record CascadeResponse := mkCascadeResponse
  { caStatus : string;
    caMessage : string;
    caGameState : GameState;
    caConnections : list Connection;
    caStageClearedSymbols : list StageClearedSymbol;
    caHasStageCleared : bool;
    caTotalCost : float }.

Definition GetMinConnection (l : Level) : Z :=
  if l =? Level1 then Level1MinConnection
  else if l =? Level2 then Level2MinConnection
  else if l =? Level3 then Level3MinConnection
  else Level1MinConnection.

Definition GetGridSize (l : Level) : Z :=
  if l =? Level1 then Level1GridSize
  else if l =? Level2 then Level2GridSize
  else if l =? Level3 then Level3GridSize
  else Level1GridSize.

Definition GetStageClearedSymbol (l : Level) : Symbol :=
  if l =? Level1 then SymbolOrangeSlice
  else if l =? Level2 then SymbolHoneyPot
  else if l =? Level3 then SymbolStrawberry
  else SymbolOrangeSlice.

(** Go maps are association lists in the order of the source text; a
    key occurs once.  Float keys compare with IEEE equality. *)
Fixpoint lookupF {V : Type} (m : list (float * V)) (k : float) : option V :=
  match m with
  | [] => None
  | (k', v) :: m' => if PrimFloat.eqb k k' then Some v else lookupF m' k
  end.

Fixpoint lookupS {V : Type} (m : list (Symbol * V)) (k : Symbol) : option V :=
  match m with
  | [] => None
  | (k', v) :: m' => if String.eqb k k' then Some v else lookupS m' k
  end.

Fixpoint lookupZ {V : Type} (m : list (Z * V)) (k : Z) : option V :=
  match m with
  | [] => None
  | (k', v) :: m' => if k =? k' then Some v else lookupZ m' k
  end.

Definition deleteS {V : Type} (m : list (Symbol * V)) (k : Symbol)
  : list (Symbol * V) :=
  filter (fun e => negb (String.eqb (fst e) k)) m.

Definition BetAmountToMultiplier : list (float * Z) :=
  [ (0.1%float, 1); (0.2%float, 2); (0.3%float, 3); (0.5%float, 5);
    (1.0%float, 10); (2.0%float, 20); (2.5%float, 25) ].

Definition GetLevelSpecificWeights (level : Level) : list (Symbol * float) :=
  let weights :=
    [ (SymbolPurpleOwl, 0.2475); (SymbolGreenOwl, 0.2475);
      (SymbolYellowOwl, 0.2475); (SymbolBlueOwl, 0.2475);
      (SymbolRedOwl, 0.2475); (SymbolFreeGame, 0.001) ]%float in
  if level =? Level1 then weights ++ [(SymbolOrangeSlice, 0.002%float)]
  else if level =? Level2 then weights ++ [(SymbolHoneyPot, 0.002%float)]
  else if level =? Level3 then weights ++ [(SymbolStrawberry, 0.002%float)]
  else weights.

(** A paytable row [{k: v0, k+1: v1, ...}]: the keys of every row of the
    source are consecutive. *)
Fixpoint fromCount (k : Z) (vals : list float) : list (Z * float) :=
  match vals with
  | [] => []
  | v :: vals' => (k, v) :: fromCount (k + 1) vals'
  end.

Definition Paytable := list (Symbol * list (Z * float)).

Definition PaytableLevel1 : Paytable :=
  [ (SymbolPurpleOwl, fromCount 4
       [4; 5; 6; 7; 8; 9; 10; 11; 12; 13; 14; 15; 16]%float);
    (SymbolGreenOwl, fromCount 4
       [2; 4; 5; 8; 10; 20; 30; 50; 100; 200; 400; 800; 1600]%float);
    (SymbolYellowOwl, fromCount 4
       [4; 5; 10; 20; 30; 50; 100; 250; 500; 750; 800; 1200; 6000]%float);
    (SymbolBlueOwl, fromCount 4
       [5; 10; 20; 40; 60; 80; 160; 500; 1000; 2000; 5000; 7000;
        8000]%float);
    (SymbolRedOwl, fromCount 4
       [10; 30; 50; 60; 100; 750; 1000; 10000; 20000; 50000; 60000;
        80000; 100000]%float) ].

Definition PaytableLevel2 : Paytable :=
  [ (SymbolPurpleOwl, fromCount 5
       [2; 4; 5; 8; 10; 20; 30; 50; 100; 200; 450; 1000; 1200; 1500;
        2000; 2500; 3000; 4000; 5000; 7500; 10000]%float);
    (SymbolGreenOwl, fromCount 5
       [4; 5; 10; 20; 30; 50; 100; 250; 500; 750; 1000; 7000; 8000;
        10000; 12000; 15000; 18000; 22000; 27000; 32000; 40000]%float);
    (SymbolYellowOwl, fromCount 5
       [5; 10; 20; 40; 60; 80; 160; 500; 1000; 2000; 5000; 8000; 10000;
        12000; 15000; 20000; 25000; 30000; 40000; 50000; 60000]%float);
    (SymbolBlueOwl, fromCount 5
       [10; 30; 50; 60; 100; 750; 1000; 10000; 20000; 50000; 70000;
        100000; 120000; 150000; 180000; 220000; 270000; 320000; 400000;
        500000; 600000]%float);
    (SymbolRedOwl, fromCount 5
       [20; 50; 100; 500; 1000; 2000; 5000; 20000; 50000; 80000; 100000;
        150000; 200000; 300000; 400000; 500000; 600000; 800000; 1000000;
        1200000; 1500000]%float) ].

Definition PaytableLevel3 : Paytable :=
  [ (SymbolPurpleOwl, fromCount 6
       [2; 4; 5; 8; 10; 20; 30; 50; 100; 200; 500; 600; 750; 900; 1100;
        1300; 1600; 2000; 2500; 3000; 3600; 4300; 5100; 6000; 7500; 9000;
        11000; 13000; 16000; 20000; 25000]%float);
    (SymbolGreenOwl, fromCount 6
       [4; 5; 10; 20; 30; 50; 100; 250; 500; 1000; 8000; 9000; 10500;
        12000; 14000; 16000; 19000; 22000; 26000; 30000; 35000; 40000;
        46000; 53000; 60000; 68000; 77000; 87000; 98000; 110000;
        125000]%float);
    (SymbolYellowOwl, fromCount 6
       [5; 10; 20; 40; 60; 80; 160; 500; 1000; 5000; 10000; 12000; 14000;
        17000; 20000; 24000; 28000; 33000; 39000; 45000; 52000; 60000;
        69000; 79000; 90000; 102000; 115000; 130000; 146000; 165000;
        185000]%float);
    (SymbolBlueOwl, fromCount 6
       [10; 30; 50; 60; 100; 750; 1000; 10000; 20000; 50000; 100000;
        115000; 130000; 150000; 170000; 195000; 220000; 250000; 280000;
        315000; 355000; 400000; 450000; 505000; 565000; 630000; 700000;
        775000; 860000; 950000; 1050000]%float);
    (SymbolRedOwl, fromCount 6
       [20; 50; 100; 500; 1000; 2000; 5000; 20000; 50000; 100000; 200000;
        230000; 265000; 305000; 350000; 400000; 460000; 530000; 610000;
        700000; 800000; 920000; 1060000; 1220000; 1400000; 1600000;
        1840000; 2120000; 2440000; 2800000; 3200000]%float) ].

Definition GetPaytable (level : Level) : Paytable :=
  if level =? Level1 then PaytableLevel1
  else if level =? Level2 then PaytableLevel2
  else if level =? Level3 then PaytableLevel3
  else PaytableLevel1.

Definition IsStageClearedSymbol (symbol : Symbol) : bool :=
  String.eqb symbol SymbolOrangeSlice || String.eqb symbol SymbolHoneyPot
  || String.eqb symbol SymbolStrawberry.

Definition IsRegularBirdSymbol (symbol : Symbol) : bool :=
  String.eqb symbol SymbolPurpleOwl || String.eqb symbol SymbolGreenOwl
  || String.eqb symbol SymbolYellowOwl || String.eqb symbol SymbolBlueOwl
  || String.eqb symbol SymbolRedOwl.

(* ------------------------------------------------------------------ *)
(** ** float64 helpers *)

(** [float64(n)]: conversion of an integer, to nearest even. *)
Definition float64 (n : Z) : float :=
  SF2Prim (binary_normalize 53 1024 n 0 false).

(** [math.Round]: the nearest integer, halves away from zero; zeros,
    infinities and NaN are returned unchanged. *)
Definition math_Round (x : float) : float :=
  match Prim2SF x with
  | S754_finite s m e =>
      if 0 <=? e then x
      else
        let d := Z.pow 2 (- e) in
        let q := Z.pos m / d in
        let r := Z.pos m mod d in
        let n := if d <=? 2 * r then q + 1 else q in
        if n =? 0 then (if s then (-0)%float else 0%float)
        else float64 (if s then - n else n)
  | _ => x
  end.

(** [round] of logic.go: two decimal places. *)
Definition round (val : float) : float :=
  (math_Round (val * 100) / 100)%float.

(** 64-bit wrap-around of Go's [int]. *)
Definition wrap64 (z : Z) : Z := (z + 2 ^ 63) mod 2 ^ 64 - 2 ^ 63.

(* ------------------------------------------------------------------ *)
(** ** Randomness, map iteration order and the outbound services *)

Inductive Call :=
| CallGetRTP (clientID gameID playerID : string)
| CallGetOutcome (clientID gameID playerID betID : string)
    (rtp payoutMultiplier betAmount : float).

(** Everything a request does not determine: the results of
    [r.Float64()], the raw draws behind [r.Intn] and behind the order in
    which a [range] loop visits a map, a cursor into them, and the log
    of service calls made so far. *)
Record World := mkWorld
  { rndFloat : N -> float;
    rndNat : N -> nat;
    tick : N;
    calls : list Call }.

Definition advance (w : World) : World :=
  mkWorld (rndFloat w) (rndNat w) (N.succ (tick w)) (calls w).

Definition logCall (c : Call) (w : World) : World :=
  mkWorld (rndFloat w) (rndNat w) (tick w) (calls w ++ [c]).

(** Computations that draw from the world and may panic. *)
Definition M (A : Type) : Type := World -> option (A * World).

Definition ret {A : Type} (a : A) : M A := fun w => Some (a, w).

Definition bind {A B : Type} (m : M A) (k : A -> M B) : M B :=
  fun w =>
    match m w with
    | Some (a, w') => k a w'
    | None => None
    end.

Definition lift {A : Type} (o : option A) : M A :=
  fun w =>
    match o with
    | Some a => Some (a, w)
    | None => None
    end.

Notation "x <- c1 ;; c2" := (bind c1 (fun x => c2))
  (at level 61, c1 at next level, right associativity).
Notation "' pat <- c1 ;; c2" := (bind c1 (fun x => match x with pat => c2 end))
  (at level 61, pat pattern, c1 at next level, right associativity).

(** [r.Float64()] *)
Definition Float64 : M float :=
  fun w => Some (rndFloat w (tick w), advance w).

(** [r.Intn(n)], which panics unless [n > 0]. *)
Definition Intn (n : Z) : M Z :=
  fun w =>
    if n <=? 0 then None
    else Some (Z.of_nat (rndNat w (tick w)) mod n, advance w).

Definition removeAt {A : Type} (i : nat) (l : list A) : list A :=
  firstn i l ++ skipn (S i) l.

(** The order in which [for k := range m] visits the keys [l] of a map:
    some permutation, selected by the world. *)
Fixpoint pickOrder {A : Type} (fuel : nat) (l : list A) (w : World)
  : list A * World :=
  match fuel, l with
  | S k, d :: _ =>
      let i := (rndNat w (tick w) mod length l)%nat in
      let (rest, w') := pickOrder k (removeAt i l) (advance w) in
      (nth i l d :: rest, w')
  | _, _ => ([], w)
  end.

Definition rangeOrder {A : Type} (l : list A) : M (list A) :=
  fun w => Some (pickOrder (length l) l w).

Fixpoint forUpM {S : Type} (n : nat) (lo : Z) (body : Z -> S -> M S)
  (s : S) : M S :=
  match n with
  | O => ret s
  | S k => s' <- body lo s ;; forUpM k (lo + 1) body s'
  end.

(** [for _, e := range l] over a slice. *)
Fixpoint forEach {A S : Type} (l : list A) (body : A -> S -> option S)
  (s : S) : option S :=
  match l with
  | [] => Some s
  | a :: l' =>
      match body a s with
      | Some s' => forEach l' body s'
      | None => None
      end
  end.

Fixpoint forEachM {A S : Type} (l : list A) (body : A -> S -> M S)
  (s : S) : M S :=
  match l with
  | [] => ret s
  | a :: l' => s' <- body a s ;; forEachM l' body s'
  end.

Record Services := mkServices
  { svcGetRTP : string -> string -> string -> option float;
    svcGetOutcome :
      string -> string -> string -> string -> float -> float -> float ->
      option string }.

(** [settingsClient.GetRTP]; [None] is the Go error. *)
Definition GetRTP (svc : Services) (clientID gameID playerID : string)
  : M (option float) :=
  fun w =>
    Some (svcGetRTP svc clientID gameID playerID,
          logCall (CallGetRTP clientID gameID playerID) w).

(** [rngClient.GetOutcome], returning [PrefOutcome]. *)
Definition GetOutcome (svc : Services)
  (clientID gameID playerID betID : string)
  (rtp payoutMultiplier betAmount : float) : M (option string) :=
  fun w =>
    Some (svcGetOutcome svc clientID gameID playerID betID rtp
            payoutMultiplier betAmount,
          logCall (CallGetOutcome clientID gameID playerID betID rtp
                     payoutMultiplier betAmount) w).

(* ------------------------------------------------------------------ *)
(** ** logic.go: connection finder *)

Definition outside (gridSize : Z) (p : Position) : bool :=
  (X p <? 0) || (X p >=? gridSize) || (Y p <? 0) || (Y p >=? gridSize).

(** The loop of [findConnectedPositions].  The head of [stack] is the
    top of the Go stack, so the four neighbours appear in the reverse of
    the order in which the source appends them.  [fuel] bounds the
    number of iterations; [None] is a panic or exhausted fuel. *)
Fixpoint floodLoop (fuel : nat) (grid : Grid) (gridSize : Z)
  (symbol : Symbol) (stack : list Position) (visited : list (list bool))
  (positions : list Position)
  : option (list Position * list (list bool)) :=
  match fuel with
  | O => None
  | S fuel' =>
      match stack with
      | [] => Some (positions, visited)
      | current :: stack' =>
          if outside gridSize current
          then floodLoop fuel' grid gridSize symbol stack' visited positions
          else
            match mget visited (Y current) (X current) with
            | None => None
            | Some true =>
                floodLoop fuel' grid gridSize symbol stack' visited positions
            | Some false =>
                match mget grid (Y current) (X current) with
                | None => None
                | Some g =>
                    if negb (String.eqb g symbol)
                       || negb (IsRegularBirdSymbol g)
                    then floodLoop fuel' grid gridSize symbol stack'
                           visited positions
                    else
                      match mset visited (Y current) (X current) true with
                      | None => None
                      | Some visited' =>
                          floodLoop fuel' grid gridSize symbol
                            (mkPosition (X current) (Y current - 1)
                             :: mkPosition (X current) (Y current + 1)
                             :: mkPosition (X current - 1) (Y current)
                             :: mkPosition (X current + 1) (Y current)
                             :: stack')
                            visited' (positions ++ [current])
                      end
                end
            end
      end
  end.

(** Enough iterations for a grid of side [n]: one for the start and
    four for every cell that can be marked, plus the final test. *)
Definition floodFuel (n : nat) : nat := (4 * (n * n) + 2)%nat.

Definition findConnectedPositions (grid : Grid) (startX startY : Z)
  (symbol : Symbol) (visited : list (list bool))
  : option (list Position * list (list bool)) :=
  floodLoop (floodFuel (length grid)) grid (len grid) symbol
    [mkPosition startX startY] visited [].

Definition calculatePayout (symbol : Symbol) (count : Z) (level : Level)
  (betMultiplier : Z) : float :=
  let paytable := GetPaytable level in
  match lookupS paytable symbol with
  | Some payoutMap =>
      match lookupZ payoutMap count with
      | Some payout => round (payout * 0.01 * float64 betMultiplier)
      | None => 0%float
      end
  | None => 0%float
  end.

Definition findCell (grid : Grid) (level : Level) (y x : Z)
  (s : list (list bool) * list Connection)
  : option (list (list bool) * list Connection) :=
  let (visited, connections) := s in
  match mget visited y x with
  | None => None
  | Some true => Some s
  | Some false =>
      match mget grid y x with
      | None => None
      | Some g =>
          if IsRegularBirdSymbol g then
            match findConnectedPositions grid x y g visited with
            | None => None
            | Some (positions, visited') =>
                if len positions >=? GetMinConnection level then
                  Some (visited',
                        connections ++
                          [mkConnection g positions (len positions)
                             (calculatePayout g (len positions) level 1)])
                else Some (visited', connections)
            end
          else Some s
      end
  end.

Definition FindRegularConnections (grid : Grid) (level : Level)
  : option (list Connection) :=
  let n := length grid in
  let visited := repeat (repeat false n) n in
  match
    forUp n 0 (fun y => forUp n 0 (fun x => findCell grid level y x))
      (visited, [])
  with
  | Some (_, connections) => Some connections
  | None => None
  end.

(* ------------------------------------------------------------------ *)
(** ** logic.go: symbol generation *)

(** The second loop of [WeightedRandomSymbolWithControl], over the
    entries in the order the map yields them. *)
Fixpoint pickSymbol (roll : float) (entries : list (Symbol * float))
  (currentWeight : float) : Symbol :=
  match entries with
  | [] => SymbolPurpleOwl
  | (symbol, weight) :: rest =>
      let currentWeight := (currentWeight + weight)%float in
      if (roll <=? currentWeight)%float then symbol
      else pickSymbol roll rest currentWeight
  end.

Definition WeightedRandomSymbolWithControl (level : Level)
  (forbidFreeGame : bool) : M Symbol :=
  let weights := GetLevelSpecificWeights level in
  let weights :=
    if forbidFreeGame then deleteS weights SymbolFreeGame else weights in
  order1 <- rangeOrder weights ;;
  let totalWeight :=
    fold_left (fun t e => (t + snd e)%float) order1 0%float in
  u <- Float64 ;;
  let roll := (u * totalWeight)%float in
  order2 <- rangeOrder weights ;;
  ret (pickSymbol roll order2 0%float).

Definition hasFreeGameSymbol (grid : Grid) : bool :=
  existsb (existsb (fun c => String.eqb c SymbolFreeGame)) grid.

Definition GenerateGrid (level : Level) (forbidFreeGame : bool) : M Grid :=
  let gridSize := GetGridSize level in
  let n := Z.to_nat gridSize in
  let grid : Grid := repeat [] n in
  ' (grid, _) <-
    forUpM n 0
      (fun y '(grid, freeGamePlaced) =>
         grid <- lift (upd grid y (repeat "" n)) ;;
         forUpM n 0
           (fun x '(grid, freeGamePlaced) =>
              let allowFreeGame :=
                negb freeGamePlaced && negb forbidFreeGame in
              symbol <-
                WeightedRandomSymbolWithControl level (negb allowFreeGame) ;;
              let freeGamePlaced :=
                if String.eqb symbol SymbolFreeGame then true
                else freeGamePlaced in
              grid <- lift (mset grid y x symbol) ;;
              ret (grid, freeGamePlaced))
           (grid, freeGamePlaced))
      (grid, false) ;;
  ret grid.

Definition birdSymbols : list Symbol :=
  [ SymbolPurpleOwl; SymbolGreenOwl; SymbolYellowOwl; SymbolBlueOwl;
    SymbolRedOwl ].

Definition ForceWinGrid (level : Level) (forbidFreeGame : bool) : M Grid :=
  let gridSize := GetGridSize level in
  grid <- GenerateGrid level forbidFreeGame ;;
  let minConnection := GetMinConnection level in
  t <- Intn (len birdSymbols) ;;
  targetSymbol <- lift (idx birdSymbols t) ;;
  startX <- Intn (gridSize - minConnection + 1) ;;
  y <- Intn gridSize ;;
  forUpM (Z.to_nat minConnection) 0
    (fun i grid => lift (mset grid y (startX + i) targetSymbol)) grid.

(** [append(s[:i], s[i+1:]...)] at the first [i] with [s[i] == v]. *)
Fixpoint removeFirst (v : Symbol) (s : list Symbol) : list Symbol :=
  match s with
  | [] => []
  | a :: s' => if String.eqb a v then s' else a :: removeFirst v s'
  end.

Definition ForceLossGrid (level : Level) (forbidFreeGame : bool) : M Grid :=
  let gridSize := GetGridSize level in
  let n := Z.to_nat gridSize in
  let grid : Grid := repeat [] n in
  grid <-
    forUpM n 0
      (fun y grid =>
         grid <- lift (upd grid y (repeat "" n)) ;;
         forUpM n 0
           (fun x grid =>
              let availableSymbols := birdSymbols in
              availableSymbols <-
                (if 0 <? x then
                   prev <- lift (mget grid y (x - 1)) ;;
                   ret (if negb (String.eqb prev "")
                           && IsRegularBirdSymbol prev
                        then removeFirst prev availableSymbols
                        else availableSymbols)
                 else ret availableSymbols) ;;
              availableSymbols <-
                (if 0 <? y then
                   up <- lift (mget grid (y - 1) x) ;;
                   ret (if negb (String.eqb up "") && IsRegularBirdSymbol up
                        then removeFirst up availableSymbols
                        else availableSymbols)
                 else ret availableSymbols) ;;
              symbol <-
                (if 0 <? len availableSymbols then
                   i <- Intn (len availableSymbols) ;;
                   lift (idx availableSymbols i)
                 else
                   i <- Intn (len birdSymbols) ;;
                   lift (idx birdSymbols i)) ;;
              lift (mset grid y x symbol))
           grid)
      grid ;;
  if forbidFreeGame then
    forUpM n 0
      (fun y grid =>
         forUpM n 0
           (fun x grid =>
              c <- lift (mget grid y x) ;;
              if String.eqb c SymbolFreeGame then
                i <- Intn (len birdSymbols) ;;
                symbol <- lift (idx birdSymbols i) ;;
                lift (mset grid y x symbol)
              else ret grid)
           grid)
      grid
  else ret grid.

Fixpoint GenerateGridWithWin_attempts (attempts : nat) (level : Level)
  (forbidFreeGame : bool) : M Grid :=
  match attempts with
  | O => ForceWinGrid level forbidFreeGame
  | S k =>
      grid <- GenerateGrid level forbidFreeGame ;;
      connections <- lift (FindRegularConnections grid level) ;;
      if 0 <? len connections then ret grid
      else GenerateGridWithWin_attempts k level forbidFreeGame
  end.

Definition GenerateGridWithWin (level : Level) (forbidFreeGame : bool)
  : M Grid :=
  GenerateGridWithWin_attempts 100 level forbidFreeGame.

Fixpoint GenerateLossGrid_attempts (attempts : nat) (level : Level)
  (forbidFreeGame : bool) : M Grid :=
  match attempts with
  | O => ForceLossGrid level forbidFreeGame
  | S k =>
      grid <- GenerateGrid level forbidFreeGame ;;
      connections <- lift (FindRegularConnections grid level) ;;
      if len connections =? 0 then ret grid
      else GenerateLossGrid_attempts k level forbidFreeGame
  end.

Definition GenerateLossGrid (level : Level) (forbidFreeGame : bool)
  : M Grid :=
  GenerateLossGrid_attempts 100 level forbidFreeGame.

(* ------------------------------------------------------------------ *)
(** ** logic.go: surgical removal and gravity *)

Definition inGrid (grid : Grid) (pos : Position) : bool :=
  (0 <=? X pos) && (X pos <? len grid) && (0 <=? Y pos)
  && (Y pos <? len grid).

Definition RemoveStageClearedSymbolsSurgical (grid : Grid)
  (stageClearedSymbols : list StageClearedSymbol) : option Grid :=
  forEach stageClearedSymbols
    (fun stageSymbol grid =>
       let pos := scPosition stageSymbol in
       if inGrid grid pos then mset grid (Y pos) (X pos) "" else Some grid)
    grid.

Definition RemoveConnectionsSurgical (grid : Grid)
  (connections : list Connection) : option (Grid * list Position) :=
  forEach connections
    (fun connection =>
       forEach (cPositions connection)
         (fun pos '(grid, affectedPositions) =>
            if inGrid grid pos then
              match mset grid (Y pos) (X pos) "" with
              | Some grid' => Some (grid', affectedPositions ++ [pos])
              | None => None
              end
            else Some (grid, affectedPositions)))
    (grid, []).

(** One iteration of "move existing symbols down" in column [x]. *)
Definition compactStep (x y : Z) (s : Grid * Z) : option (Grid * Z) :=
  let (grid, writePos) := s in
  match mget grid y x with
  | None => None
  | Some c =>
      if negb (String.eqb c "") then
        if negb (y =? writePos) then
          match mset grid writePos x c with
          | Some grid1 =>
              match mset grid1 y x "" with
              | Some grid2 => Some (grid2, writePos - 1)
              | None => None
              end
          | None => None
          end
        else Some (grid, writePos - 1)
      else Some s
  end.

(** One iteration of "fill empty spaces at the top" in column [x]. *)
Definition fillStep (level : Level) (forbidFreeGame : bool) (x y : Z)
  (s : Grid * list Position) : M (Grid * list Position) :=
  let (grid, newPositions) := s in
  let allowFreeGame := negb (hasFreeGameSymbol grid) && negb forbidFreeGame in
  symbol <- WeightedRandomSymbolWithControl level (negb allowFreeGame) ;;
  grid <- lift (mset grid y x symbol) ;;
  ret (grid, newPositions ++ [mkPosition x y]).

(** The body of [for x := range affectedColumns], which
    [ApplyGravitySurgical] and [ApplyGravitySurgicalForCascade] share
    word for word. *)
Definition gravityColumn (gridSize : Z) (level : Level)
  (forbidFreeGame : bool) (x : Z) (s : Grid * list Position)
  : M (Grid * list Position) :=
  let (grid, newPositions) := s in
  if (0 <=? x) && (x <? gridSize) then
    ' (grid, writePos) <-
      lift (forDown (Z.to_nat gridSize) (compactStep x)
              (grid, gridSize - 1)) ;;
    forUpM (Z.to_nat (writePos + 1)) 0 (fillStep level forbidFreeGame x)
      (grid, newPositions)
  else ret s.

Definition gravityColumns (grid : Grid) (columns : list Z) (level : Level)
  (forbidFreeGame : bool) : M (Grid * list Position) :=
  let gridSize := len grid in
  let affectedColumns := nodup Z.eq_dec columns in
  order <- rangeOrder affectedColumns ;;
  forEachM order (gravityColumn gridSize level forbidFreeGame) (grid, []).

(** Returns the grid after the in-place edits and [newPositions]. *)
Definition ApplyGravitySurgical (grid : Grid)
  (stageClearedSymbols : list StageClearedSymbol) (level : Level)
  (forbidFreeGame : bool) : M (Grid * list Position) :=
  gravityColumns grid
    (map (fun stageSymbol => X (scPosition stageSymbol)) stageClearedSymbols)
    level forbidFreeGame.

Definition ApplyGravitySurgicalForCascade (grid : Grid)
  (affectedPositions : list Position) (level : Level)
  (forbidFreeGame : bool) : M (Grid * list Position) :=
  gravityColumns grid (map X affectedPositions) level forbidFreeGame.

(* ------------------------------------------------------------------ *)
(** ** logic.go: surgical loss *)

Definition Position_eq_dec (p q : Position) : {p = q} + {p <> q}.
Proof. decide equality; apply Z.eq_dec. Defined.

Definition setGrid (gs : GameState) (grid : Grid) : GameState :=
  mkGameState (Bet gs) (CurrentLevel gs) (GridSize gs) grid
    (StageProgress gs) (GameMode gs) (FreeSpins gs) (TotalWin gs)
    (Cascading gs) (LastConnections gs) (CascadeCount gs)
    (StageClearedSymbols gs).

(** The body of [for posKey := range allowed] in one attempt; the key
    ["x,y"] printed by [Sprintf] and read back by [Sscanf] is kept as
    the position it encodes.  [Some grid] is the committed test grid;
    [None] means the loop ended or broke without success. *)
Fixpoint tryPositions (keys : list Position) (modificationsCount : Z)
  (gameMode : string) (level : Level) (testGrid : Grid) (modified : Z)
  : M (option Grid) :=
  match keys with
  | [] => ret None
  | pos :: rest =>
      if modified >=? modificationsCount then ret None
      else
        let width :=
          match idx testGrid 0 with
          | Some row0 => len row0
          | None => 0
          end in
        if (0 <=? X pos) && (X pos <? len testGrid) && (0 <=? Y pos)
           && (Y pos <? width)
        then
          let forbidFreeGame := String.eqb gameMode "freeSpins" in
          newSymbol <- WeightedRandomSymbolWithControl level forbidFreeGame ;;
          testGrid <- lift (mset testGrid (Y pos) (X pos) newSymbol) ;;
          testConnections <- lift (FindRegularConnections testGrid level) ;;
          if len testConnections =? 0 then ret (Some testGrid)
          else
            tryPositions rest modificationsCount gameMode level testGrid
              (modified + 1)
        else
          tryPositions rest modificationsCount gameMode level testGrid
            modified
  end.

Fixpoint surgicalAttempts (attempts : nat) (allowed : list Position)
  (maxModifications : Z) (gameState : GameState) (level : Level)
  : M (bool * GameState) :=
  match attempts with
  | O => ret (false, gameState)
  | S k =>
      let testGrid := gsGrid gameState in
      let modificationsCount := Z.min maxModifications (len allowed) in
      order <- rangeOrder allowed ;;
      r <- tryPositions order modificationsCount (GameMode gameState) level
             testGrid 0 ;;
      match r with
      | Some testGrid => ret (true, setGrid gameState testGrid)
      | None => surgicalAttempts k allowed maxModifications gameState level
      end
  end.

(** [ApplySurgicalLoss] and [ApplySurgicalLossForCascade] differ only in
    the constant of [min(3, len(allowed))] / [min(4, len(allowed))]. *)
Definition surgicalLoss (maxModifications : Z) (gameState : GameState)
  (level : Level) (newPositions : list Position) : M (bool * GameState) :=
  let allowed := nodup Position_eq_dec newPositions in
  connections <- lift (FindRegularConnections (gsGrid gameState) level) ;;
  if len connections =? 0 then ret (true, gameState)
  else surgicalAttempts 50 allowed maxModifications gameState level.

Definition ApplySurgicalLoss (gameState : GameState) (originalGrid : Grid)
  (stageClearedSymbols : list StageClearedSymbol) (level : Level)
  (newPositions : list Position) : M (bool * GameState) :=
  surgicalLoss 3 gameState level newPositions.

Definition ApplySurgicalLossForCascade (gameState : GameState)
  (originalGrid : Grid) (newPositions : list Position) (level : Level)
  : M (bool * GameState) :=
  surgicalLoss 4 gameState level newPositions.

(* ------------------------------------------------------------------ *)
(** ** logic.go: scans, levels and game state *)

Definition FindStageClearedSymbols (grid : Grid) (level : Level)
  : option (list StageClearedSymbol) :=
  let n := length grid in
  let expectedSymbol := GetStageClearedSymbol level in
  forUp n 0
    (fun y =>
       forUp n 0
         (fun x found =>
            match mget grid y x with
            | Some c =>
                if String.eqb c expectedSymbol
                then Some (found ++
                             [mkStageClearedSymbol expectedSymbol
                                (mkPosition x y)])
                else Some found
            | None => None
            end))
    [].

Definition CountFreeGameSymbols (grid : Grid) : option Z :=
  let n := length grid in
  forUp n 0
    (fun y =>
       forUp n 0
         (fun x count =>
            match mget grid y x with
            | Some c =>
                if String.eqb c SymbolFreeGame then Some (count + 1)
                else Some count
            | None => None
            end))
    0.

Definition GetRandomFreeSpinMultiplier : M float :=
  let multipliers := [1.0; 1.5; 2.0; 2.5; 3.0; 3.5; 4.0; 4.5; 5.0]%float in
  i <- Intn (len multipliers) ;;
  lift (idx multipliers i).

Definition AdvanceLevel (currentLevel : Level) : Level :=
  if currentLevel =? Level1 then Level2
  else if currentLevel =? Level2 then Level3
  else if currentLevel =? Level3 then Level1
  else Level1.

Definition InitializeGameState : GameState :=
  mkGameState (mkBet 0 0) Level1 Level1GridSize [] 0 "base"
    (mkFreeSpins 0 0 1.0) 0 false [] 0 [].

Definition UpdateGameStateForLevel (gameState : GameState)
  (newLevel : Level) : GameState :=
  mkGameState (Bet gameState) newLevel (GetGridSize newLevel)
    (gsGrid gameState) 0 (GameMode gameState) (FreeSpins gameState)
    (TotalWin gameState) (Cascading gameState) (LastConnections gameState)
    (CascadeCount gameState) (StageClearedSymbols gameState).

Definition ValidateGridDimensions (grid : Grid) (level : Level) : bool :=
  let expectedSize := GetGridSize level in
  if negb (len grid =? expectedSize) then false
  else forallb (fun row => len row =? expectedSize) grid.

(* ------------------------------------------------------------------ *)
(** ** handlers.go *)

(** What a handler sends: [c.JSON(body)], or
    [c.Status(code).JSON({"status": "error", "message": message})]. *)
Inductive Reply (R : Type) : Type :=
| Json (body : R)
| ErrorJson (code : Z) (message : string).
Arguments Json {R} body.
Arguments ErrorJson {R} code message.

Definition StatusBadRequest : Z := 400.
Definition StatusInternalServerError : Z := 500.

Definition isValidBetAmount (amount : float) : bool :=
  existsb (fun valid => PrimFloat.eqb amount valid)
    [0.1; 0.2; 0.3; 0.5; 1.0]%float.

(** [Some message] is the Go error, [None] is [nil]. *)
Definition validateRequest (clientID gameID playerID betID : string)
  (betAmount : float) : option string :=
  if String.eqb clientID "" then Some "client_id is required"
  else if String.eqb gameID "" then Some "game_id is required"
  else if String.eqb playerID "" then Some "player_id is required"
  else if String.eqb betID "" then Some "bet_id is required"
  else if negb (isValidBetAmount betAmount)
  then Some "invalid bet amount, allowed values are 0.1, 0.2, 0.3, 0.5, 1.0"
  else None.

Definition setGameMode (gs : GameState) (mode : string) : GameState :=
  mkGameState (Bet gs) (CurrentLevel gs) (GridSize gs) (gsGrid gs)
    (StageProgress gs) mode (FreeSpins gs) (TotalWin gs) (Cascading gs)
    (LastConnections gs) (CascadeCount gs) (StageClearedSymbols gs).

Definition setGridSize (gs : GameState) (n : Z) : GameState :=
  mkGameState (Bet gs) (CurrentLevel gs) n (gsGrid gs) (StageProgress gs)
    (GameMode gs) (FreeSpins gs) (TotalWin gs) (Cascading gs)
    (LastConnections gs) (CascadeCount gs) (StageClearedSymbols gs).

Definition setBetMultiplier (gs : GameState) (m : Z) : GameState :=
  mkGameState (mkBet (Amount (Bet gs)) m) (CurrentLevel gs) (GridSize gs)
    (gsGrid gs) (StageProgress gs) (GameMode gs) (FreeSpins gs)
    (TotalWin gs) (Cascading gs) (LastConnections gs) (CascadeCount gs)
    (StageClearedSymbols gs).

Definition setStageProgress (gs : GameState) (p : Z) : GameState :=
  mkGameState (Bet gs) (CurrentLevel gs) (GridSize gs) (gsGrid gs) p
    (GameMode gs) (FreeSpins gs) (TotalWin gs) (Cascading gs)
    (LastConnections gs) (CascadeCount gs) (StageClearedSymbols gs).

Definition setFreeSpins (gs : GameState) (fs : FreeSpinsT) : GameState :=
  mkGameState (Bet gs) (CurrentLevel gs) (GridSize gs) (gsGrid gs)
    (StageProgress gs) (GameMode gs) fs (TotalWin gs) (Cascading gs)
    (LastConnections gs) (CascadeCount gs) (StageClearedSymbols gs).

Definition setCascadeCount (gs : GameState) (n : Z) : GameState :=
  mkGameState (Bet gs) (CurrentLevel gs) (GridSize gs) (gsGrid gs)
    (StageProgress gs) (GameMode gs) (FreeSpins gs) (TotalWin gs)
    (Cascading gs) (LastConnections gs) n (StageClearedSymbols gs).

Definition setStageClearedSymbols (gs : GameState)
  (l : list StageClearedSymbol) : GameState :=
  mkGameState (Bet gs) (CurrentLevel gs) (GridSize gs) (gsGrid gs)
    (StageProgress gs) (GameMode gs) (FreeSpins gs) (TotalWin gs)
    (Cascading gs) (LastConnections gs) (CascadeCount gs) l.

(** [TotalWin], [LastConnections] and [Cascading] are always assigned
    together. *)
Definition setResults (gs : GameState) (totalWinnings : float)
  (connections : list Connection) : GameState :=
  mkGameState (Bet gs) (CurrentLevel gs) (GridSize gs) (gsGrid gs)
    (StageProgress gs) (GameMode gs) (FreeSpins gs) totalWinnings
    (0 <? len connections) connections (CascadeCount gs)
    (StageClearedSymbols gs).

Definition setPayout (c : Connection) (payout : float) : Connection :=
  mkConnection (cSymbol c) (cPositions c) (cCount c) payout.

(** The loop "Calculate total winnings": every connection is repriced
    in place with the bet multiplier and the payouts are summed. *)
Definition payConnections (connections : list Connection) (level : Level)
  (betMultiplier : Z) : list Connection * float :=
  fold_left
    (fun '(priced, totalWinnings) connection =>
       let payout :=
         calculatePayout (cSymbol connection) (cCount connection) level
           betMultiplier in
       (priced ++ [setPayout connection payout],
        (totalWinnings + payout)%float))
    connections ([], 0%float).

(** The block shared by the three handlers: pricing, then the free-spin
    multiplier on the sum, then [round]. *)
Definition totalWinningsOf (gs : GameState) (connections : list Connection)
  : list Connection * float :=
  let (connections, totalWinnings) :=
    payConnections connections (CurrentLevel gs) (Multiplier (Bet gs)) in
  let totalWinnings :=
    if String.eqb (GameMode gs) "freeSpins"
    then (totalWinnings * fsMultiplier (FreeSpins gs))%float
    else totalWinnings in
  (connections, round totalWinnings).

(** "Check for free game symbols": a base-mode grid that shows the
    trigger starts the free spins. *)
Definition triggerFreeSpins (gs : GameState) : M GameState :=
  freeGameCount <- lift (CountFreeGameSymbols (gsGrid gs)) ;;
  if String.eqb (GameMode gs) "base" && (0 <? freeGameCount) then
    m <- GetRandomFreeSpinMultiplier ;;
    ret (setFreeSpins (setGameMode gs "freeSpins")
           (mkFreeSpins FreeSpinsAwarded FreeSpinsAwarded m))
  else ret gs.

Definition SpinHandler (svc : Services) (req : Request)
  : M (Reply SpinResponse) :=
  let gs := reqGameState req in
  match
    validateRequest (ClientID req) (GameID req) (PlayerID req) (BetID req)
      (Amount (Bet gs))
  with
  | Some err => ret (ErrorJson StatusBadRequest err)
  | None =>
      let gs := if CurrentLevel gs =? 0 then InitializeGameState else gs in
      let gs := if String.eqb (GameMode gs) "" then setGameMode gs "base"
                else gs in
      let expectedGridSize := GetGridSize (CurrentLevel gs) in
      let gs := if negb (GridSize gs =? expectedGridSize)
                then setGridSize gs expectedGridSize else gs in
      let gs :=
        setBetMultiplier gs
          (match lookupF BetAmountToMultiplier (Amount (Bet gs)) with
           | Some m => m
           | None => 0
           end) in
      let forbidFreeGame := String.eqb (GameMode gs) "freeSpins" in
      grid <- GenerateGridWithWin (CurrentLevel gs) forbidFreeGame ;;
      let gs := setGrid gs grid in
      stageClearedSymbols <-
        lift (FindStageClearedSymbols (gsGrid gs) (CurrentLevel gs)) ;;
      let gs := setStageClearedSymbols gs stageClearedSymbols in
      connections <-
        lift (FindRegularConnections (gsGrid gs) (CurrentLevel gs)) ;;
      let (connections, totalWinnings) := totalWinningsOf gs connections in
      let finish (gs : GameState)
        (stageClearedSymbols : list StageClearedSymbol)
        (connections : list Connection) (totalWinnings : float)
        : M (Reply SpinResponse) :=
        let gs := setCascadeCount gs 0 in
        let gs := setResults gs totalWinnings connections in
        gs <- triggerFreeSpins gs ;;
        let gs :=
          if String.eqb (GameMode gs) "freeSpins" then
            let fs := FreeSpins gs in
            let gs :=
              setFreeSpins gs
                (mkFreeSpins (wrap64 (Remaining fs - 1)) (TotalAwarded fs)
                   (fsMultiplier fs)) in
            if Remaining (FreeSpins gs) <=? 0
            then setFreeSpins (setGameMode gs "base") (mkFreeSpins 0 0 1.0)
            else gs
          else gs in
        let totalCost :=
          if String.eqb (GameMode gs) "freeSpins" then 0%float
          else Amount (Bet gs) in
        let hasStageCleared := 0 <? len stageClearedSymbols in
        ret (Json (mkSpinResponse "success" "" gs stageClearedSymbols
                     hasStageCleared totalCost)) in
      if 0 <? len connections then
        rtp <- GetRTP svc (ClientID req) (GameID req) (PlayerID req) ;;
        match rtp with
        | None =>
            ret (ErrorJson StatusInternalServerError
                   "Failed to retrieve game settings")
        | Some rtp =>
            let payoutMultiplier :=
              (totalWinnings / Amount (Bet gs))%float in
            prefOutcome <-
              GetOutcome svc (ClientID req) (GameID req) (PlayerID req)
                (BetID req) rtp payoutMultiplier (Amount (Bet gs)) ;;
            match prefOutcome with
            | None =>
                ret (ErrorJson StatusInternalServerError
                       "Failed to determine outcome")
            | Some prefOutcome =>
                if String.eqb prefOutcome "loss" then
                  let forbidFreeGame :=
                    String.eqb (GameMode gs) "freeSpins" in
                  grid <- GenerateLossGrid (CurrentLevel gs) forbidFreeGame ;;
                  let gs := setGrid gs grid in
                  stageClearedSymbols <-
                    lift (FindStageClearedSymbols (gsGrid gs)
                            (CurrentLevel gs)) ;;
                  let gs := setStageClearedSymbols gs stageClearedSymbols in
                  finish gs stageClearedSymbols [] 0%float
                else finish gs stageClearedSymbols connections totalWinnings
            end
        end
      else finish gs stageClearedSymbols connections totalWinnings
  end.

(** A reply together with the handler's local [rngBypassed], which the
    source only writes to its log. *)
Record Handled (R : Type) : Type := mkHandled
  { reply : Reply R; rngBypassed : bool }.
Arguments mkHandled {R} reply rngBypassed.
Arguments reply {R} h.
Arguments rngBypassed {R} h.

Definition failWith {R : Type} (code : Z) (message : string)
  : M (Handled R) :=
  ret (mkHandled (ErrorJson code message) false).

(** "Handle RNG for bird symbol connections with surgical loss
    approach", common to the stage-cleared and cascade handlers;
    [applyLoss] is the handler's call of [ApplySurgicalLoss] or
    [ApplySurgicalLossForCascade].  The result is either an error reply
    or the game state, connections, winnings and [rngBypassed]. *)
Definition reconcile {R : Type} (svc : Services) (req : Request)
  (applyLoss : GameState -> M (bool * GameState)) (gs : GameState)
  (connections : list Connection) (totalWinnings : float)
  : M (Reply R + GameState * list Connection * float * bool) :=
  if 0 <? len connections then
    rtp <- GetRTP svc (ClientID req) (GameID req) (PlayerID req) ;;
    match rtp with
    | None =>
        ret (inl (ErrorJson StatusInternalServerError
                    "Failed to retrieve game settings"))
    | Some rtp =>
        let payoutMultiplier := (totalWinnings / Amount (Bet gs))%float in
        prefOutcome <-
          GetOutcome svc (ClientID req) (GameID req) (PlayerID req)
            (BetID req) rtp payoutMultiplier (Amount (Bet gs)) ;;
        match prefOutcome with
        | None =>
            ret (inl (ErrorJson StatusInternalServerError
                        "Failed to determine outcome"))
        | Some prefOutcome =>
            if String.eqb prefOutcome "loss" then
              ' (success, gs) <- applyLoss gs ;;
              if negb success
              then ret (inr (gs, connections, totalWinnings, true))
              else ret (inr (gs, [], 0%float, false))
            else ret (inr (gs, connections, totalWinnings, false))
        end
    end
  else ret (inr (gs, connections, totalWinnings, false)).

Definition ProcessStageClearedHandler (svc : Services) (req : Request)
  : M (Handled ProcessStageClearedResponse) :=
  let gs := reqGameState req in
  match
    validateRequest (ClientID req) (GameID req) (PlayerID req) (BetID req)
      (Amount (Bet gs))
  with
  | Some err => failWith StatusBadRequest err
  | None =>
      if negb (ValidateGridDimensions (gsGrid gs) (CurrentLevel gs))
      then failWith StatusBadRequest "Invalid grid dimensions"
      else
        stageClearedSymbols <-
          (if len (StageClearedSymbols gs) =? 0
           then lift (FindStageClearedSymbols (gsGrid gs) (CurrentLevel gs))
           else ret (StageClearedSymbols gs)) ;;
        let stageClearedCount := len stageClearedSymbols in
        let originalGrid := gsGrid gs in
        let oldLevel := CurrentLevel gs in
        grid <-
          lift (RemoveStageClearedSymbolsSurgical (gsGrid gs)
                  stageClearedSymbols) ;;
        ' (grid, newPositions) <-
          ApplyGravitySurgical grid stageClearedSymbols (CurrentLevel gs)
            (String.eqb (GameMode gs) "freeSpins") ;;
        let gs := setGrid gs grid in
        let gs :=
          setStageProgress gs
            (wrap64 (StageProgress gs + len stageClearedSymbols)) in
        if StageProgress gs >=? StageProgressTarget then
          let newLevel := AdvanceLevel oldLevel in
          let excessProgress :=
            wrap64 (StageProgress gs - StageProgressTarget) in
          let gs := UpdateGameStateForLevel gs newLevel in
          let gs := setStageProgress gs excessProgress in
          grid <- GenerateGrid newLevel false ;;
          let gs := setGrid gs grid in
          let gs := setStageClearedSymbols gs [] in
          ret (mkHandled
                 (Json (mkProcessStageClearedResponse "success" "" gs
                          (len stageClearedSymbols) true oldLevel newLevel
                          [] 0%float))
                 false)
        else
          let gs := setStageClearedSymbols gs [] in
          connections <-
            lift (FindRegularConnections (gsGrid gs) (CurrentLevel gs)) ;;
          let (connections, totalWinnings) :=
            totalWinningsOf gs connections in
          r <-
            reconcile svc req
              (fun gs =>
                 ApplySurgicalLoss gs originalGrid stageClearedSymbols
                   (CurrentLevel gs) newPositions)
              gs connections totalWinnings ;;
          match r with
          | inl err => ret (mkHandled err false)
          | inr (gs, connections, totalWinnings, rngBypassed) =>
              let gs := setResults gs totalWinnings connections in
              let gs :=
                setCascadeCount gs (if 0 <? len connections then 1 else 0) in
              ret (mkHandled
                     (Json (mkProcessStageClearedResponse "success" "" gs
                              stageClearedCount false oldLevel oldLevel
                              connections 0%float))
                     rngBypassed)
          end
  end.

(** "Process cascade surgically" and the detection that follows it:
    the grid after removal and gravity, the refilled positions, and the
    connections found. *)
Definition cascadeStep (gs : GameState)
  : M (GameState * list Position * list Position * list Connection) :=
  let forbidFreeGame := String.eqb (GameMode gs) "freeSpins" in
  ' (gs, affectedPositions, newPositions, connections) <-
    (if (CascadeCount gs >=? 1) && (0 <? len (LastConnections gs)) then
       ' (grid, affectedPositions) <-
         lift (RemoveConnectionsSurgical (gsGrid gs) (LastConnections gs)) ;;
       ' (grid, newPositions) <-
         ApplyGravitySurgicalForCascade grid affectedPositions
           (CurrentLevel gs) forbidFreeGame ;;
       ret (setGrid gs grid, affectedPositions, newPositions, [])
     else
       connections <-
         lift (FindRegularConnections (gsGrid gs) (CurrentLevel gs)) ;;
       if 0 <? len connections then
         let affectedPositions := flat_map cPositions connections in
         ' (grid, newPositions) <-
           ApplyGravitySurgicalForCascade (gsGrid gs) affectedPositions
             (CurrentLevel gs) forbidFreeGame ;;
         ret (setGrid gs grid, affectedPositions, newPositions, connections)
       else ret (gs, [], [], connections)) ;;
  connections <-
    (if (CascadeCount gs >=? 1) || (len connections =? 0)
     then lift (FindRegularConnections (gsGrid gs) (CurrentLevel gs))
     else ret connections) ;;
  ret (gs, affectedPositions, newPositions, connections).

Definition CascadeHandler (svc : Services) (req : Request)
  : M (Handled CascadeResponse) :=
  let gs := reqGameState req in
  match
    validateRequest (ClientID req) (GameID req) (PlayerID req) (BetID req)
      (Amount (Bet gs))
  with
  | Some err => failWith StatusBadRequest err
  | None =>
      if negb (ValidateGridDimensions (gsGrid gs) (CurrentLevel gs))
      then failWith StatusBadRequest "Invalid grid dimensions"
      else
        let gs := setCascadeCount gs (wrap64 (CascadeCount gs + 1)) in
        let originalGrid := gsGrid gs in
        ' (gs, affectedPositions, newPositions, connections) <-
          cascadeStep gs ;;
        let (connections, totalWinnings) := totalWinningsOf gs connections in
        r <-
          reconcile svc req
            (fun gs =>
               ApplySurgicalLossForCascade gs originalGrid newPositions
                 (CurrentLevel gs))
            gs connections totalWinnings ;;
        match r with
        | inl err => ret (mkHandled err false)
        | inr (gs, connections, totalWinnings, rngBypassed) =>
            stageClearedSymbols <-
              lift (FindStageClearedSymbols (gsGrid gs) (CurrentLevel gs)) ;;
            let hasStageCleared := 0 <? len stageClearedSymbols in
            let gs := setStageClearedSymbols gs stageClearedSymbols in
            gs <-
              (if (len connections =? 0) && negb rngBypassed
               then triggerFreeSpins gs else ret gs) ;;
            let gs := setResults gs totalWinnings connections in
            ret (mkHandled
                   (Json (mkCascadeResponse "success" "" gs connections
                            stageClearedSymbols hasStageCleared 0%float))
                   rngBypassed)
        end
  end.

(* ------------------------------------------------------------------ *)
(** ** Specification vocabulary *)

(** [p] is a cell of a grid of side [n]. *)
Definition inside (n : Z) (p : Position) : Prop :=
  0 <= X p < n /\ 0 <= Y p < n.

(** The cell at [p] exists and holds [s]. *)
Definition holds (grid : Grid) (p : Position) (s : Symbol) : Prop :=
  mget grid (Y p) (X p) = Some s.

(** Up, down, left or right neighbour: no diagonals. *)
Definition adjacent (p q : Position) : Prop :=
  (X q = X p /\ (Y q = Y p + 1 \/ Y q = Y p - 1))
  \/ (Y q = Y p /\ (X q = X p + 1 \/ X q = X p - 1)).

(** The 4-connected component of [start] among the cells holding [s]. *)
Inductive component (grid : Grid) (s : Symbol) (start : Position)
  : Position -> Prop :=
| component_start :
    inside (len grid) start -> holds grid start s ->
    component grid s start start
| component_step p q :
    component grid s start p -> adjacent p q -> inside (len grid) q ->
    holds grid q s -> component grid s start q.

(** What a connection returned for [grid] at [level] must be. *)
Definition isComponent (grid : Grid) (level : Level) (c : Connection)
  : Prop :=
  IsRegularBirdSymbol (cSymbol c) = true
  /\ cCount c = len (cPositions c)
  /\ GetMinConnection level <= cCount c
  /\ NoDup (cPositions c)
  /\ exists start,
       forall p, In p (cPositions c) <-> component grid (cSymbol c) start p.

(** Cells flagged in a [visited] array. *)
Definition marked (visited : list (list bool)) (p : Position) : Prop :=
  mget visited (Y p) (X p) = Some true.

(** A [visited] array that contains, with every marked cell, the
    neighbours holding the same symbol. *)
Definition closedMarks (grid : Grid) (visited : list (list bool)) : Prop :=
  forall p q,
    marked visited p -> inside (len grid) p -> adjacent p q ->
    inside (len grid) q ->
    mget grid (Y q) (X q) = mget grid (Y p) (X p) ->
    marked visited q.

(** The loop invariant of [floodLoop], started at [start] on the marks
    [V0]: the marks are [V0] plus the positions collected so far, which
    are distinct cells of the component; everything on the stack that
    holds the symbol belongs to the component; and every neighbour of a
    collected cell that holds the symbol is marked or still on the
    stack. *)
Record floodInv (grid : Grid) (s : Symbol) (start : Position)
  (V0 : list (list bool)) (stack : list Position)
  (visited : list (list bool)) (positions : list Position) : Prop :=
  { fi_marks :
      forall p, marked visited p <-> marked V0 p \/ In p positions;
    fi_members :
      forall p, In p positions ->
        inside (len grid) p /\ holds grid p s /\ ~ marked V0 p
        /\ component grid s start p;
    fi_nodup : NoDup positions;
    fi_stack :
      forall q, In q stack -> inside (len grid) q -> holds grid q s ->
        component grid s start q;
    fi_pending :
      forall p q, In p positions -> adjacent p q -> inside (len grid) q ->
        holds grid q s -> In q stack \/ marked visited q;
    fi_start : In start stack \/ In start positions }.

(** The invariant of the scan of [FindRegularConnections]. *)
Definition finderInv (grid : Grid) (level : Level)
  (st : list (list bool) * list Connection) : Prop :=
  closedMarks grid (fst st) /\ Forall (isComponent grid level) (snd st).

(** The cells of a grid of side [n]. *)
Definition allCells (n : nat) : list Position :=
  map (fun c => mkPosition (Z.of_nat (fst c)) (Z.of_nat (snd c)))
    (list_prod (seq 0 n) (seq 0 n)).

Definition isFreeGame (c : string) : bool := String.eqb c SymbolFreeGame.

Definition rowCount (P : string -> bool) (row : list string) : nat :=
  list_sum (map (fun c => if P c then 1%nat else 0%nat) row).

(** The number of cells of the whole grid that satisfy [P]. *)
Definition countCells (P : string -> bool) (grid : Grid) : nat :=
  list_sum (map (rowCount P) grid).

(** The number of cells holding the free-spin trigger. *)
Definition freeGameCells (grid : Grid) : nat := countCells isFreeGame grid.

(** The invariant of [GenerateGrid] once [filled] rows are allocated:
    those rows have [n] cells, the others none; at most one cell holds
    the trigger, none while [freeGamePlaced] is unset or when the
    trigger is forbidden. *)
Definition genInv (forbidFreeGame : bool) (n filled : nat)
  (st : Grid * bool) : Prop :=
  map len (fst st) = repeat (Z.of_nat n) filled ++ repeat 0 (n - filled)
  /\ (freeGameCells (fst st) <= 1)%nat
  /\ (snd st = false -> freeGameCells (fst st) = O)
  /\ (forbidFreeGame = true -> freeGameCells (fst st) = O).

Definition nonEmpty (c : string) : bool := negb (String.eqb c "").

(** Column [x] of a grid, from the top row down. *)
Definition column (grid : Grid) (x : Z) : list string :=
  map (fun row => match idx row x with Some c => c | None => "" end) grid.

(** Column [x] of [after] is column [x] of [before] with its non-empty
    cells moved to the bottom in their order, under fresh symbols. *)
Definition compacted (before after : Grid) (x : Z) : Prop :=
  exists fresh,
    column after x = fresh ++ filter nonEmpty (column before x)
    /\ Forall (fun c => c <> "") fresh.

(** The invariant of the loop "move existing symbols down" of column
    [x] when rows [k] and below have been visited: rows above [k] are
    as in [g0], then come the cells emptied so far, up to [writePos],
    then the non-empty cells met so far, in their order. *)
Definition compactInv (n : nat) (g0 : Grid) (x : Z) (k : nat)
  (st : Grid * Z) : Prop :=
  square (Z.of_nat n) (fst st)
  /\ (forall x', x' <> x -> column (fst st) x' = column g0 x')
  /\ (forall P, P "" = false -> countCells P (fst st) = countCells P g0)
  /\ exists e : nat,
       snd st = Z.of_nat k + Z.of_nat e - 1
       /\ column (fst st) x
          = firstn k (column g0 x) ++ repeat "" e
            ++ filter nonEmpty (skipn k (column g0 x)).

(** The invariant of the loop "fill empty spaces at the top" of column
    [x] before row [y], when the column had [e] empty cells above the
    cells [kept]: the rows above [y] hold fresh symbols, no other
    column has changed, and the trigger shows at most [cap] times. *)
Definition fillInv (n : nat) (g0 : Grid) (x : Z) (e : nat)
  (kept : list string) (cap : nat) (y : Z) (st : Grid * list Position)
  : Prop :=
  square (Z.of_nat n) (fst st)
  /\ (forall x', x' <> x -> column (fst st) x' = column g0 x')
  /\ (freeGameCells (fst st) <= cap)%nat
  /\ exists fresh,
       len fresh = y
       /\ Forall (fun c => c <> "") fresh
       /\ column (fst st) x = fresh ++ repeat "" (e - Z.to_nat y) ++ kept.

(** The invariant of [for x := range affectedColumns] once the columns
    [done] are processed. *)
Definition columnsInv (n : nat) (g0 : Grid) (done : list Z)
  (st : Grid * list Position) : Prop :=
  square (Z.of_nat n) (fst st)
  /\ (freeGameCells (fst st) <= Nat.max 1 (freeGameCells g0))%nat
  /\ (forall x, In x done -> 0 <= x < Z.of_nat n -> compacted g0 (fst st) x)
  /\ (forall x, ~ In x done -> column (fst st) x = column g0 x).

(** [after] is [before] with the cells at [removed] emptied (those that
    lie in the grid) and every other cell untouched. *)
Definition cleared (before after : Grid) (removed : list Position) : Prop :=
  (forall p, In p removed -> inGrid before p = true -> holds after p "")
  /\ (forall p, ~ In p removed ->
                mget after (Y p) (X p) = mget before (Y p) (X p)).

(** What a surgical loss returns, for either constant: no service call
    is made, only the grid can differ, it stays square, it differs only
    at the new positions, not at all on failure, and on success it is
    free of connections. *)
Definition lossOutcome (gs : GameState) (level : Level)
  (newPositions : list Position) (w : World)
  (r : (bool * GameState) * World) : Prop :=
  let '((success, gs'), w') := r in
  calls w' = calls w
  /\ gs' = setGrid gs (gsGrid gs')
  /\ square (len (gsGrid gs)) (gsGrid gs')
  /\ (forall p, ~ In p newPositions ->
                mget (gsGrid gs') (Y p) (X p) = mget (gsGrid gs) (Y p) (X p))
  /\ (success = false -> gs' = gs)
  /\ (success = true -> FindRegularConnections (gsGrid gs') level = Some []).

(** The stage-cleared symbols a [ProcessStageCleared] request processes:
    those it carries or, if it carries none, those found on its grid. *)
Definition processedSymbols (gs : GameState)
  : option (list StageClearedSymbol) :=
  if len (StageClearedSymbols gs) =? 0
  then FindStageClearedSymbols (gsGrid gs) (CurrentLevel gs)
  else Some (StageClearedSymbols gs).

(** A request that passes [validateRequest]. *)
Definition accepted (req : Request) : Prop :=
  validateRequest (ClientID req) (GameID req) (PlayerID req) (BetID req)
    (Amount (Bet (reqGameState req))) = None.

(** A request that also passes [ValidateGridDimensions]. *)
Definition wellFormed (req : Request) : Prop :=
  accepted req
  /\ ValidateGridDimensions (gsGrid (reqGameState req))
       (CurrentLevel (reqGameState req)) = true.

(** The world once a handler has asked for the RTP and for the outcome
    of winnings [totalWinnings] in state [gs]. *)
Definition afterServices (req : Request) (gs : GameState) (rtp : float)
  (totalWinnings : float) (w : World) : World :=
  logCall
    (CallGetOutcome (ClientID req) (GameID req) (PlayerID req) (BetID req)
       rtp (totalWinnings / Amount (Bet gs))%float (Amount (Bet gs)))
    (logCall (CallGetRTP (ClientID req) (GameID req) (PlayerID req)) w).

(** The services answer, and the outcome preferred for winnings
    [totalWinnings] in state [gs] is a loss. *)
Definition lossPreferred (svc : Services) (req : Request) (gs : GameState)
  (rtp : float) (totalWinnings : float) : Prop :=
  svcGetRTP svc (ClientID req) (GameID req) (PlayerID req) = Some rtp
  /\ svcGetOutcome svc (ClientID req) (GameID req) (PlayerID req)
       (BetID req) rtp (totalWinnings / Amount (Bet gs))%float
       (Amount (Bet gs)) = Some "loss".






(* ------------------------------------------------------------------ *)
(** ** Sample inputs *)

Definition sampleGrid : Grid :=
  [ [ "purple_owl"; "purple_owl"; "red_owl"; "free_game" ];
    [ "purple_owl"; "blue_owl"; "red_owl"; "red_owl" ];
    [ "purple_owl"; "purple_owl"; "red_owl"; "orange_slice" ];
    [ "green_owl"; "blue_owl"; "red_owl"; "red_owl" ] ].

Definition sampleWorld : World :=
  mkWorld (fun _ => 0%float) (fun _ => 5%nat) 0%N [].

Definition sampleState : GameState :=
  mkGameState (mkBet 0.5 5) 1 4 sampleGrid 14 "base" (mkFreeSpins 0 0 1.0)
    0 false [] 0 [].

Definition sampleRequest : Request :=
  mkRequest sampleState "client" "game" "player" "bet".

(** Services that answer, the outcome service always with "loss". *)
Definition sampleServices : Services :=
  mkServices (fun _ _ _ => Some 0.95%float)
    (fun _ _ _ _ _ _ _ => Some "loss").

Definition sampleFound : list StageClearedSymbol :=
  [ mkStageClearedSymbol SymbolOrangeSlice (mkPosition 3 2) ].

(** A base-mode state whose grid shows the trigger once and has one
    connection, the top row, whose first cell was just refilled. *)
Definition capGrid : Grid :=
  [ [ "purple_owl"; "purple_owl"; "purple_owl"; "purple_owl" ];
    [ "green_owl"; "red_owl"; "blue_owl"; "free_game" ];
    [ "red_owl"; "blue_owl"; "green_owl"; "yellow_owl" ];
    [ "blue_owl"; "green_owl"; "yellow_owl"; "red_owl" ] ].

Definition capState : GameState :=
  mkGameState (mkBet 0.5 5) 1 4 capGrid 0 "base" (mkFreeSpins 0 0 1.0)
    0 false [] 0 [].

(** A first cascade call on a grid that is one connection: gravity
    refills nothing, so the surgical loss has no position to redraw. *)
Definition fullGrid : Grid := repeat (repeat SymbolPurpleOwl 4) 4.

Definition fullRequest : Request :=
  mkRequest
    (mkGameState (mkBet 0.5 5) 1 4 fullGrid 0 "base" (mkFreeSpins 0 0 1.0)
       0 false [] 0 [])
    "client" "game" "player" "bet".

(** A stage-cleared call in base mode on a grid without trigger: two
    cells of column 0 are refilled and, under [lateWorld], redrawn. *)
Definition refillGrid : Grid :=
  [ [ "orange_slice"; "red_owl"; "blue_owl"; "green_owl" ];
    [ "orange_slice"; "purple_owl"; "purple_owl"; "purple_owl" ];
    [ "red_owl"; "yellow_owl"; "green_owl"; "blue_owl" ];
    [ "blue_owl"; "green_owl"; "red_owl"; "yellow_owl" ] ].

Definition refillRequest : Request :=
  mkRequest
    (mkGameState (mkBet 0.5 5) 1 4 refillGrid 0 "base" (mkFreeSpins 0 0 1.0)
       0 false [] 0 [])
    "client" "game" "player" "bet".

(** Maps are visited in the order of the source; the draws of the
    gravity refill are 0 (the first symbol, purple_owl), the later ones
    0.998, which the weights of level 1 turn into free_game. *)
Definition lateWorld : World :=
  mkWorld (fun t => if (t <? 24)%N then 0%float else 0.998%float)
    (fun _ => O) 0%N [].

(** A stage-cleared call whose only connection, the bottom row, is out
    of reach of the one refilled cell. *)
Definition stuckGrid : Grid :=
  [ [ "orange_slice"; "red_owl"; "blue_owl"; "green_owl" ];
    [ "green_owl"; "blue_owl"; "red_owl"; "yellow_owl" ];
    [ "red_owl"; "yellow_owl"; "green_owl"; "blue_owl" ];
    [ "purple_owl"; "purple_owl"; "purple_owl"; "purple_owl" ] ].

Definition stuckRequest : Request :=
  mkRequest
    (mkGameState (mkBet 0.5 5) 1 4 stuckGrid 0 "base" (mkFreeSpins 0 0 1.0)
       0 false [] 0 [])
    "client" "game" "player" "bet".

(** Services that answer, the outcome service always with "win". *)
Definition winServices : Services :=
  mkServices (fun _ _ _ => Some 0.95%float)
    (fun _ _ _ _ _ _ _ => Some "win").

(** A world whose draws are all zero: every map is visited in the order
    of the source and every weighted draw is the first symbol. *)
Definition zeroWorld : World :=
  mkWorld (fun _ => 0%float) (fun _ => O) 0%N [].

(** The last of the awarded free spins. *)
Definition lastFreeSpinRequest : Request :=
  mkRequest
    (mkGameState (mkBet 0.5 5) 1 4 [] 0 "freeSpins" (mkFreeSpins 1 10 2.0)
       0 false [] 0 [])
    "client" "game" "player" "bet".

(** A spin in base mode. *)
Definition baseSpinRequest : Request :=
  mkRequest
    (mkGameState (mkBet 0.5 5) 1 4 [] 0 "base" (mkFreeSpins 0 0 1.0) 0
       false [] 0 [])
    "client" "game" "player" "bet".

(** The first spin of a game: level 0 asks for default initialization. *)
Definition newGameRequest : Request :=
  mkRequest
    (mkGameState (mkBet 0.5 0) 0 0 [] 0 "" (mkFreeSpins 0 0 0) 0 false []
       0 [])
    "client" "game" "player" "bet".

(* ------------------------------------------------------------------ *)
(** ** logic.go: helpers outside the handlers' paths *)

(** [None] is the panic of [FindRegularConnections]. *)
Definition HasPotentialConnections (grid : Grid) (level : Level)
  : option bool :=
  match FindRegularConnections grid level with
  | Some connections => Some (0 <? len connections)
  | None => None
  end.

Definition WeightedRandomSymbol (level : Level) : M Symbol :=
  let weights := GetLevelSpecificWeights level in
  order1 <- rangeOrder weights ;;
  let totalWeight :=
    fold_left (fun t e => (t + snd e)%float) order1 0%float in
  u <- Float64 ;;
  let roll := (u * totalWeight)%float in
  order2 <- rangeOrder weights ;;
  ret (pickSymbol roll order2 0%float).

(** [None] is the panic of [FindStageClearedSymbols]. *)
Definition CountStageClearedSymbolsInGrid (grid : Grid) (level : Level)
  : option Z :=
  match FindStageClearedSymbols grid level with
  | Some stageClearedSymbols => Some (len stageClearedSymbols)
  | None => None
  end.

(* ------------------------------------------------------------------ *)
(** ** Further specification vocabulary *)

Fixpoint indexFrom {A : Type} (i : Z) (l : list A) : list (Z * A) :=
  match l with
  | [] => []
  | a :: l' => (i, a) :: indexFrom (i + 1) l'
  end.

(** The cells of a grid with their positions, row after row. *)
Definition cellsFrom (y0 : Z) (rows : Grid) : list (Position * string) :=
  flat_map
    (fun yr =>
       map (fun xc => (mkPosition (fst xc) (fst yr), snd xc))
         (indexFrom 0 (snd yr)))
    (indexFrom y0 rows).

Definition cellsOf (grid : Grid) : list (Position * string) :=
  cellsFrom 0 grid.

(** [p] comes before [q] in row-major order. *)
Definition rowMajor (p q : Position) : Prop :=
  Y p < Y q \/ (Y p = Y q /\ X p < X q).

(** The component of [p] among the cells holding [g] has at least [k]
    cells. *)
Definition componentAtLeast (grid : Grid) (g : Symbol) (p : Position)
  (k : Z) : Prop :=
  exists l,
    NoDup l /\ (forall q, In q l -> component grid g p q) /\ k <= len l.

(** The invariant of the scan of [FindRegularConnections] once the
    first [k] cells, in row-major order, have been visited: a marked
    cell holds a bird symbol and is listed in a connection unless its
    component is too small; listed cells are marked, and listed once;
    the bird cells visited so far are marked. *)
Definition coverInv (grid : Grid) (level : Level) (k : Z)
  (st : list (list bool) * list Connection) : Prop :=
  finderInv grid level st
  /\ (forall p,
         marked (fst st) p ->
         inside (len grid) p
         /\ exists g,
              holds grid p g /\ IsRegularBirdSymbol g = true
              /\ ((exists c,
                      In c (snd st) /\ cSymbol c = g
                      /\ In p (cPositions c))
                  \/ ~ componentAtLeast grid g p (GetMinConnection level)))
  /\ (forall c p, In c (snd st) -> In p (cPositions c) -> marked (fst st) p)
  /\ NoDup (flat_map cPositions (snd st))
  /\ (forall p g,
         inside (len grid) p -> Y p * len grid + X p < k ->
         holds grid p g -> IsRegularBirdSymbol g = true ->
         marked (fst st) p).

(** The symbols a level can show: the keys of its weight table. *)
Definition levelSymbol (level : Level) (c : Symbol) : Prop :=
  In c (map fst (GetLevelSpecificWeights level)).

(** A grid as generation leaves it: square of the level's size, every
    cell a symbol of the level, the trigger at most once, and not at
    all when it is forbidden. *)
Definition generated (level : Level) (forbidFreeGame : bool) (grid : Grid)
  : Prop :=
  square (GetGridSize level) grid
  /\ (forall p c, holds grid p c -> levelSymbol level c)
  /\ (freeGameCells grid <= 1)%nat
  /\ (forbidFreeGame = true -> freeGameCells grid = O).

(** [before y' x' y x]: cell [(x', y')] is written before cell [(x, y)]
    by a loop over the rows and, within a row, over the columns. *)
Definition before (y' x' y x : Z) : Prop := y' < y \/ (y' = y /\ x' < x).

(** The cell holds a bird that differs from the cell to its left and
    from the cell above it. *)
Definition apart (grid : Grid) (y x : Z) : Prop :=
  exists c,
    mget grid y x = Some c /\ IsRegularBirdSymbol c = true
    /\ (0 < x -> mget grid y (x - 1) <> Some c)
    /\ (0 < y -> mget grid (y - 1) x <> Some c).

(** The first loop of [ForceLossGrid] before cell [(x, y)], with
    [filled] rows allocated. *)
Definition lossInv (n filled : nat) (y x : Z) (grid : Grid) : Prop :=
  map len grid = repeat (Z.of_nat n) filled ++ repeat 0 (n - filled)
  /\ forall y' x',
       before y' x' y x -> 0 <= y' -> 0 <= x' < Z.of_nat n ->
       apart grid y' x'.

(** The candidates of [ForceLossGrid] for one cell: at least [k]
    distinct birds. *)
Definition goodChoice (availableSymbols : list Symbol) (k : nat) : Prop :=
  NoDup availableSymbols /\ incl availableSymbols birdSymbols
  /\ (k <= length availableSymbols)%nat.

(** No two neighbouring cells hold the same bird. *)
Definition noPairs (grid : Grid) : Prop :=
  forall p q c,
    adjacent p q -> holds grid p c -> holds grid q c ->
    IsRegularBirdSymbol c = true -> False.

(* ------------------------------------------------------------------ *)
(** ** Slices *)

Lemma len_nonneg {A : Type} (l : list A) : 0 <= len l.
Proof. unfold len. lia. Qed.

Lemma idx_Some_range {A : Type} (l : list A) i a :
  idx l i = Some a -> 0 <= i < len l.
Proof.
  unfold idx, len. destruct (Z.ltb_spec i 0); [discriminate|].
  intros H0. assert (Hn : nth_error l (Z.to_nat i) <> None) by congruence.
  apply nth_error_Some in Hn. lia.
Qed.

Lemma idx_defined {A : Type} (l : list A) i :
  0 <= i < len l -> exists a, idx l i = Some a.
Proof.
  unfold idx, len. intros H. destruct (Z.ltb_spec i 0); [lia|].
  destruct (nth_error l (Z.to_nat i)) eqn:E; [eauto|].
  apply nth_error_None in E. lia.
Qed.

Lemma upd_Some_range {A : Type} (l l' : list A) i v :
  upd l i v = Some l' -> 0 <= i < len l.
Proof.
  unfold upd. destruct (Z.leb_spec 0 i), (Z.ltb_spec i (len l));
    simpl; intros; try discriminate; lia.
Qed.

Lemma upd_defined {A : Type} (l : list A) i v :
  0 <= i < len l -> exists l', upd l i v = Some l'.
Proof.
  unfold upd. intros H.
  destruct (Z.leb_spec 0 i), (Z.ltb_spec i (len l)); simpl; try lia; eauto.
Qed.

Lemma upd_eq {A : Type} (l l' : list A) i v :
  upd l i v = Some l' ->
  l' = firstn (Z.to_nat i) l ++ v :: skipn (S (Z.to_nat i)) l
  /\ (Z.to_nat i < length l)%nat /\ 0 <= i.
Proof.
  intros H. pose proof (upd_Some_range _ _ _ _ H) as R. unfold upd in H.
  destruct ((0 <=? i) && (i <? len l)); [|discriminate].
  inversion H. unfold len in R. repeat split; lia.
Qed.

Lemma upd_length {A : Type} (l l' : list A) i v :
  upd l i v = Some l' -> length l' = length l.
Proof.
  intros H. apply upd_eq in H as (-> & Hi & _).
  rewrite length_app, length_firstn, length_cons, length_skipn. lia.
Qed.

Lemma upd_len {A : Type} (l l' : list A) i v :
  upd l i v = Some l' -> len l' = len l.
Proof. intros H. unfold len. now rewrite (upd_length _ _ _ _ H). Qed.

Lemma idx_upd_same {A : Type} (l l' : list A) i v :
  upd l i v = Some l' -> idx l' i = Some v.
Proof.
  intros H. apply upd_eq in H as (-> & Hi & H0). unfold idx.
  destruct (Z.ltb_spec i 0); [lia|].
  rewrite nth_error_app2; rewrite length_firstn; [|lia].
  replace (Z.to_nat i - Nat.min (Z.to_nat i) (length l))%nat with O by lia.
  reflexivity.
Qed.

Lemma idx_upd_other {A : Type} (l l' : list A) i j v :
  upd l i v = Some l' -> j <> i -> idx l' j = idx l j.
Proof.
  intros H Hj. apply upd_eq in H as (-> & Hi & H0). unfold idx.
  destruct (Z.ltb_spec j 0); [reflexivity|].
  assert (Hn : Z.to_nat j <> Z.to_nat i) by lia.
  destruct (Nat.lt_ge_cases (Z.to_nat j) (Z.to_nat i)).
  - rewrite nth_error_app1 by (rewrite length_firstn; lia).
    now rewrite nth_error_firstn, (proj2 (Nat.ltb_lt _ _)) by lia.
  - rewrite nth_error_app2 by (rewrite length_firstn; lia).
    rewrite length_firstn.
    replace (Z.to_nat j - Nat.min (Z.to_nat i) (length l))%nat
      with (S (Z.to_nat j - S (Z.to_nat i))) by lia.
    cbn [nth_error]. rewrite nth_error_skipn. f_equal. lia.
Qed.

Lemma mget_Some_range {A : Type} (m : list (list A)) y x a :
  mget m y x = Some a -> 0 <= y < len m /\ 0 <= x.
Proof.
  unfold mget. destruct (idx m y) eqn:E; [|discriminate]. intros H.
  apply idx_Some_range in E. apply idx_Some_range in H. lia.
Qed.

Lemma mset_len {A : Type} (m m' : list (list A)) y x v :
  mset m y x v = Some m' -> len m' = len m.
Proof.
  unfold mset. destruct (idx m y); [|discriminate].
  destruct (upd l x v); [|discriminate]. apply upd_len.
Qed.

Lemma mget_mset_same {A : Type} (m m' : list (list A)) y x v :
  mset m y x v = Some m' -> mget m' y x = Some v.
Proof.
  unfold mset, mget. destruct (idx m y) as [row|]; [|discriminate].
  destruct (upd row x v) as [row'|] eqn:E; [|discriminate]. intros H.
  rewrite (idx_upd_same _ _ _ _ H). eapply idx_upd_same; eauto.
Qed.

Lemma mget_mset_other {A : Type} (m m' : list (list A)) y x v y' x' :
  mset m y x v = Some m' -> (y' <> y \/ x' <> x) ->
  mget m' y' x' = mget m y' x'.
Proof.
  unfold mset, mget. destruct (idx m y) as [row|] eqn:Er; [|discriminate].
  destruct (upd row x v) as [row'|] eqn:E; [|discriminate]. intros H Hne.
  destruct (Z.eq_dec y' y) as [->|Hy].
  - rewrite (idx_upd_same _ _ _ _ H), Er.
    eapply idx_upd_other; eauto. destruct Hne; congruence.
  - now rewrite (idx_upd_other _ _ _ _ _ H Hy).
Qed.

Lemma mset_defined {A : Type} (m : list (list A)) y x v a :
  mget m y x = Some a -> exists m', mset m y x v = Some m'.
Proof.
  unfold mget, mset. destruct (idx m y) as [row|] eqn:Er; [|discriminate].
  intros H. apply idx_Some_range in H.
  destruct (upd_defined row x v H) as [row' ->].
  apply upd_defined. eapply idx_Some_range; eauto.
Qed.

Lemma idx_In {A : Type} (l : list A) i a : idx l i = Some a -> In a l.
Proof.
  unfold idx. destruct (i <? 0); [discriminate|]. apply nth_error_In.
Qed.

Lemma Forall_split {A : Type} (P : A -> Prop) (k : nat) (l : list A) :
  Forall P l -> Forall P (firstn k l) /\ Forall P (skipn k l).
Proof.
  intros H. rewrite <- (firstn_skipn k l) in H. now apply Forall_app in H.
Qed.

Lemma upd_Forall {A : Type} (P : A -> Prop) (l l' : list A) i v :
  upd l i v = Some l' -> Forall P l -> P v -> Forall P l'.
Proof.
  intros H Hl Hv. apply upd_eq in H as (-> & _ & _).
  apply Forall_app. split; [now apply Forall_split|].
  constructor; [assumption|now apply Forall_split].
Qed.

Lemma square_mget {A : Type} n (m : list (list A)) y x :
  square n m -> 0 <= y < n -> 0 <= x < n -> exists a, mget m y x = Some a.
Proof.
  intros [Hl Hr] Hy Hx. unfold mget.
  destruct (idx_defined m y) as [row Hrow]; [lia|]. rewrite Hrow.
  apply idx_defined. apply idx_In in Hrow.
  rewrite Forall_forall in Hr. rewrite (Hr _ Hrow). lia.
Qed.

Lemma mset_square {A : Type} n (m m' : list (list A)) y x v :
  mset m y x v = Some m' -> square n m -> square n m'.
Proof.
  intros H [Hl Hr]. split; [now rewrite (mset_len _ _ _ _ _ H)|].
  unfold mset in H. destruct (idx m y) as [row|] eqn:Er; [|discriminate].
  destruct (upd row x v) as [row'|] eqn:E; [|discriminate].
  eapply upd_Forall; eauto. rewrite (upd_len _ _ _ _ E).
  rewrite Forall_forall in Hr. apply Hr. eapply idx_In; eauto.
Qed.

(* ------------------------------------------------------------------ *)
(** ** Flood fill *)

Lemma outside_inside n p : outside n p = false <-> inside n p.
Proof.
  unfold outside, inside.
  destruct (Z.ltb_spec (X p) 0), (Z.geb_spec (X p) n),
    (Z.ltb_spec (Y p) 0), (Z.geb_spec (Y p) n); simpl; split; intros;
    try discriminate; try reflexivity; lia.
Qed.

Lemma position_eq p q : X p = X q -> Y p = Y q -> p = q.
Proof. destruct p, q; simpl; congruence. Qed.

Lemma marked_mset visited visited' q p :
  mset visited (Y q) (X q) true = Some visited' ->
  marked visited' p <-> marked visited p \/ p = q.
Proof.
  intros H. unfold marked.
  destruct (Z.eq_dec (Y p) (Y q)) as [Ey|Ny];
    [destruct (Z.eq_dec (X p) (X q)) as [Ex|Nx]|].
  - rewrite Ey, Ex, (mget_mset_same _ _ _ _ _ H). split; [|reflexivity].
    intros _. right. now apply position_eq.
  - rewrite (mget_mset_other _ _ _ _ _ (Y p) (X p) H) by tauto.
    split; [tauto|]. intros [? | ->]; [assumption|congruence].
  - rewrite (mget_mset_other _ _ _ _ _ (Y p) (X p) H) by tauto.
    split; [tauto|]. intros [? | ->]; [assumption|congruence].
Qed.

Lemma adjacent_cases p q :
  adjacent p q ->
  q = mkPosition (X p) (Y p - 1) \/ q = mkPosition (X p) (Y p + 1)
  \/ q = mkPosition (X p - 1) (Y p) \/ q = mkPosition (X p + 1) (Y p).
Proof.
  unfold adjacent. intros [[Hx [Hy|Hy]]|[Hy [Hx|Hx]]].
  - right; left. apply position_eq; assumption.
  - left. apply position_eq; assumption.
  - right; right; right. apply position_eq; assumption.
  - right; right; left. apply position_eq; assumption.
Qed.

Lemma adjacent_sym p q : adjacent p q -> adjacent q p.
Proof. unfold adjacent. lia. Qed.

Section Flood.
Variables (grid : Grid) (s : Symbol) (start : Position).
Variable V0 : list (list bool).
Hypothesis Hreg : IsRegularBirdSymbol s = true.
Hypothesis Hin : inside (len grid) start.
Hypothesis Hholds : holds grid start s.
Hypothesis Hfresh : ~ marked V0 start.

Lemma floodInv_init : floodInv grid s start V0 [start] V0 [].
Proof.
  constructor.
  - intros p. simpl. tauto.
  - intros p [].
  - constructor.
  - intros q [<-|[]] _ _. now constructor.
  - intros p q [].
  - left. now left.
Qed.

(** Popping a position that is not collected. *)
Lemma floodInv_pop q stack visited positions :
  floodInv grid s start V0 (q :: stack) visited positions ->
  (inside (len grid) q -> holds grid q s -> marked visited q) ->
  floodInv grid s start V0 stack visited positions.
Proof.
  intros [Hm Hmem Hnd Hst Hpen Hs] Hq. constructor; try assumption.
  - intros q' Hq'. apply Hst. now right.
  - intros p q' Hp Ha Hi Hh.
    destruct (Hpen p q' Hp Ha Hi Hh) as [[<-|?]|?]; auto.
  - destruct Hs as [[<-|?]|?]; auto. right.
    apply Hm in Hq; tauto.
Qed.

(** Popping a fresh cell that holds the symbol: it is marked,
    collected, and its four neighbours are pushed. *)
Lemma floodInv_mark q stack visited visited' positions :
  floodInv grid s start V0 (q :: stack) visited positions ->
  inside (len grid) q -> holds grid q s -> ~ marked visited q ->
  mset visited (Y q) (X q) true = Some visited' ->
  floodInv grid s start V0
    (mkPosition (X q) (Y q - 1) :: mkPosition (X q) (Y q + 1)
     :: mkPosition (X q - 1) (Y q) :: mkPosition (X q + 1) (Y q) :: stack)
    visited' (positions ++ [q]).
Proof.
  intros [Hm Hmem Hnd Hst Hpen Hs] Hi Hh Hn Hset.
  assert (Hc : component grid s start q) by (apply Hst; simpl; auto).
  assert (Hq0 : ~ marked V0 q /\ ~ In q positions).
  { split; intros F; apply Hn, Hm; tauto. }
  constructor.
  - intros p. rewrite (marked_mset _ _ _ p Hset), Hm, in_app_iff. simpl.
    intuition congruence.
  - intros p Hp. apply in_app_iff in Hp as [Hp|[<-|[]]]; [auto|tauto].
  - apply NoDup_app; [assumption|repeat constructor; simpl; tauto|].
    intros p Hp [<-|[]]. tauto.
  - intros q' Hq' Hi' Hh'.
    assert (Hadj : adjacent q q' -> component grid s start q').
    { intros Ha. eapply component_step; eauto. }
    simpl in Hq'. destruct Hq' as [<-|[<-|[<-|[<-|Hq']]]];
      try (apply Hadj; unfold adjacent; simpl; lia).
    apply Hst; simpl; auto.
  - intros p q' Hp Ha Hi' Hh'. apply in_app_iff in Hp as [Hp|[<-|[]]].
    + destruct (Hpen p q' Hp Ha Hi' Hh') as [[<-|?]|?].
      * right. apply (marked_mset _ _ _ _ Hset). now right.
      * left. simpl. tauto.
      * right. apply (marked_mset _ _ _ _ Hset). now left.
    + left. destruct (adjacent_cases _ _ Ha) as [-> | [-> | [-> | ->]]];
        simpl; tauto.
  - destruct Hs as [[<-|?]|?].
    + right. apply in_app_iff. simpl. tauto.
    + left. simpl. tauto.
    + right. apply in_app_iff. tauto.
Qed.

Lemma floodLoop_inv fuel :
  forall stack visited positions P V,
    floodInv grid s start V0 stack visited positions ->
    floodLoop fuel grid (len grid) s stack visited positions
    = Some (P, V) ->
    floodInv grid s start V0 [] V P.
Proof.
  induction fuel as [|fuel IH]; intros stack visited positions P V Hinv;
    simpl; [discriminate|].
  destruct stack as [|q stack].
  { intros H. inversion H. subst. assumption. }
  destruct (outside (len grid) q) eqn:Eo.
  { apply IH. apply (floodInv_pop _ _ _ _ Hinv). intros Hi.
    apply outside_inside in Hi. congruence. }
  apply outside_inside in Eo.
  destruct (mget visited (Y q) (X q)) as [[|]|] eqn:Ev; [| |discriminate].
  { apply IH. apply (floodInv_pop _ _ _ _ Hinv). intros _ _. exact Ev. }
  destruct (mget grid (Y q) (X q)) as [g|] eqn:Eg; [|discriminate].
  destruct (negb (g =? s)%string || negb (IsRegularBirdSymbol g)) eqn:Ec.
  { apply IH. apply (floodInv_pop _ _ _ _ Hinv). intros _ Hh.
    unfold holds in Hh. rewrite Eg in Hh. inversion Hh. subst g.
    rewrite String.eqb_refl, Hreg in Ec. discriminate. }
  apply orb_false_iff in Ec as [Ec _]. apply negb_false_iff in Ec.
  apply String.eqb_eq in Ec. subst g.
  destruct (mset visited (Y q) (X q) true) as [visited'|] eqn:Es;
    [|discriminate].
  apply IH. apply (floodInv_mark _ _ _ _ _ Hinv Eo Eg); [|exact Es].
  unfold marked. congruence.
Qed.

(** The positions collected by a completed flood fill are exactly the
    component of the start cell, without repetition, and the marks
    grow by exactly these positions. *)
Lemma findConnectedPositions_component P V :
  closedMarks grid V0 ->
  findConnectedPositions grid (X start) (Y start) s V0 = Some (P, V) ->
  NoDup P
  /\ (forall p, In p P <-> component grid s start p)
  /\ (forall p, marked V p <-> marked V0 p \/ In p P).
Proof.
  intros Hcl H. unfold findConnectedPositions in H.
  replace (mkPosition (X start) (Y start)) with start in H
    by (now destruct start).
  apply (floodLoop_inv _ _ _ _ _ _ floodInv_init) in H.
  destruct H as [Hm Hmem Hnd _ Hpen Hs].
  split; [assumption|]. split; [|assumption].
  intros p. split; [apply Hmem|].
  induction 1 as [|p q Hp IHp Ha Hi Hh].
  - destruct Hs as [[]|]; assumption.
  - destruct (Hpen p q IHp Ha Hi Hh) as [[]|Hq].
    apply Hm in Hq as [Hq|]; [|assumption]. exfalso.
    destruct (Hmem p IHp) as (Hip & Hhp & Hnp & _). apply Hnp.
    apply (Hcl q p Hq Hi (adjacent_sym _ _ Ha) Hip).
    unfold holds in *. congruence.
Qed.
End Flood.

(* ------------------------------------------------------------------ *)
(** ** Loops *)

Lemma forUp_inv {S : Type} (I : S -> Prop) n :
  forall lo (body : Z -> S -> option S) s s',
    (forall i t t',
        lo <= i < lo + Z.of_nat n -> I t -> body i t = Some t' -> I t') ->
    I s -> forUp n lo body s = Some s' -> I s'.
Proof.
  induction n as [|n IH]; intros lo body s s' Hbody Hs; simpl.
  - intros H. inversion H. now subst.
  - destruct (body lo s) as [t|] eqn:E; [|discriminate].
    apply IH.
    + intros i u u' Hi. apply Hbody. lia.
    + apply (Hbody lo s t); [lia|assumption|assumption].
Qed.

Lemma forUp_total {S : Type} (I : S -> Prop) n :
  forall lo (body : Z -> S -> option S) s,
    (forall i t,
        lo <= i < lo + Z.of_nat n -> I t ->
        exists t', body i t = Some t' /\ I t') ->
    I s -> exists s', forUp n lo body s = Some s' /\ I s'.
Proof.
  induction n as [|n IH]; intros lo body s Hbody Hs; simpl.
  - eauto.
  - destruct (Hbody lo s) as (t & -> & Ht); [lia|assumption|].
    apply IH; [|assumption]. intros i u Hi. apply Hbody. lia.
Qed.

(* ------------------------------------------------------------------ *)
(** ** Connection finder *)

Lemma regular_not_special g :
  IsRegularBirdSymbol g = true ->
  IsStageClearedSymbol g = false /\ g <> SymbolFreeGame /\ g <> "".
Proof.
  unfold IsRegularBirdSymbol. intros H.
  repeat (apply orb_true_iff in H as [H|H]);
    apply String.eqb_eq in H; subst g; repeat split; discriminate.
Qed.

Lemma component_holds grid s start p :
  component grid s start p -> inside (len grid) p /\ holds grid p s.
Proof. destruct 1; auto. Qed.

Lemma findCell_inv grid level y x st st' :
  0 <= y < len grid -> 0 <= x < len grid ->
  finderInv grid level st -> findCell grid level y x st = Some st' ->
  finderInv grid level st'.
Proof.
  intros Hy Hx [Hcl Hall]. destruct st as [visited connections].
  simpl in Hcl, Hall. unfold findCell.
  destruct (mget visited y x) as [[|]|] eqn:Ev; [| |discriminate].
  { intros H. inversion H. now split. }
  destruct (mget grid y x) as [g|] eqn:Eg; [|discriminate].
  destruct (IsRegularBirdSymbol g) eqn:Er;
    [|intros H; inversion H; now split].
  destruct (findConnectedPositions grid x y g visited) as [[P V]|] eqn:Ef;
    [|discriminate].
  assert (Hi : inside (len grid) (mkPosition x y)) by (split; simpl; lia).
  assert (Hf : ~ marked visited (mkPosition x y))
    by (unfold marked; simpl; congruence).
  destruct
    (findConnectedPositions_component grid g (mkPosition x y) visited Er Hi
       Eg Hf P V Hcl Ef) as (Hnd & Hcomp & Hmarks).
  assert (Hcl' : closedMarks grid V).
  { intros p q Hp Hip Ha Hiq Hsame. apply Hmarks.
    apply Hmarks in Hp as [Hp|Hp].
    - left. now apply (Hcl p q).
    - right. apply Hcomp. apply Hcomp in Hp.
      eapply component_step; eauto.
      apply component_holds in Hp as [_ Hp]. unfold holds in *.
      congruence. }
  destruct (len P >=? GetMinConnection level) eqn:Em;
    intros H; inversion H; subst; split; simpl; try assumption.
  apply Forall_app. split; [assumption|]. constructor; [|constructor].
  unfold isComponent. simpl. repeat split; try assumption.
  - apply Z.geb_le in Em. lia.
  - exists (mkPosition x y). exact Hcomp.
Qed.

Lemma marked_repeat n m p : ~ marked (repeat (repeat false n) m) p.
Proof.
  unfold marked, mget. intros H.
  destruct (idx (repeat (repeat false n) m) (Y p)) as [row|] eqn:Er;
    [|discriminate].
  apply idx_In, repeat_spec in Er. subst row.
  apply idx_In, repeat_spec in H. discriminate.
Qed.

Lemma FindRegularConnections_inv grid level conns :
  FindRegularConnections grid level = Some conns ->
  Forall (isComponent grid level) conns.
Proof.
  unfold FindRegularConnections.
  destruct (forUp _ _ _ _) as [[V cs]|] eqn:E; [|discriminate].
  intros H. inversion H. subst cs.
  apply (forUp_inv (finderInv grid level)) in E; [apply E| |].
  - intros y st st' Hy Hst. apply forUp_inv; [|assumption].
    intros x t t' Hx. apply findCell_inv; unfold len; lia.
  - split; simpl; [|constructor]. intros p q Hp. now apply marked_repeat in Hp.
Qed.

(** *** The finder returns on square grids *)

Lemma inside_allCells n p : inside (Z.of_nat n) p -> In p (allCells n).
Proof.
  intros [Hx Hy]. unfold allCells. apply in_map_iff.
  exists (Z.to_nat (X p), Z.to_nat (Y p)). simpl. split.
  - destruct p; simpl in *. f_equal; lia.
  - apply in_prod; apply in_seq; lia.
Qed.

Lemma length_allCells n : length (allCells n) = (n * n)%nat.
Proof.
  unfold allCells. now rewrite length_map, length_prod, length_seq.
Qed.

(** Distinct cells of a grid of side [n] are at most [n * n]. *)
Lemma distinct_cells_bound n (l : list Position) :
  NoDup l -> (forall p, In p l -> inside (Z.of_nat n) p) ->
  (length l <= n * n)%nat.
Proof.
  intros Hnd Hin. rewrite <- length_allCells.
  apply NoDup_incl_length; [assumption|].
  intros p Hp. now apply inside_allCells, Hin.
Qed.

Section FloodTotal.
Variables (grid : Grid) (s : Symbol) (start : Position).
Variable V0 : list (list bool).
Hypothesis Hreg : IsRegularBirdSymbol s = true.
Hypothesis Hin : inside (len grid) start.
Hypothesis Hholds : holds grid start s.
Hypothesis Hfresh : ~ marked V0 start.
Hypothesis Hsq : square (len grid) grid.

Lemma floodLoop_total fuel :
  forall stack visited positions,
    floodInv grid s start V0 stack visited positions ->
    square (len grid) visited ->
    (length stack + 4 * (length grid * length grid - length positions)
     < fuel)%nat ->
    exists P V,
      floodLoop fuel grid (len grid) s stack visited positions
      = Some (P, V)
      /\ square (len grid) V.
Proof.
  induction fuel as [|fuel IH]; intros stack visited positions Hinv Hv Hf;
    [lia|]. simpl.
  destruct stack as [|q stack]; [eauto|]. simpl in Hf.
  assert (Hpop :
    (inside (len grid) q -> holds grid q s -> marked visited q) ->
    exists P V,
      floodLoop fuel grid (len grid) s stack visited positions
      = Some (P, V)
      /\ square (len grid) V).
  { intros Hq. apply IH; [|assumption|lia].
    exact (floodInv_pop grid s start V0 Hin Hholds Hfresh q stack visited
             positions Hinv Hq). }
  destruct (outside (len grid) q) eqn:Eo.
  { apply Hpop. intros Hi. apply outside_inside in Hi. congruence. }
  apply outside_inside in Eo.
  destruct (square_mget _ visited (Y q) (X q) Hv) as [b Eb];
    [apply Eo|apply Eo|]. rewrite Eb.
  destruct b; [apply Hpop; intros _ _; exact Eb|].
  destruct (square_mget _ grid (Y q) (X q) Hsq) as [g Eg];
    [apply Eo|apply Eo|]. rewrite Eg.
  destruct (negb (g =? s)%string || negb (IsRegularBirdSymbol g)) eqn:Ec.
  { apply Hpop. intros _ Hh. unfold holds in Hh. rewrite Eg in Hh.
    inversion Hh. subst g. rewrite String.eqb_refl, Hreg in Ec.
    discriminate. }
  apply orb_false_iff in Ec as [Ec _]. apply negb_false_iff in Ec.
  apply String.eqb_eq in Ec. subst g.
  destruct (mset_defined visited (Y q) (X q) true _ Eb) as [visited' Es].
  rewrite Es.
  assert (Hinv' := floodInv_mark grid s start V0 Hin Hholds Hfresh q stack
                     visited visited' positions Hinv Eo Eg).
  assert (Hn : ~ marked visited q) by (unfold marked; congruence).
  specialize (Hinv' Hn Es).
  assert (Hb : (length (positions ++ [q]) <= length grid * length grid)%nat).
  { apply distinct_cells_bound; [apply Hinv'|].
    intros p Hp. apply (fi_members _ _ _ _ _ _ _ Hinv') in Hp. apply Hp. }
  rewrite length_app in Hb. simpl in Hb.
  apply IH; [assumption|eapply mset_square; eauto|].
  rewrite length_app. simpl. lia.
Qed.
End FloodTotal.

Lemma square_repeat {A : Type} (a : A) n :
  square (Z.of_nat n) (repeat (repeat a n) n).
Proof.
  split; [unfold len; now rewrite repeat_length|].
  apply Forall_forall. intros row Hrow. apply repeat_spec in Hrow.
  subst row. unfold len. now rewrite repeat_length.
Qed.

Lemma findCell_total grid level y x st :
  square (len grid) grid ->
  0 <= y < len grid -> 0 <= x < len grid ->
  finderInv grid level st -> square (len grid) (fst st) ->
  exists st',
    findCell grid level y x st = Some st'
    /\ finderInv grid level st' /\ square (len grid) (fst st').
Proof.
  intros Hsq Hy Hx Hinv Hv.
  assert (Hdone :
    forall st', findCell grid level y x st = Some st' ->
                square (len grid) (fst st') ->
                exists st', findCell grid level y x st = Some st'
                  /\ finderInv grid level st' /\ square (len grid) (fst st')).
  { intros st' E Hs. exists st'. split; [assumption|].
    split; [|assumption]. exact (findCell_inv _ _ _ _ _ _ Hy Hx Hinv E). }
  destruct st as [visited connections]. simpl in Hv.
  unfold findCell in *.
  destruct (square_mget _ visited y x Hv Hy Hx) as [b Eb].
  rewrite Eb in *.
  destruct b; [eapply Hdone; [reflexivity|assumption]|].
  destruct (square_mget _ grid y x Hsq Hy Hx) as [g Eg].
  rewrite Eg in *. destruct (IsRegularBirdSymbol g) eqn:Er;
    [|eapply Hdone; [reflexivity|assumption]].
  assert (Hi : inside (len grid) (mkPosition x y)) by (split; simpl; lia).
  assert (Hf : ~ marked visited (mkPosition x y))
    by (unfold marked; simpl; congruence).
  destruct (floodLoop_total grid g (mkPosition x y) visited Er Hi Eg Hf Hsq
              (floodFuel (length grid)) [mkPosition x y] visited [])
    as (P & V & EP & HV).
  - now apply floodInv_init.
  - assumption.
  - unfold floodFuel. simpl. lia.
  - unfold findConnectedPositions in *. rewrite EP in *.
    destruct (len P >=? GetMinConnection level);
      (eapply Hdone; [reflexivity|assumption]).
Qed.

(** On a grid whose rows are as long as the grid is high the finder
    returns: it neither panics nor runs out of iterations. *)
Lemma FindRegularConnections_total grid level :
  square (len grid) grid ->
  exists conns, FindRegularConnections grid level = Some conns.
Proof.
  intros Hsq. unfold FindRegularConnections.
  pose (T := fun st : list (list bool) * list Connection =>
               finderInv grid level st /\ square (len grid) (fst st)).
  destruct (forUp_total T (length grid) 0
              (fun y => forUp (length grid) 0
                          (fun x => findCell grid level y x))
              (repeat (repeat false (length grid)) (length grid), []))
    as ([V cs] & -> & _); [| |eauto].
  - intros y st Hy [Hst Hv]. apply (forUp_total T); [|now split].
    intros x t Hx [Ht Htv]. apply findCell_total; auto; unfold len; lia.
  - split; [split; simpl; [|constructor]|apply square_repeat].
    intros p q Hp. now apply marked_repeat in Hp.
Qed.

(** C2.  Every connection that [FindRegularConnections] returns for a
    grid and a level is one whole 4-connected component (up, down, left
    and right only) of cells holding the same regular bird symbol,
    listed without repetition, whose size is its count and is at least
    the minimum connection of the level; no cell holding a stage-cleared
    or free-game symbol is among its positions. *)
Theorem FindRegularConnections_components grid level conns :
  FindRegularConnections grid level = Some conns ->
  forall c, In c conns ->
    isComponent grid level c
    /\ forall p g,
         holds grid p g ->
         IsStageClearedSymbol g = true \/ g = SymbolFreeGame ->
         ~ In p (cPositions c).
Proof.
  intros H c Hc. apply FindRegularConnections_inv in H.
  rewrite Forall_forall in H. specialize (H c Hc). split; [assumption|].
  destruct H as (Hreg & _ & _ & _ & start & Hcomp).
  intros p g Hg Hspecial Hp. apply Hcomp, component_holds in Hp as [_ Hp].
  unfold holds in *. rewrite Hg in Hp. inversion Hp. subst g.
  apply regular_not_special in Hreg as (Hs & Hf & _).
  destruct Hspecial; congruence.
Qed.

Lemma FindRegularConnections_components_witness :
  exists conns,
    FindRegularConnections sampleGrid 1 = Some conns
    /\ length conns = 2%nat
    /\ forall c, In c conns ->
         isComponent sampleGrid 1 c
         /\ forall p g,
              holds sampleGrid p g ->
              IsStageClearedSymbol g = true \/ g = SymbolFreeGame ->
              ~ In p (cPositions c).
Proof.
  eexists. split; [vm_compute; reflexivity|]. split; [reflexivity|].
  apply (FindRegularConnections_components sampleGrid 1).
  vm_compute. reflexivity.
Defined.

(* ------------------------------------------------------------------ *)
(** ** The world monad *)

Lemma bind_Some {A B : Type} (m : M A) (k : A -> M B) w r :
  bind m k w = Some r ->
  exists a w1, m w = Some (a, w1) /\ k a w1 = Some r.
Proof.
  unfold bind. destruct (m w) as [[a w1]|]; [eauto|discriminate].
Qed.

Lemma bind_eq {A B : Type} (m : M A) (k : A -> M B) w a w1 :
  m w = Some (a, w1) -> bind m k w = k a w1.
Proof. unfold bind. now intros ->. Qed.

Lemma bind_ret {A B : Type} (a : A) (k : A -> M B) w :
  bind (ret a) k w = k a w.
Proof. reflexivity. Qed.

Lemma bind_lift {A B : Type} (a : A) (k : A -> M B) w :
  bind (lift (Some a)) k w = k a w.
Proof. reflexivity. Qed.

Lemma bind_assoc {A B C : Type} (m : M A) (k1 : A -> M B) (k2 : B -> M C) w :
  bind (bind m k1) k2 w = bind m (fun a => bind (k1 a) k2) w.
Proof. unfold bind. now destruct (m w) as [[a w']|]. Qed.

Lemma lift_Some {A : Type} (o : option A) w a w1 :
  lift o w = Some (a, w1) -> o = Some a /\ w1 = w.
Proof. unfold lift. destruct o; [|discriminate]. intros H. now inversion H. Qed.

(** Stepping through a computation that is known to return. *)
Ltac mstep H :=
  let a := fresh "a" in
  let w := fresh "w" in
  let E := fresh "E" in
  apply bind_Some in H as (a & w & E & H).

Ltac mlift E :=
  let Hw := fresh "Hw" in
  apply lift_Some in E as [E Hw]; subst.

Lemma forUpM_total {St : Type} (I : Z -> St -> World -> Prop) n :
  forall lo (body : Z -> St -> M St) s w,
    (forall i t u,
        lo <= i < lo + Z.of_nat n -> I i t u ->
        exists t' u', body i t u = Some (t', u') /\ I (i + 1) t' u') ->
    I lo s w ->
    exists s' w',
      forUpM n lo body s w = Some (s', w') /\ I (lo + Z.of_nat n) s' w'.
Proof.
  induction n as [|n IH]; intros lo body s w Hbody Hs.
  - simpl. unfold ret. rewrite Z.add_0_r. eauto.
  - cbn [forUpM].
    destruct (Hbody lo s w) as (t & u & E & Ht); [lia|assumption|].
    rewrite (bind_eq _ _ _ _ _ E).
    replace (lo + Z.of_nat (S n)) with (lo + 1 + Z.of_nat n) by lia.
    apply IH; [|assumption]. intros i t' u' Hi. apply Hbody. lia.
Qed.

Lemma forEachM_total {A St : Type} (I : list A -> St -> World -> Prop)
  (l : list A) (body : A -> St -> M St) :
  (forall pre a post t u,
      l = pre ++ a :: post -> I pre t u ->
      exists t' u', body a t u = Some (t', u') /\ I (pre ++ [a]) t' u') ->
  forall s w,
    I [] s w ->
    exists s' w', forEachM l body s w = Some (s', w') /\ I l s' w'.
Proof.
  intros Hbody.
  assert (H : forall rest done s w,
             l = done ++ rest -> I done s w ->
             exists s' w',
               forEachM rest body s w = Some (s', w') /\ I l s' w').
  { induction rest as [|a rest IH]; intros done s w Hl Hs; simpl.
    - rewrite app_nil_r in Hl. subst done. unfold ret. eauto.
    - destruct (Hbody done a rest s w Hl Hs) as (t & u & E & Ht).
      rewrite (bind_eq _ _ _ _ _ E). apply (IH (done ++ [a])); [|assumption].
      now rewrite <- app_assoc. }
  intros s w. now apply (H l []).
Qed.

Lemma forEach_total {A St : Type} (I : list A -> St -> Prop)
  (l : list A) (body : A -> St -> option St) :
  (forall pre a post t,
      l = pre ++ a :: post -> I pre t ->
      exists t', body a t = Some t' /\ I (pre ++ [a]) t') ->
  forall s, I [] s -> exists s', forEach l body s = Some s' /\ I l s'.
Proof.
  intros Hbody.
  assert (H : forall rest done s,
             l = done ++ rest -> I done s ->
             exists s', forEach rest body s = Some s' /\ I l s').
  { induction rest as [|a rest IH]; intros done s Hl Hs; simpl.
    - rewrite app_nil_r in Hl. subst done. eauto.
    - destruct (Hbody done a rest s Hl Hs) as (t & -> & Ht).
      apply (IH (done ++ [a])); [|assumption]. now rewrite <- app_assoc. }
  intros s. now apply (H l []).
Qed.

(** *** Iteration order of maps *)

Lemma removeAt_nth {A : Type} (l : list A) i d :
  (i < length l)%nat -> Permutation l (nth i l d :: removeAt i l).
Proof.
  intros Hi. unfold removeAt.
  rewrite <- (firstn_skipn i l) at 1.
  rewrite (Permutation_middle (firstn i l) (skipn (S i) l) (nth i l d)).
  apply Permutation_app_head.
  revert i Hi. induction l as [|a l IH]; intros [|i] Hi; simpl in *;
    try lia; [reflexivity|].
  apply IH. lia.
Qed.

Lemma removeAt_length {A : Type} (l : list A) i :
  (i < length l)%nat -> length (removeAt i l) = pred (length l).
Proof.
  intros Hi. unfold removeAt.
  rewrite length_app, length_firstn, length_skipn. lia.
Qed.

Lemma pickOrder_perm {A : Type} fuel :
  forall (l : list A) w,
    length l = fuel -> Permutation l (fst (pickOrder fuel l w)).
Proof.
  induction fuel as [|fuel IH]; intros l w Hl.
  - destruct l; [reflexivity|discriminate].
  - destruct l as [|d l]; [discriminate|].
    cbn [pickOrder].
    set (i := (rndNat w (tick w) mod length (d :: l))%nat).
    assert (Hi : (i < length (d :: l))%nat)
      by (apply Nat.mod_upper_bound; discriminate).
    specialize (IH (removeAt i (d :: l)) (advance w)).
    destruct (pickOrder fuel (removeAt i (d :: l)) (advance w)) as [rest w'].
    simpl fst in *.
    rewrite (removeAt_nth (d :: l) i d Hi) at 1.
    apply perm_skip, IH. rewrite removeAt_length by assumption.
    simpl in *. lia.
Qed.

Lemma pickOrder_calls {A : Type} fuel :
  forall (l : list A) w, calls (snd (pickOrder fuel l w)) = calls w.
Proof.
  induction fuel as [|fuel IH]; intros l w; [reflexivity|].
  destruct l as [|d l]; [reflexivity|]. cbn [pickOrder].
  specialize (IH (removeAt (rndNat w (tick w) mod length (d :: l)) (d :: l))
                (advance w)).
  destruct (pickOrder fuel _ (advance w)) as [rest w']. exact IH.
Qed.

Lemma rangeOrder_spec {A : Type} (l : list A) w :
  exists order w',
    rangeOrder l w = Some (order, w') /\ Permutation l order
    /\ calls w' = calls w.
Proof.
  unfold rangeOrder.
  destruct (pickOrder (length l) l w) as [order w'] eqn:E.
  exists order, w'. split; [reflexivity|]. split.
  - change order with (fst (order, w')). rewrite <- E.
    now apply pickOrder_perm.
  - change w' with (snd (order, w')). rewrite <- E. apply pickOrder_calls.
Qed.

(** *** Weighted draws *)

Lemma pickSymbol_In roll entries :
  forall cw,
    In (pickSymbol roll entries cw) (map fst entries)
    \/ pickSymbol roll entries cw = SymbolPurpleOwl.
Proof.
  induction entries as [|[s x] entries IH]; intros cw; simpl; [now right|].
  destruct (PrimFloat.leb roll (cw + x)); [now left; left|].
  destruct (IH (cw + x)%float); tauto.
Qed.

Lemma deleteS_keys {V : Type} (m : list (Symbol * V)) k s :
  In s (map fst (deleteS m k)) -> In s (map fst m) /\ s <> k.
Proof.
  unfold deleteS. intros H. apply in_map_iff in H as ([s' v] & <- & H).
  apply filter_In in H as [H Hk]. simpl in *. split.
  - apply in_map_iff. now exists (s', v).
  - apply negb_true_iff, String.eqb_neq in Hk. exact Hk.
Qed.

Lemma weights_keys level s :
  In s (map fst (GetLevelSpecificWeights level)) -> s <> "".
Proof.
  unfold GetLevelSpecificWeights.
  destruct (level =? Level1); [|destruct (level =? Level2);
    [|destruct (level =? Level3)]]; simpl; intuition (subst; discriminate).
Qed.

(** A draw never panics, makes no service call, never yields the empty
    marker, and never yields [free_game] when that is forbidden. *)
Lemma WeightedRandomSymbolWithControl_spec level forbidFreeGame w :
  exists symbol w',
    WeightedRandomSymbolWithControl level forbidFreeGame w
    = Some (symbol, w')
    /\ symbol <> ""
    /\ (forbidFreeGame = true -> symbol <> SymbolFreeGame)
    /\ calls w' = calls w.
Proof.
  unfold WeightedRandomSymbolWithControl.
  set (weights := if forbidFreeGame then _ else _).
  destruct (rangeOrder_spec weights w) as (o1 & w1 & E1 & _ & C1).
  rewrite (bind_eq _ _ _ _ _ E1). unfold Float64 at 1.
  unfold bind at 1.
  destruct (rangeOrder_spec weights (advance w1)) as (o2 & w2 & E2 & P2 & C2).
  rewrite (bind_eq _ _ _ _ _ E2). unfold ret.
  eexists _, w2. split; [reflexivity|].
  assert (Hk : forall s, In s (map fst o2) -> In s (map fst weights)).
  { intros s Hs. eapply Permutation_in; [|exact Hs].
    apply Permutation_map. now symmetry. }
  assert (Hw : forall s, In s (map fst weights) ->
                 s <> "" /\ (forbidFreeGame = true -> s <> SymbolFreeGame)).
  { intros s Hs. subst weights. destruct forbidFreeGame.
    - apply deleteS_keys in Hs as [Hs Hn]. split; [|auto].
      eapply weights_keys; eauto.
    - split; [eapply weights_keys; eauto|discriminate]. }
  split; [|split].
  - destruct (pickSymbol_In (rndFloat w1 (tick w1) *
                 fold_left (fun t e => t + snd e) o1 0)%float o2 0%float)
      as [H| ->]; [apply (Hw _ (Hk _ H))|discriminate].
  - intros Hf.
    destruct (pickSymbol_In (rndFloat w1 (tick w1) *
                 fold_left (fun t e => t + snd e) o1 0)%float o2 0%float)
      as [H| ->]; [apply (Hw _ (Hk _ H)); assumption|discriminate].
  - rewrite C2. simpl. exact C1.
Qed.

(* ------------------------------------------------------------------ *)
(** ** Shapes and cell counts *)

Lemma idx_split {A : Type} (l : list A) i a :
  idx l i = Some a ->
  l = firstn (Z.to_nat i) l ++ a :: skipn (S (Z.to_nat i)) l.
Proof.
  unfold idx. destruct (i <? 0); [discriminate|].
  generalize (Z.to_nat i). clear i. intros k. revert l.
  induction k as [|k IH]; intros [|b l]; simpl; try discriminate.
  - intros H. now inversion H.
  - intros H. f_equal. now apply IH.
Qed.

Lemma idx_app_mid {A : Type} (l1 l2 : list A) a i :
  len l1 = i -> idx (l1 ++ a :: l2) i = Some a.
Proof.
  unfold idx, len. intros <-. destruct (Z.ltb_spec (Z.of_nat (length l1)) 0);
    [lia|].
  rewrite Nat2Z.id, nth_error_app2, Nat.sub_diag by lia. reflexivity.
Qed.

Lemma upd_app_mid {A : Type} (l1 l2 : list A) a v i :
  len l1 = i -> upd (l1 ++ a :: l2) i v = Some (l1 ++ v :: l2).
Proof.
  unfold upd, len. intros <-. rewrite length_app, length_cons.
  destruct (Z.leb_spec 0 (Z.of_nat (length l1))); [|lia].
  destruct (Z.ltb_spec (Z.of_nat (length l1))
              (Z.of_nat (length l1 + S (length l2)))); [|lia].
  cbn [andb]. rewrite Nat2Z.id. f_equal.
  rewrite firstn_app, Nat.sub_diag, firstn_all, firstn_O, app_nil_r.
  rewrite skipn_app, skipn_all2 by lia.
  replace (S (length l1) - length l1)%nat with 1%nat by lia. reflexivity.
Qed.

Lemma idx_map {A B : Type} (f : A -> B) (l : list A) i :
  idx (map f l) i = option_map f (idx l i).
Proof.
  unfold idx. destruct (i <? 0); [reflexivity|]. apply nth_error_map.
Qed.

Lemma upd_map {A B : Type} (f : A -> B) (l l' : list A) i v :
  upd l i v = Some l' -> upd (map f l) i (f v) = Some (map f l').
Proof.
  intros H. destruct (upd_eq _ _ _ _ H) as (-> & Hi & H0).
  unfold upd. unfold len. rewrite length_map.
  destruct (Z.leb_spec 0 i); [|lia].
  destruct (Z.ltb_spec i (Z.of_nat (length l))); [|lia]. cbn [andb].
  now rewrite map_app, firstn_map, map_cons, skipn_map.
Qed.

Lemma mset_rowlens {A : Type} (m m' : list (list A)) y x v :
  mset m y x v = Some m' -> map len m' = map len m.
Proof.
  unfold mset. destruct (idx m y) as [row|] eqn:Er; [|discriminate].
  destruct (upd row x v) as [row'|] eqn:E; [|discriminate]. intros H.
  apply (upd_map len) in H. rewrite (upd_len _ _ _ _ E) in H.
  apply upd_eq in H as (-> & _ & _).
  apply (f_equal (option_map len)) in Er. rewrite <- idx_map in Er.
  simpl in Er. symmetry. now apply idx_split.
Qed.

Lemma Forall_map_repeat {A B : Type} (f : A -> B) (c : B) (l : list A) :
  Forall (fun a => f a = c) l -> map f l = repeat c (length l).
Proof.
  induction 1 as [|a l Ha _ IH]; simpl; [reflexivity|]. now rewrite Ha, IH.
Qed.

Lemma square_rowlens {A : Type} n (m : list (list A)) :
  square (Z.of_nat n) m <-> map len m = repeat (Z.of_nat n) n.
Proof.
  unfold square. split.
  - intros [Hl Hr]. unfold len in Hl. apply Nat2Z.inj in Hl. subst n.
    now apply Forall_map_repeat.
  - intros H. assert (Hl : length m = n).
    { apply (f_equal (@List.length Z)) in H.
      now rewrite length_map, repeat_length in H. }
    split; [unfold len; now rewrite Hl|]. apply Forall_forall.
    intros row Hrow. apply (in_map len) in Hrow. rewrite H in Hrow.
    now apply repeat_spec in Hrow.
Qed.

Lemma list_sum_upd (l l' : list nat) i old v :
  upd l i v = Some l' -> idx l i = Some old ->
  (list_sum l' + old = list_sum l + v)%nat.
Proof.
  intros H Ho. apply upd_eq in H as (-> & _ & _).
  rewrite (idx_split _ _ _ Ho) at 3.
  rewrite !list_sum_app. simpl. lia.
Qed.

Lemma rowCount_upd P (row row' : list string) x old v :
  upd row x v = Some row' -> idx row x = Some old ->
  (rowCount P row' + (if P old then 1 else 0)
   = rowCount P row + (if P v then 1 else 0))%nat.
Proof.
  intros H Ho. unfold rowCount.
  apply (list_sum_upd _ _ x);
    [now apply (upd_map (fun c => if P c then 1%nat else 0%nat))|].
  now rewrite idx_map, Ho.
Qed.

Lemma countCells_upd P (g g' : Grid) y row row' :
  upd g y row' = Some g' -> idx g y = Some row ->
  (countCells P g' + rowCount P row = countCells P g + rowCount P row')%nat.
Proof.
  intros H Ho. unfold countCells.
  apply (list_sum_upd _ _ y); [now apply (upd_map (rowCount P))|].
  now rewrite idx_map, Ho.
Qed.

(** Writing [v] over [old] changes the count by the two cells. *)
Lemma countCells_mset P (g g' : Grid) y x old v :
  mset g y x v = Some g' -> mget g y x = Some old ->
  (countCells P g' + (if P old then 1 else 0)
   = countCells P g + (if P v then 1 else 0))%nat.
Proof.
  unfold mset, mget. destruct (idx g y) as [row|] eqn:Er; [|discriminate].
  destruct (upd row x v) as [row'|] eqn:E; [|discriminate]. intros H Ho.
  pose proof (countCells_upd P _ _ _ _ _ H Er).
  pose proof (rowCount_upd P _ _ _ _ _ E Ho). lia.
Qed.

Lemma hasFreeGameSymbol_count grid :
  hasFreeGameSymbol grid = false <-> freeGameCells grid = O.
Proof.
  unfold hasFreeGameSymbol, freeGameCells, countCells.
  induction grid as [|row grid IH]; simpl; [tauto|].
  rewrite orb_false_iff, IH.
  assert (Hr : existsb (fun c => (c =? SymbolFreeGame)%string) row = false
               <-> rowCount isFreeGame row = O).
  { unfold rowCount, isFreeGame. induction row as [|c row IHr]; simpl;
      [tauto|].
    destruct (c =? SymbolFreeGame)%string; simpl; [split; discriminate|].
    exact IHr. }
  rewrite Hr. lia.
Qed.

(* ------------------------------------------------------------------ *)
(** ** Grid generation *)

Lemma idx_repeat_app {A : Type} (a : A) k (l : list A) i :
  0 <= i < Z.of_nat k -> idx (repeat a k ++ l) i = Some a.
Proof.
  intros Hi. unfold idx. destruct (Z.ltb_spec i 0); [lia|].
  rewrite nth_error_app1 by (rewrite repeat_length; lia).
  apply nth_error_repeat. lia.
Qed.

Lemma rowlens_mget {A : Type} (g : list (list A)) y x k :
  idx (map len g) y = Some k -> 0 <= x < k -> exists a, mget g y x = Some a.
Proof.
  rewrite idx_map. unfold mget. destruct (idx g y) as [row|];
    [|discriminate]. simpl. intros H Hx. inversion H. subst k.
  now apply idx_defined.
Qed.

Lemma rowCount_repeat_empty P n : P "" = false -> rowCount P (repeat "" n) = O.
Proof.
  intros HP. unfold rowCount. induction n as [|n IH]; simpl; [reflexivity|].
  now rewrite HP, IH.
Qed.

Lemma GetGridSize_cases level :
  GetGridSize level = 4 \/ GetGridSize level = 5 \/ GetGridSize level = 6.
Proof.
  unfold GetGridSize. destruct (level =? Level1); [now left|].
  destruct (level =? Level2); [now right; left|].
  destruct (level =? Level3); [now right; right|now left].
Qed.

Lemma Forall_map_repeat_len {A : Type} n :
  map len (repeat (@nil A) n) = repeat 0 n.
Proof. induction n; simpl; [reflexivity|]. now f_equal. Qed.

(** One cell of [GenerateGrid], in a row that is already allocated. *)
Lemma GenerateGrid_cell level forbid n y x grid placed w :
  0 <= y < Z.of_nat n -> 0 <= x < Z.of_nat n ->
  genInv forbid n (S (Z.to_nat y)) (grid, placed) ->
  exists st' w',
    (let allowFreeGame := negb placed && negb forbid in
     symbol <- WeightedRandomSymbolWithControl level (negb allowFreeGame) ;;
     let freeGamePlaced :=
       if (symbol =? SymbolFreeGame)%string then true else placed in
     grid <- lift (mset grid y x symbol) ;;
     ret (grid, freeGamePlaced)) w = Some (st', w')
    /\ genInv forbid n (S (Z.to_nat y)) st' /\ calls w' = calls w.
Proof.
  intros Hy Hx (Hshape & Hle & Hplaced & Hforbid). cbn [fst snd] in *.
  destruct (WeightedRandomSymbolWithControl_spec level
              (negb (negb placed && negb forbid)) w)
    as (symbol & w' & E & _ & Hfg & Hc).
  rewrite (bind_eq _ _ _ _ _ E).
  destruct (rowlens_mget grid y x (Z.of_nat n)) as [old Eo]; [|lia|].
  { rewrite Hshape. apply idx_repeat_app. lia. }
  destruct (mset_defined grid y x symbol _ Eo) as [grid' Es].
  rewrite Es. unfold lift, bind, ret. eexists _, w'.
  split; [reflexivity|]. split; [|assumption].
  pose proof (countCells_mset isFreeGame _ _ _ _ _ _ Es Eo) as Hcount.
  fold (freeGameCells grid) in Hcount. fold (freeGameCells grid') in Hcount.
  unfold genInv. cbn [fst snd]. rewrite (mset_rowlens _ _ _ _ _ Es).
  split; [assumption|]. unfold isFreeGame in Hcount.
  destruct (symbol =? SymbolFreeGame)%string eqn:Ef.
  - apply String.eqb_eq in Ef.
    destruct placed; [exfalso; now apply Hfg|].
    destruct forbid; [exfalso; now apply Hfg|].
    rewrite (Hplaced eq_refl) in Hcount.
    repeat split; try discriminate.
    destruct (old =? SymbolFreeGame)%string; lia.
  - assert (Hm : (freeGameCells grid' <= freeGameCells grid)%nat)
      by (destruct (old =? SymbolFreeGame)%string; lia).
    repeat split.
    + lia.
    + intros Hp. specialize (Hplaced Hp). lia.
    + intros Hf. specialize (Hforbid Hf). lia.
Qed.

(** A generated grid is square of the level's size and shows the
    trigger at most once, never when it is forbidden; generation makes
    no service call and does not panic. *)
Lemma GenerateGrid_spec level forbid w :
  exists grid w',
    GenerateGrid level forbid w = Some (grid, w')
    /\ square (GetGridSize level) grid
    /\ (freeGameCells grid <= 1)%nat
    /\ (forbid = true -> freeGameCells grid = O)
    /\ calls w' = calls w.
Proof.
  unfold GenerateGrid.
  set (n := Z.to_nat (GetGridSize level)).
  assert (Hn : GetGridSize level = Z.of_nat n)
    by (subst n; destruct (GetGridSize_cases level) as [->|[->| ->]];
        reflexivity).
  pose (I := fun (i : Z) (st : Grid * bool) (u : World) =>
               genInv forbid n (Z.to_nat i) st /\ calls u = calls w).
  match goal with
  | |- exists g w', bind (forUpM n 0 ?body ?s) _ _ = _ /\ _ =>
      destruct (forUpM_total I n 0 body s w) as ([grid placed] & w' & E & HI)
  end.
  - intros y [grid placed] u Hy [Hinv Hc].
    destruct Hinv as (Hshape & Hle & Hplaced & Hforbid). cbn [fst snd] in *.
    assert (Hrow : idx (map len grid) y = Some 0).
    { rewrite Hshape. replace (n - Z.to_nat y)%nat
        with (S (n - S (Z.to_nat y))) by lia.
      cbn [repeat]. apply idx_app_mid. unfold len. rewrite repeat_length.
      lia. }
    rewrite idx_map in Hrow.
    destruct (idx grid y) as [row|] eqn:Er; [|discriminate].
    simpl in Hrow. assert (row = []).
    { destruct row; [reflexivity|]. unfold len in Hrow. simpl in Hrow.
      inversion Hrow. }
    subst row.
    destruct (upd_defined grid y (repeat "" n)) as [grid1 E1].
    { eapply idx_Some_range; eauto. }
    rewrite E1. unfold lift at 1. unfold bind at 1.
    assert (H1 : genInv forbid n (S (Z.to_nat y)) (grid1, placed)).
    { unfold genInv. cbn [fst snd].
      pose proof (countCells_upd isFreeGame _ _ _ _ _ E1 Er) as Hcount.
      rewrite rowCount_repeat_empty in Hcount by reflexivity.
      unfold rowCount in Hcount. simpl in Hcount.
      fold (freeGameCells grid) in Hcount.
      fold (freeGameCells grid1) in Hcount.
      replace (freeGameCells grid1) with (freeGameCells grid) by lia.
      split; [|auto].
      apply (upd_map len) in E1. rewrite Hshape in E1.
      replace (n - Z.to_nat y)%nat with (S (n - S (Z.to_nat y))) in E1
        by lia.
      cbn [repeat] in E1. rewrite upd_app_mid in E1
        by (unfold len; rewrite repeat_length; lia).
      injection E1 as E2. rewrite <- E2.
      unfold len at 1. rewrite repeat_length.
      change (Z.of_nat n :: repeat 0 (n - S (Z.to_nat y)))
        with ([Z.of_nat n] ++ repeat 0 (n - S (Z.to_nat y))).
      rewrite app_assoc. f_equal.
      change [Z.of_nat n] with (repeat (Z.of_nat n) 1).
      rewrite <- repeat_app. f_equal. lia. }
    pose (J := fun (_ : Z) (st : Grid * bool) (u' : World) =>
                 genInv forbid n (S (Z.to_nat y)) st /\ calls u' = calls w).
    match goal with
    | |- exists t' u', forUpM n 0 ?body ?s u = _ /\ _ =>
        destruct (forUpM_total J n 0 body s u) as (st' & u' & E' & HJ)
    end.
    + intros x [g p] v Hx [Hg Hv].
      destruct (GenerateGrid_cell level forbid n y x g p v) as
        (st' & v' & E' & Hst & Hv'); [lia|lia|assumption|].
      exists st', v'. split; [exact E'|]. split; [assumption|congruence].
    + split; assumption.
    + exists st', u'. split; [exact E'|]. destruct HJ as [HJ1 HJ2].
      split; [|assumption]. replace (Z.to_nat (y + 1)) with (S (Z.to_nat y))
        by lia. assumption.
  - split; [|reflexivity]. unfold genInv. cbn [fst snd Z.to_nat repeat app].
    rewrite Nat.sub_0_r.
    split; [apply Forall_map_repeat_len|].
    assert (Hz : freeGameCells (repeat [] n) = O).
    { unfold freeGameCells, countCells. clear. induction n; simpl; auto. }
    rewrite Hz. auto.
  - rewrite (bind_eq _ _ _ _ _ E). unfold ret. exists grid, w'.
    split; [reflexivity|]. destruct HI as [(Hshape & Hle & _ & Hforbid) Hc].
    cbn [fst snd] in *.
    replace (Z.to_nat (0 + Z.of_nat n)) with n in * by lia.
    rewrite Nat.sub_diag, app_nil_r in Hshape.
    rewrite Hn. repeat split; try assumption; now apply square_rowlens.
Qed.

(* ------------------------------------------------------------------ *)
(** ** Columns *)

Lemma column_length grid x : length (column grid x) = length grid.
Proof. unfold column. apply length_map. Qed.

Lemma column_mget n grid x y c :
  square n grid -> 0 <= x < n ->
  idx (column grid x) y = Some c -> mget grid y x = Some c.
Proof.
  intros [Hl Hr] Hx. unfold column, mget. rewrite idx_map.
  destruct (idx grid y) as [row|] eqn:Er; [|discriminate]. simpl.
  destruct (idx_defined row x) as [c' Ec].
  { apply idx_In in Er. rewrite Forall_forall in Hr.
    rewrite (Hr _ Er). lia. }
  rewrite Ec. congruence.
Qed.

Lemma mget_column grid x y c :
  mget grid y x = Some c -> idx (column grid x) y = Some c.
Proof.
  unfold column, mget. rewrite idx_map.
  destruct (idx grid y) as [row|]; [|discriminate]. simpl. now intros ->.
Qed.

Lemma upd_same_value {A : Type} (l : list A) i a :
  idx l i = Some a -> upd l i a = Some l.
Proof.
  intros H. destruct (upd_defined l i a) as [l' E];
    [eapply idx_Some_range; eauto|].
  rewrite E. f_equal. apply upd_eq in E as (-> & _ & _).
  symmetry. now apply idx_split.
Qed.

Lemma column_mset_same g g' y x v :
  mset g y x v = Some g' -> upd (column g x) y v = Some (column g' x).
Proof.
  unfold mset. destruct (idx g y) as [row|] eqn:Er; [|discriminate].
  destruct (upd row x v) as [row'|] eqn:E; [|discriminate]. intros H.
  unfold column.
  apply (upd_map (fun row => match idx row x with
                             | Some c => c | None => "" end)) in H.
  now rewrite (idx_upd_same _ _ _ _ E) in H.
Qed.

Lemma column_mset_other g g' y x v x' :
  mset g y x v = Some g' -> x' <> x -> column g' x' = column g x'.
Proof.
  unfold mset. destruct (idx g y) as [row|] eqn:Er; [|discriminate].
  destruct (upd row x v) as [row'|] eqn:E; [|discriminate]. intros H Hx.
  unfold column.
  apply (upd_map (fun row => match idx row x' with
                             | Some c => c | None => "" end)) in H.
  rewrite (idx_upd_other _ _ _ _ _ E Hx) in H.
  rewrite upd_same_value in H by (now rewrite idx_map, Er).
  now inversion H.
Qed.

(** Writing a cell, seen from its column. *)
Lemma column_write n (g : Grid) x y pre old post v :
  square (Z.of_nat n) g -> 0 <= x < Z.of_nat n ->
  column g x = pre ++ old :: post -> len pre = y ->
  exists g',
    mset g y x v = Some g'
    /\ mget g y x = Some old
    /\ column g' x = pre ++ v :: post
    /\ square (Z.of_nat n) g'
    /\ (forall x', x' <> x -> column g' x' = column g x')
    /\ (forall P,
          (countCells P g' + (if P old then 1 else 0)
           = countCells P g + (if P v then 1 else 0))%nat).
Proof.
  intros Hsq Hx Hcol Hy.
  assert (Eo : mget g y x = Some old).
  { apply (column_mget _ _ _ _ _ Hsq Hx). rewrite Hcol.
    now apply idx_app_mid. }
  destruct (mset_defined g y x v _ Eo) as [g' Es]. exists g'.
  split; [assumption|]. split; [assumption|]. split; [|split; [|split]].
  - pose proof (column_mset_same _ _ _ _ _ Es) as H. rewrite Hcol in H.
    rewrite upd_app_mid in H by assumption. now inversion H.
  - eapply mset_square; eauto.
  - intros x' Hx'. eapply column_mset_other; eauto.
  - intros P. eapply countCells_mset; eauto.
Qed.

Lemma firstn_skipn_nth {A : Type} (l : list A) k d :
  (k < length l)%nat ->
  firstn (S k) l = firstn k l ++ [nth k l d]
  /\ skipn k l = nth k l d :: skipn (S k) l.
Proof.
  revert k. induction l as [|a l IH]; intros [|k] Hk; simpl in *;
    try lia; [now split|].
  destruct (IH k) as [H1 H2]; [lia|]. split; [now f_equal|assumption].
Qed.

Lemma repeat_snoc {A : Type} (a : A) k : repeat a (S k) = repeat a k ++ [a].
Proof. induction k as [|k IH]; [reflexivity|]. simpl in *. now rewrite <- IH. Qed.

Lemma forDown_total {St : Type} (I : nat -> St -> Prop) n :
  forall (body : Z -> St -> option St) s,
    (forall k t,
        (k < n)%nat -> I (S k) t ->
        exists t', body (Z.of_nat k) t = Some t' /\ I k t') ->
    I n s -> exists s', forDown n body s = Some s' /\ I O s'.
Proof.
  induction n as [|n IH]; intros body s Hbody Hs; simpl; [eauto|].
  destruct (Hbody n s) as (t & -> & Ht); [lia|assumption|].
  apply IH; [|assumption]. intros k u Hk. apply Hbody. lia.
Qed.

(* ------------------------------------------------------------------ *)
(** ** Surgical gravity *)

Lemma compactStep_spec n (g0 : Grid) x k (g : Grid) w :
  square (Z.of_nat n) g0 -> 0 <= x < Z.of_nat n -> (k < n)%nat ->
  compactInv n g0 x (S k) (g, w) ->
  exists st',
    compactStep x (Z.of_nat k) (g, w) = Some st' /\ compactInv n g0 x k st'.
Proof.
  intros Hsq0 Hx Hk (Hsq & Hfr & Hcnt & e & Hw & Hcol).
  unfold compactInv. cbn [fst snd] in *.
  assert (Hlen : length (column g0 x) = n).
  { rewrite column_length. destruct Hsq0 as [Hl _]. unfold len in Hl. lia. }
  set (c0 := column g0 x) in *.
  destruct (firstn_skipn_nth c0 k "") as [Hf Hs]; [lia|].
  set (v := nth k c0 "") in *.
  set (F := filter nonEmpty (skipn (S k) c0)) in *.
  assert (Hk0 : len (firstn k c0) = Z.of_nat k).
  { unfold len. rewrite length_firstn. lia. }
  rewrite Hf, <- app_assoc in Hcol. cbn [app] in Hcol.
  unfold compactStep.
  assert (Ev : mget g (Z.of_nat k) x = Some v).
  { apply (column_mget _ _ _ _ _ Hsq Hx). rewrite Hcol.
    now apply idx_app_mid. }
  rewrite Ev. rewrite Hs. cbn [filter]. fold F.
  change (nonEmpty v) with (negb (v =? "")%string).
  destruct (v =? "")%string eqn:Ee; cbn [negb].
  - (* an empty cell: nothing moves *)
    apply String.eqb_eq in Ee. eexists. split; [reflexivity|].
    cbn [fst snd]. repeat (split; [assumption|]).
    exists (S e). split; [lia|]. rewrite Hcol, Ee. reflexivity.
  - destruct (Z.eqb_spec (Z.of_nat k) w) as [Ew|Ew]; cbn [negb].
    + (* already in place *)
      eexists. split; [reflexivity|]. cbn [fst snd].
      repeat (split; [assumption|]).
      assert (e = O) by lia. subst e. exists O. split; [lia|].
      rewrite Hcol. reflexivity.
    + (* the cell falls to [writePos] *)
      destruct e as [|e]; [lia|]. rewrite repeat_snoc in Hcol.
      rewrite <- app_assoc in Hcol. cbn [app] in Hcol.
      rewrite (app_comm_cons _ _ v), app_assoc in Hcol.
      destruct (column_write n g x w _ _ _ v Hsq Hx Hcol)
        as (g1 & -> & _ & Hcol1 & Hsq1 & Hfr1 & Hcnt1).
      { unfold len in *. rewrite length_app, length_cons, repeat_length.
        lia. }
      rewrite <- app_assoc in Hcol1. cbn [app] in Hcol1.
      destruct (column_write n g1 x (Z.of_nat k) _ _ _ "" Hsq1 Hx Hcol1 Hk0)
        as (g2 & -> & _ & Hcol2 & Hsq2 & Hfr2 & Hcnt2).
      eexists. split; [reflexivity|]. cbn [fst snd].
      split; [assumption|]. split; [|split].
      * intros x' Hx'. rewrite Hfr2, Hfr1 by assumption. now apply Hfr.
      * intros P HP. rewrite <- (Hcnt P HP).
        specialize (Hcnt1 P). specialize (Hcnt2 P). rewrite HP in *. lia.
      * exists (S e). split; [lia|]. rewrite Hcol2. reflexivity.
Qed.

(** "Move existing symbols down" leaves a column of [writePos + 1]
    empty cells above the non-empty cells in their order, touches no
    other column and keeps the number of cells of every kind. *)
Lemma compact_spec n (g0 : Grid) x :
  square (Z.of_nat n) g0 -> 0 <= x < Z.of_nat n ->
  exists g (e : nat),
    forDown n (compactStep x) (g0, Z.of_nat n - 1)
    = Some (g, Z.of_nat e - 1)
    /\ square (Z.of_nat n) g
    /\ (forall x', x' <> x -> column g x' = column g0 x')
    /\ (forall P, P "" = false -> countCells P g = countCells P g0)
    /\ column g x = repeat "" e ++ filter nonEmpty (column g0 x).
Proof.
  intros Hsq Hx.
  destruct (forDown_total (compactInv n g0 x) n (compactStep x)
              (g0, Z.of_nat n - 1))
    as ([g w] & E & (Hsq' & Hfr & Hcnt & e & Hw & Hcol)).
  - intros k [g w] Hk. now apply compactStep_spec.
  - unfold compactInv. cbn [fst snd]. repeat split; try tauto.
    + apply Hsq.
    + apply Hsq.
    + exists O. split; [lia|].
      assert (Hlen : length (column g0 x) = n).
      { rewrite column_length. destruct Hsq as [Hl _]. unfold len in Hl.
        lia. }
      rewrite <- Hlen at 1 2. rewrite firstn_all, skipn_all. simpl.
      now rewrite app_nil_r.
  - cbn [fst snd] in *. exists g, e. rewrite E. subst w.
    split; [f_equal; f_equal; lia|]. repeat split; try assumption.
    + apply Hsq'.
    + apply Hsq'.
Qed.

Lemma fillStep_spec level forbid n g0 x e kept cap y st w :
  0 <= x < Z.of_nat n -> 0 <= y < Z.of_nat e -> (1 <= cap)%nat ->
  fillInv n g0 x e kept cap y st ->
  exists st' w',
    fillStep level forbid x y st w = Some (st', w')
    /\ fillInv n g0 x e kept cap (y + 1) st' /\ calls w' = calls w.
Proof.
  intros Hx Hy Hcap (Hsq & Hfr & Hle & fresh & Hlen & Hne & Hcol).
  destruct st as [g np]. cbn [fst snd] in *. unfold fillStep.
  destruct (WeightedRandomSymbolWithControl_spec level
              (negb (negb (hasFreeGameSymbol g) && negb forbid)) w)
    as (symbol & w' & E & Hs & Hfg & Hc).
  rewrite (bind_eq _ _ _ _ _ E).
  replace (e - Z.to_nat y)%nat with (S (e - Z.to_nat (y + 1))) in Hcol
    by lia.
  cbn [repeat app] in Hcol.
  destruct (column_write n g x y _ _ _ symbol Hsq Hx Hcol Hlen)
    as (g' & -> & _ & Hcol' & Hsq' & Hfr' & Hcnt).
  unfold lift, bind, ret. eexists _, w'. split; [reflexivity|].
  split; [|assumption]. unfold fillInv. cbn [fst snd].
  split; [assumption|]. split; [|split].
  - intros x' Hx'. rewrite Hfr' by assumption. now apply Hfr.
  - specialize (Hcnt isFreeGame). fold (freeGameCells g) in Hcnt.
    fold (freeGameCells g') in Hcnt.
    change (isFreeGame "") with false in Hcnt. unfold isFreeGame in Hcnt.
    destruct (symbol =? SymbolFreeGame)%string eqn:Ef; [|lia].
    apply String.eqb_eq in Ef.
    destruct (hasFreeGameSymbol g) eqn:Eh; [exfalso; now apply Hfg|].
    apply hasFreeGameSymbol_count in Eh. lia.
  - exists (fresh ++ [symbol]). split; [|split].
    + unfold len in *. rewrite length_app. simpl. lia.
    + apply Forall_app. split; [assumption|]. now constructor.
    + rewrite Hcol', <- app_assoc. reflexivity.
Qed.

(** One affected column: compaction, then refill. *)
Lemma gravityColumn_spec level forbid n (g : Grid) np x w :
  square (Z.of_nat n) g -> 0 <= x < Z.of_nat n ->
  exists g' np' w',
    gravityColumn (Z.of_nat n) level forbid x (g, np) w
    = Some ((g', np'), w')
    /\ square (Z.of_nat n) g'
    /\ (forall x', x' <> x -> column g' x' = column g x')
    /\ compacted g g' x
    /\ (freeGameCells g' <= Nat.max 1 (freeGameCells g))%nat
    /\ calls w' = calls w.
Proof.
  intros Hsq Hx. unfold gravityColumn.
  destruct (Z.leb_spec 0 x); [|lia].
  destruct (Z.ltb_spec x (Z.of_nat n)); [|lia]. cbn [andb].
  rewrite Nat2Z.id.
  destruct (compact_spec n g x Hsq Hx)
    as (gc & e & -> & Hsqc & Hfrc & Hcntc & Hcolc).
  unfold lift at 1. unfold bind at 1.
  replace (Z.to_nat (Z.of_nat e - 1 + 1)) with e by lia.
  set (kept := filter nonEmpty (column g x)) in *.
  set (cap := Nat.max 1 (freeGameCells g)).
  pose (I := fun y (st : Grid * list Position) (u : World) =>
               fillInv n gc x e kept cap y st /\ calls u = calls w).
  destruct (forUpM_total I e 0 (fillStep level forbid x) (gc, np) w)
    as ([g' np'] & w' & E & (Hsq' & Hfr' & Hle' & fresh & Hl & Hne & Hcol')
        & Hc).
  - intros y st u Hy [Hst Hu].
    destruct (fillStep_spec level forbid n gc x e kept cap y st u)
      as (st' & u' & E & Hst' & Hu'); try assumption; try lia.
    exists st', u'. split; [assumption|]. split; [assumption|congruence].
  - split; [|reflexivity]. unfold fillInv. cbn [fst snd].
    split; [assumption|]. split; [auto|]. split.
    + unfold freeGameCells. rewrite Hcntc by reflexivity.
      fold (freeGameCells g). lia.
    + exists []. split; [reflexivity|]. split; [constructor|].
      rewrite Hcolc. cbn [Z.to_nat app]. now rewrite Nat.sub_0_r.
  - cbn [fst snd] in *. exists g', np', w'. split; [assumption|].
    split; [assumption|]. split; [|split; [|split]]; try assumption.
    + intros x' Hx'. rewrite Hfr' by assumption. now apply Hfrc.
    + exists fresh. split; [|assumption]. rewrite Hcol'.
      replace (e - Z.to_nat (0 + Z.of_nat e))%nat with O by lia.
      reflexivity.
Qed.

Lemma compacted_ext g0 g g' x :
  compacted g0 g x -> column g' x = column g x -> compacted g0 g' x.
Proof. intros (fresh & H & Hf) E. exists fresh. now rewrite E. Qed.

(** All affected columns, in whatever order the map yields them. *)
Lemma gravityColumns_spec (g : Grid) cols level forbid w :
  square (len g) g ->
  exists g' np w',
    gravityColumns g cols level forbid w = Some ((g', np), w')
    /\ square (len g) g'
    /\ (freeGameCells g' <= Nat.max 1 (freeGameCells g))%nat
    /\ (forall x, In x cols -> 0 <= x < len g -> compacted g g' x)
    /\ (forall x, ~ In x cols -> column g' x = column g x)
    /\ calls w' = calls w.
Proof.
  intros Hsq. unfold gravityColumns.
  destruct (rangeOrder_spec (nodup Z.eq_dec cols) w)
    as (order & w1 & E1 & Hperm & Hc1).
  rewrite (bind_eq _ _ _ _ _ E1).
  assert (Hnd : NoDup order)
    by (eapply Permutation_NoDup; [exact Hperm|apply NoDup_nodup]).
  assert (Hin : forall x, In x order <-> In x cols).
  { intros x. split; intros H.
    - apply (nodup_In Z.eq_dec).
      eapply Permutation_in; [symmetry; exact Hperm|exact H].
    - eapply Permutation_in; [exact Hperm|]. now apply nodup_In. }
  set (n := length g). change (len g) with (Z.of_nat n) in *.
  pose (I := fun done (st : Grid * list Position) (u : World) =>
               columnsInv n g done st /\ calls u = calls w).
  destruct (forEachM_total I order (gravityColumn (Z.of_nat n) level forbid))
    with (s := (g, @nil Position)) (w := w1)
    as ([g' np] & w' & E & (Hsq' & Hcap & Hdone & Hrest) & Hc).
  - intros pre a post [g1 np] u Hl [(Hsq1 & Hcap1 & Hdone1 & Hrest1) Hu].
    cbn [fst snd] in *.
    assert (Ha : ~ In a pre).
    { rewrite Hl in Hnd. apply NoDup_remove_2 in Hnd. intros F. apply Hnd.
      apply in_app_iff. now left. }
    destruct (Z.leb_spec 0 a) as [H0|H0];
      [destruct (Z.ltb_spec a (Z.of_nat n)) as [H1|H1]|].
    + destruct (gravityColumn_spec level forbid n g1 np a u Hsq1)
        as (g2 & np2 & u2 & E & Hsq2 & Hfr2 & Hcomp2 & Hcap2 & Hu2); [lia|].
      exists (g2, np2), u2. split; [assumption|]. split; [|congruence].
      unfold columnsInv. cbn [fst snd]. split; [assumption|].
      split; [lia|]. split.
      * intros x Hx Hr. apply in_app_iff in Hx as [Hx|[<-|[]]].
        -- apply (compacted_ext _ g1); [now apply Hdone1|].
           apply Hfr2. intros ->. contradiction.
        -- destruct Hcomp2 as (fresh & Hcol & Hf). exists fresh.
           split; [|assumption]. rewrite Hcol. now rewrite (Hrest1 a Ha).
      * intros x Hx. rewrite Hfr2.
        -- apply Hrest1. intros F. apply Hx, in_app_iff. now left.
        -- intros ->. apply Hx, in_app_iff. right. now left.
    + exists (g1, np), u. unfold gravityColumn.
      destruct (Z.leb_spec 0 a); [|lia].
      destruct (Z.ltb_spec a (Z.of_nat n)); [lia|]. cbn [andb].
      split; [reflexivity|]. split; [|assumption]. unfold columnsInv.
      cbn [fst snd]. repeat (split; [assumption|]). split.
      * intros x Hx Hr. apply in_app_iff in Hx as [Hx|[<-|[]]];
          [now apply Hdone1|lia].
      * intros x Hx. apply Hrest1. intros F. apply Hx, in_app_iff.
        now left.
    + exists (g1, np), u. unfold gravityColumn.
      destruct (Z.leb_spec 0 a); [lia|]. cbn [andb].
      split; [reflexivity|]. split; [|assumption]. unfold columnsInv.
      cbn [fst snd]. repeat (split; [assumption|]). split.
      * intros x Hx Hr. apply in_app_iff in Hx as [Hx|[<-|[]]];
          [now apply Hdone1|lia].
      * intros x Hx. apply Hrest1. intros F. apply Hx, in_app_iff.
        now left.
  - split; [|assumption]. unfold columnsInv. cbn [fst snd].
    split; [assumption|]. split; [lia|]. split; [intros x []|reflexivity].
  - cbn [fst snd] in *. exists g', np, w'. split; [assumption|].
    split; [assumption|]. split; [assumption|]. split; [|split].
    + intros x Hx. apply Hdone. now apply Hin.
    + intros x Hx. apply Hrest. intros F. now apply Hx, Hin.
    + congruence.
Qed.

(** Emptying one cell of a square grid. *)
Lemma clear_cell n (g : Grid) pos :
  square (Z.of_nat n) g -> inGrid g pos = true ->
  exists g',
    mset g (Y pos) (X pos) "" = Some g'
    /\ square (Z.of_nat n) g'
    /\ (forall x, x <> X pos -> column g' x = column g x)
    /\ (freeGameCells g' <= freeGameCells g)%nat
    /\ holds g' pos ""
    /\ (forall p, p <> pos -> mget g' (Y p) (X p) = mget g (Y p) (X p)).
Proof.
  intros Hsq Hin. unfold inGrid in Hin.
  rewrite (proj1 Hsq) in Hin.
  apply andb_true_iff in Hin as [Hin Hy2].
  apply andb_true_iff in Hin as [Hin Hy1].
  apply andb_true_iff in Hin as [Hx1 Hx2].
  apply Z.leb_le in Hx1, Hy1. apply Z.ltb_lt in Hx2, Hy2.
  destruct (square_mget _ g (Y pos) (X pos) Hsq) as [old Eo]; [lia|lia|].
  destruct (mset_defined g (Y pos) (X pos) "" _ Eo) as [g' Es].
  exists g'. split; [assumption|]. split; [eapply mset_square; eauto|].
  split; [intros x Hx; eapply column_mset_other; eauto|].
  split; [|split].
  - pose proof (countCells_mset isFreeGame _ _ _ _ _ _ Es Eo) as Hc.
    change (isFreeGame "") with false in Hc. unfold freeGameCells.
    destruct (isFreeGame old); lia.
  - eapply mget_mset_same; eauto.
  - intros p Hp. eapply mget_mset_other; eauto.
    destruct (Z.eq_dec (Y p) (Y pos)); [|tauto].
    destruct (Z.eq_dec (X p) (X pos)); [|tauto].
    exfalso. apply Hp. now apply position_eq.
Qed.

Lemma inGrid_len (g g' : Grid) pos : len g' = len g -> inGrid g' pos = inGrid g pos.
Proof. unfold inGrid. now intros ->. Qed.

Lemma RemoveStageClearedSymbolsSurgical_spec (g : Grid) scs :
  square (len g) g ->
  exists g',
    RemoveStageClearedSymbolsSurgical g scs = Some g'
    /\ square (len g) g'
    /\ (forall x,
          ~ In x (map (fun stageSymbol => X (scPosition stageSymbol)) scs) ->
          column g' x = column g x)
    /\ (freeGameCells g' <= freeGameCells g)%nat
    /\ cleared g g' (map scPosition scs).
Proof.
  intros Hsq. unfold RemoveStageClearedSymbolsSurgical.
  set (n := length g). change (len g) with (Z.of_nat n) in *.
  pose (I := fun done (g1 : Grid) =>
               square (Z.of_nat n) g1
               /\ (forall x,
                     ~ In x (map (fun s => X (scPosition s)) done) ->
                     column g1 x = column g x)
               /\ (freeGameCells g1 <= freeGameCells g)%nat
               /\ cleared g g1 (map scPosition done)).
  apply (forEach_total I).
  2:{ unfold I, cleared. split; [assumption|]. split; [reflexivity|].
      split; [lia|]. split; [intros p []|reflexivity]. }
  intros pre a post g1 _ (Hsq1 & Hfr1 & Hc1 & Hcl1 & Hcl2).
  assert (Hpre : forall x,
            ~ In x (map (fun s => X (scPosition s)) (pre ++ [a])) ->
            x <> X (scPosition a)
            /\ ~ In x (map (fun s => X (scPosition s)) pre)).
  { intros x Hx. rewrite map_app, in_app_iff in Hx. simpl in Hx. split.
    - intros ->. tauto.
    - tauto. }
  assert (Hpos : forall p,
            ~ In p (map scPosition (pre ++ [a])) ->
            p <> scPosition a /\ ~ In p (map scPosition pre)).
  { intros p Hp. rewrite map_app, in_app_iff in Hp. simpl in Hp. split.
    - intros ->. tauto.
    - tauto. }
  assert (Hlen : len g1 = len g)
    by (rewrite (proj1 Hsq1), (proj1 Hsq); reflexivity).
  destruct (inGrid g1 (scPosition a)) eqn:Ein.
  - destruct (clear_cell n g1 _ Hsq1 Ein)
      as (g2 & -> & Hsq2 & Hfr2 & Hc2 & Hh2 & Hm2).
    eexists. split; [reflexivity|]. split; [assumption|].
    split; [|split; [lia|split]].
    + intros x Hx. apply Hpre in Hx as [Hx1 Hx2].
      rewrite Hfr2 by assumption. now apply Hfr1.
    + intros p Hp Hi. rewrite map_app, in_app_iff in Hp. simpl in Hp.
      destruct (Position_eq_dec p (scPosition a)) as [->|Hne];
        [assumption|].
      unfold holds. rewrite Hm2 by assumption.
      apply Hcl1; intuition congruence.
    + intros p Hp. apply Hpos in Hp as [Hp1 Hp2].
      rewrite Hm2 by assumption. now apply Hcl2.
  - eexists. split; [reflexivity|]. split; [assumption|].
    split; [|split; [assumption|split]].
    + intros x Hx. apply Hfr1. now apply Hpre.
    + intros p Hp Hi. rewrite map_app, in_app_iff in Hp. simpl in Hp.
      destruct Hp as [Hp|[<-|[]]]; [now apply Hcl1|].
      rewrite (inGrid_len _ _ _ Hlen) in Ein. congruence.
    + intros p Hp. apply Hcl2. now apply Hpos.
Qed.

Lemma RemoveConnectionsSurgical_spec (g : Grid) connections :
  square (len g) g ->
  exists g' affected,
    RemoveConnectionsSurgical g connections = Some (g', affected)
    /\ square (len g) g'
    /\ (forall x, ~ In x (map X affected) -> column g' x = column g x)
    /\ (freeGameCells g' <= freeGameCells g)%nat
    /\ cleared g g' affected.
Proof.
  intros Hsq. unfold RemoveConnectionsSurgical.
  set (n := length g). change (len g) with (Z.of_nat n) in *.
  pose (I := fun (st : Grid * list Position) =>
               square (Z.of_nat n) (fst st)
               /\ (forall x, ~ In x (map X (snd st)) ->
                             column (fst st) x = column g x)
               /\ (freeGameCells (fst st) <= freeGameCells g)%nat
               /\ cleared g (fst st) (snd st)).
  match goal with
  | |- exists g' affected, forEach ?l ?body ?s0 = _ /\ _ =>
      destruct (forEach_total (fun _ => I) l body) with (s := s0)
        as ([g' affected] & E & (Hsq' & Hfr' & Hc' & Hcl'))
  end.
  - intros _ c _ st _ Hst.
    apply (forEach_total (fun _ => I)); [|assumption].
    intros _ pos _ [g1 aff] _ (Hsq1 & Hfr1 & Hc1 & Hcl1 & Hcl2).
    cbn [fst snd] in *.
    destruct (inGrid g1 pos) eqn:Ein.
    + destruct (clear_cell n g1 _ Hsq1 Ein)
        as (g2 & -> & Hsq2 & Hfr2 & Hc2 & Hh2 & Hm2).
      eexists. split; [reflexivity|]. unfold I, cleared. cbn [fst snd].
      split; [assumption|]. split; [|split; [lia|split]].
      * intros x Hx. rewrite map_app, in_app_iff in Hx. simpl in Hx.
        rewrite Hfr2 by (intros ->; tauto). apply Hfr1. tauto.
      * intros p Hp Hi. rewrite in_app_iff in Hp. simpl in Hp.
        destruct (Position_eq_dec p pos) as [->|Hne]; [assumption|].
        unfold holds. rewrite Hm2 by assumption.
        apply Hcl1; intuition congruence.
      * intros p Hp. rewrite in_app_iff in Hp. simpl in Hp.
        rewrite Hm2 by (intros ->; tauto). apply Hcl2. tauto.
    + eexists. split; [reflexivity|]. unfold I, cleared. cbn [fst snd].
      auto.
  - unfold I, cleared. cbn [fst snd]. split; [assumption|].
    split; [reflexivity|]. split; [lia|]. split; [intros p []|reflexivity].
  - cbn [fst snd] in *. exists g', affected. auto.
Qed.

Lemma square_mget_range {A : Type} n (m : list (list A)) y x a :
  square n m -> mget m y x = Some a -> 0 <= y < n /\ 0 <= x < n.
Proof.
  intros [Hl Hr]. unfold mget.
  destruct (idx m y) as [row|] eqn:Er; [|discriminate]. intros H.
  pose proof (idx_Some_range _ _ _ Er). apply idx_Some_range in H.
  apply idx_In in Er. rewrite Forall_forall in Hr.
  rewrite (Hr _ Er) in H. lia.
Qed.

(** Two square grids with the same column [x] agree on that column's
    cells. *)
Lemma column_cells n (g g' : Grid) x y :
  square n g -> square n g' -> column g' x = column g x ->
  mget g' y x = mget g y x.
Proof.
  intros Hsq Hsq' Hcol.
  destruct (mget g y x) as [c|] eqn:E.
  - destruct (square_mget_range _ _ _ _ _ Hsq E) as [_ Hx].
    apply (column_mget _ _ _ _ _ Hsq' Hx). rewrite Hcol.
    now apply mget_column.
  - destruct (mget g' y x) as [c|] eqn:E'; [|reflexivity].
    destruct (square_mget_range _ _ _ _ _ Hsq' E') as [_ Hx].
    apply mget_column in E'. rewrite Hcol in E'.
    apply (column_mget _ _ _ _ _ Hsq Hx) in E'. congruence.
Qed.

(** C7.  A surgical removal followed by surgical gravity, for stage-
    cleared symbols and for cascades alike, returns on every square
    grid; every cell of a column that holds none of the removed
    positions is afterwards what it was before the call; and each
    affected column holds, below fresh symbols, its non-empty cells
    that were not removed, in their order from top to bottom. *)
Theorem surgical_edit_containment (grid : Grid) level forbidFreeGame w :
  square (len grid) grid ->
  (forall stageClearedSymbols,
      let columns :=
        map (fun stageSymbol => X (scPosition stageSymbol))
          stageClearedSymbols in
      exists g1 g2 newPositions w',
        RemoveStageClearedSymbolsSurgical grid stageClearedSymbols = Some g1
        /\ ApplyGravitySurgical g1 stageClearedSymbols level forbidFreeGame w
           = Some ((g2, newPositions), w')
        /\ cleared grid g1 (map scPosition stageClearedSymbols)
        /\ (forall x y, ~ In x columns -> mget g2 y x = mget grid y x)
        /\ (forall x, In x columns -> 0 <= x < len grid ->
                      compacted g1 g2 x))
  /\ (forall connections,
        exists g1 affectedPositions g2 newPositions w',
          RemoveConnectionsSurgical grid connections
          = Some (g1, affectedPositions)
          /\ ApplyGravitySurgicalForCascade g1 affectedPositions level
               forbidFreeGame w
             = Some ((g2, newPositions), w')
          /\ cleared grid g1 affectedPositions
          /\ (forall x y, ~ In x (map X affectedPositions) ->
                          mget g2 y x = mget grid y x)
          /\ (forall x, In x (map X affectedPositions) ->
                        0 <= x < len grid -> compacted g1 g2 x)).
Proof.
  intros Hsq. split.
  - intros scs columns.
    destruct (RemoveStageClearedSymbolsSurgical_spec grid scs Hsq)
      as (g1 & E1 & Hsq1 & Hfr1 & _ & Hcl).
    assert (Hl : len g1 = len grid) by (rewrite (proj1 Hsq1); reflexivity).
    rewrite <- Hl in Hsq1.
    destruct (gravityColumns_spec g1 columns level forbidFreeGame w Hsq1)
      as (g2 & np & w' & E2 & Hsq2 & _ & Hcomp & Hfr2 & _).
    exists g1, g2, np, w'. repeat (split; [assumption|]).
    rewrite Hl in *. split.
    + intros x y Hx.
      rewrite (column_cells _ g1 g2 x y Hsq1 Hsq2 (Hfr2 x Hx)).
      apply (column_cells _ grid g1 x y Hsq Hsq1). now apply Hfr1.
    + exact Hcomp.
  - intros connections.
    destruct (RemoveConnectionsSurgical_spec grid connections Hsq)
      as (g1 & aff & E1 & Hsq1 & Hfr1 & _ & Hcl).
    assert (Hl : len g1 = len grid) by (rewrite (proj1 Hsq1); reflexivity).
    rewrite <- Hl in Hsq1.
    destruct (gravityColumns_spec g1 (map X aff) level forbidFreeGame w Hsq1)
      as (g2 & np & w' & E2 & Hsq2 & _ & Hcomp & Hfr2 & _).
    exists g1, aff, g2, np, w'. repeat (split; [assumption|]).
    rewrite Hl in *. split.
    + intros x y Hx.
      rewrite (column_cells _ g1 g2 x y Hsq1 Hsq2 (Hfr2 x Hx)).
      apply (column_cells _ grid g1 x y Hsq Hsq1). now apply Hfr1.
    + exact Hcomp.
Qed.

(* ------------------------------------------------------------------ *)
(** ** Surgical loss *)

Lemma setGrid_same gs : setGrid gs (gsGrid gs) = gs.
Proof. now destruct gs. Qed.

Lemma len_zero_nil {A : Type} (l : list A) :
  (len l =? 0) = true -> l = [].
Proof.
  intros H. apply Z.eqb_eq in H. destruct l; [reflexivity|].
  unfold len in H. simpl in H. lia.
Qed.

(** One pass over the allowed positions: it returns, makes no service
    call, and a committed grid is square, free of connections, and
    differs from the test grid only at positions among [keys]. *)
Lemma tryPositions_spec n mode level (E : list Position) keys :
  forall mc (g : Grid) modified w,
    square (Z.of_nat n) g -> (forall p, In p keys -> In p E) ->
    exists r w',
      tryPositions keys mc mode level g modified w = Some (r, w')
      /\ calls w' = calls w
      /\ match r with
         | Some g' =>
             square (Z.of_nat n) g'
             /\ (forall p, ~ In p E ->
                           mget g' (Y p) (X p) = mget g (Y p) (X p))
             /\ FindRegularConnections g' level = Some []
         | None => True
         end.
Proof.
  induction keys as [|pos keys IH]; intros mc g modified w Hsq HE;
    cbn [tryPositions].
  - unfold ret. exists None, w. auto.
  - destruct (modified >=? mc); [unfold ret; exists None, w; auto|].
    assert (HE' : forall p, In p keys -> In p E)
      by (intros p Hp; apply HE; now right).
    destruct ((0 <=? X pos) && (X pos <? len g) && (0 <=? Y pos)
              && (Y pos <? match idx g 0 with
                           | Some row0 => len row0
                           | None => 0
                           end)) eqn:Ein;
      [|now apply IH].
    apply andb_true_iff in Ein as [Ein Hy2].
    apply andb_true_iff in Ein as [Ein Hy1].
    apply andb_true_iff in Ein as [Hx1 Hx2].
    apply Z.leb_le in Hx1, Hy1. apply Z.ltb_lt in Hx2, Hy2.
    rewrite (proj1 Hsq) in Hx2.
    assert (Hy3 : Y pos < Z.of_nat n).
    { destruct (idx g 0) as [row0|] eqn:E0; [|lia].
      apply idx_In in E0. destruct Hsq as [_ Hr].
      rewrite Forall_forall in Hr. now rewrite (Hr _ E0) in Hy2. }
    destruct (WeightedRandomSymbolWithControl_spec level
                (mode =? "freeSpins")%string w)
      as (symbol & w1 & E1 & _ & _ & Hc1).
    rewrite (bind_eq _ _ _ _ _ E1).
    destruct (square_mget _ g (Y pos) (X pos) Hsq) as [old Eo]; [lia|lia|].
    destruct (mset_defined g (Y pos) (X pos) symbol _ Eo) as [g1 Es].
    rewrite Es. unfold lift at 1. unfold bind at 1.
    pose proof (mset_square _ _ _ _ _ _ Es Hsq) as Hsq1.
    destruct (FindRegularConnections_total g1 level) as [conns Ec].
    { now rewrite (proj1 Hsq1). }
    rewrite Ec. unfold lift at 1. unfold bind at 1.
    assert (Hfr : forall p, ~ In p E ->
                    mget g1 (Y p) (X p) = mget g (Y p) (X p)).
    { intros p Hp. eapply mget_mset_other; eauto.
      destruct (Z.eq_dec (Y p) (Y pos)); [|tauto].
      destruct (Z.eq_dec (X p) (X pos)); [|tauto].
      exfalso. apply Hp. replace p with pos by (now apply position_eq).
      apply HE. now left. }
    destruct (len conns =? 0) eqn:El.
    + apply len_zero_nil in El. subst conns. unfold ret.
      exists (Some g1), w1. auto.
    + destruct (IH mc g1 (modified + 1) w1 Hsq1 HE')
        as (r & w' & Er & Hc & Hr).
      exists r, w'. split; [assumption|]. split; [congruence|].
      destruct r as [g'|]; [|exact I].
      destruct Hr as (Hsq' & Hfr' & Hf'). repeat split; try assumption.
      * apply Hsq'.
      * apply Hsq'.
      * intros p Hp. rewrite Hfr' by assumption. now apply Hfr.
Qed.

Lemma surgicalAttempts_spec attempts allowed maxMods gs level E :
  forall w,
    square (len (gsGrid gs)) (gsGrid gs) ->
    (forall p, In p allowed -> In p E) ->
    exists r,
      surgicalAttempts attempts allowed maxMods gs level w = Some r
      /\ (fst (fst r) = true ->
          FindRegularConnections (gsGrid (snd (fst r))) level = Some [])
      /\ calls (snd r) = calls w
      /\ snd (fst r) = setGrid gs (gsGrid (snd (fst r)))
      /\ square (len (gsGrid gs)) (gsGrid (snd (fst r)))
      /\ (forall p, ~ In p E ->
            mget (gsGrid (snd (fst r))) (Y p) (X p)
            = mget (gsGrid gs) (Y p) (X p))
      /\ (fst (fst r) = false -> snd (fst r) = gs).
Proof.
  induction attempts as [|k IH]; intros w Hsq HE; cbn [surgicalAttempts].
  - unfold ret. eexists. split; [reflexivity|]. cbn [fst snd].
    rewrite setGrid_same. repeat split; auto; try discriminate;
      apply Hsq.
  - destruct (rangeOrder_spec allowed w) as (order & w1 & E1 & Hp & Hc1).
    rewrite (bind_eq _ _ _ _ _ E1).
    destruct (tryPositions_spec (length (gsGrid gs)) (GameMode gs) level E
                order (Z.min maxMods (len allowed)) (gsGrid gs) 0 w1 Hsq)
      as (r & w2 & E2 & Hc2 & Hr).
    { intros p Hp'. apply HE. eapply Permutation_in; [symmetry|]; eauto. }
    rewrite (bind_eq _ _ _ _ _ E2). destruct r as [g'|].
    + unfold ret. eexists. split; [reflexivity|]. cbn [fst snd].
      destruct Hr as (Hsq' & Hfr & Hf).
      replace (gsGrid (setGrid gs g')) with g' by (now destruct gs).
      repeat split; auto; try congruence; try apply Hsq'.
    + destruct (IH w2 Hsq HE) as (r & Er & H).
      exists r. split; [assumption|].
      destruct H as (H1 & H2 & H3 & H4 & H5 & H6).
      split; [assumption|]. split; [congruence|]. auto.
Qed.

Lemma surgicalLoss_spec maxMods gs level newPositions w :
  square (len (gsGrid gs)) (gsGrid gs) ->
  exists r,
    surgicalLoss maxMods gs level newPositions w = Some r
    /\ lossOutcome gs level newPositions w r.
Proof.
  intros Hsq. unfold surgicalLoss.
  destruct (FindRegularConnections_total (gsGrid gs) level Hsq)
    as [conns Ec].
  rewrite Ec. unfold lift at 1. unfold bind at 1.
  destruct (len conns =? 0) eqn:El.
  - apply len_zero_nil in El. subst conns. unfold ret. eexists.
    split; [reflexivity|]. unfold lossOutcome. rewrite setGrid_same.
    repeat split; auto; apply Hsq.
  - destruct (surgicalAttempts_spec 50
                (nodup Position_eq_dec newPositions) maxMods gs level
                newPositions w Hsq)
      as ([[success gs'] w'] & E & H1 & H2 & H3 & H4 & H5 & H6);
      [intros p; apply nodup_In|].
    eexists. split; [exact E|]. unfold lossOutcome. cbn [fst snd] in *.
    tauto.
Qed.

(** C5.  On a square grid both surgical-loss functions return, and every
    cell at a position outside the new positions is afterwards what it
    was before the call, on success and on failure alike; on failure
    the game state is not changed at all. *)
Theorem surgical_loss_containment gs originalGrid stageClearedSymbols level
  newPositions w :
  square (len (gsGrid gs)) (gsGrid gs) ->
  (exists success gs' w',
      ApplySurgicalLoss gs originalGrid stageClearedSymbols level
        newPositions w = Some ((success, gs'), w')
      /\ (forall p, ~ In p newPositions ->
            mget (gsGrid gs') (Y p) (X p) = mget (gsGrid gs) (Y p) (X p))
      /\ (success = false -> gs' = gs))
  /\ (exists success gs' w',
        ApplySurgicalLossForCascade gs originalGrid newPositions level w
        = Some ((success, gs'), w')
        /\ (forall p, ~ In p newPositions ->
              mget (gsGrid gs') (Y p) (X p) = mget (gsGrid gs) (Y p) (X p))
        /\ (success = false -> gs' = gs)).
Proof.
  intros Hsq. split.
  - destruct (surgicalLoss_spec 3 gs level newPositions w Hsq)
      as ([[success gs'] w'] & E & _ & _ & _ & Hfr & Hfail & _).
    exists success, gs', w'. auto.
  - destruct (surgicalLoss_spec 4 gs level newPositions w Hsq)
      as ([[success gs'] w'] & E & _ & _ & _ & Hfr & Hfail & _).
    exists success, gs', w'. auto.
Qed.

Lemma sampleGrid_square : square (len sampleGrid) sampleGrid.
Proof. split; [reflexivity|]. repeat constructor. Qed.

Lemma surgical_loss_containment_witness :
  exists success gs' w',
    ApplySurgicalLoss sampleState sampleGrid sampleFound 1
      [mkPosition 3 0] sampleWorld = Some ((success, gs'), w')
    /\ (forall p, ~ In p [mkPosition 3 0] ->
          mget (gsGrid gs') (Y p) (X p) = mget sampleGrid (Y p) (X p))
    /\ (success = false -> gs' = sampleState).
Proof.
  exact (proj1 (surgical_loss_containment sampleState sampleGrid sampleFound
                  1 [mkPosition 3 0] sampleWorld sampleGrid_square)).
Defined.

Lemma surgical_edit_containment_witness :
  exists g1 g2 newPositions w',
    RemoveStageClearedSymbolsSurgical sampleGrid sampleFound = Some g1
    /\ ApplyGravitySurgical g1 sampleFound 1 false sampleWorld
       = Some ((g2, newPositions), w')
    /\ cleared sampleGrid g1 (map scPosition sampleFound)
    /\ (forall x y, ~ In x [3] -> mget g2 y x = mget sampleGrid y x)
    /\ (forall x, In x [3] -> 0 <= x < 4 -> compacted g1 g2 x).
Proof.
  exact (proj1 (surgical_edit_containment sampleGrid 1 false sampleWorld
                  sampleGrid_square) sampleFound).
Defined.

(* ------------------------------------------------------------------ *)
(** ** The cap on the free-spin trigger *)

(** Generation keeps the cap. *)
Lemma GenerateGrid_cap level forbidFreeGame w :
  exists grid w',
    GenerateGrid level forbidFreeGame w = Some (grid, w')
    /\ (freeGameCells grid <= 1)%nat.
Proof.
  destruct (GenerateGrid_spec level forbidFreeGame w)
    as (grid & w' & E & _ & H & _). eauto.
Qed.

(** Both surgical gravity functions keep the cap. *)
Lemma gravity_cap (grid : Grid) level forbidFreeGame w :
  square (len grid) grid -> (freeGameCells grid <= 1)%nat ->
  (forall stageClearedSymbols,
      exists g' newPositions w',
        ApplyGravitySurgical grid stageClearedSymbols level forbidFreeGame w
        = Some ((g', newPositions), w')
        /\ (freeGameCells g' <= 1)%nat)
  /\ (forall affectedPositions,
        exists g' newPositions w',
          ApplyGravitySurgicalForCascade grid affectedPositions level
            forbidFreeGame w
          = Some ((g', newPositions), w')
          /\ (freeGameCells g' <= 1)%nat).
Proof.
  intros Hsq Hcap. split.
  - intros scs. unfold ApplyGravitySurgical.
    destruct (gravityColumns_spec grid
                (map (fun s => X (scPosition s)) scs) level forbidFreeGame w
                Hsq) as (g' & np & w' & E & _ & H & _).
    exists g', np, w'. split; [assumption|lia].
  - intros aff. unfold ApplyGravitySurgicalForCascade.
    destruct (gravityColumns_spec grid (map X aff) level forbidFreeGame w
                Hsq) as (g' & np & w' & E & _ & H & _).
    exists g', np, w'. split; [assumption|lia].
Qed.

(** C4 (the code departs from the claim).  The redraw of
    [ApplySurgicalLoss] does not look for a trigger already on the
    grid: on [capState], whose grid shows one, redrawing the new
    position (0, 0) commits a grid that shows two; and the stage-cleared
    handler, called in base mode on a grid that shows none, replies
    with a grid that shows two. *)
Theorem ApplySurgicalLoss_exceeds_cap :
  (exists gs' w',
      ApplySurgicalLoss capState capGrid [] 1 [mkPosition 0 0] sampleWorld
      = Some ((true, gs'), w')
      /\ freeGameCells (gsGrid capState) = 1%nat
      /\ freeGameCells (gsGrid gs') = 2%nat)
  /\ (exists resp w',
        ProcessStageClearedHandler sampleServices refillRequest lateWorld
        = Some (mkHandled (Json resp) false, w')
        /\ GameMode (reqGameState refillRequest) = "base"
        /\ freeGameCells (gsGrid (reqGameState refillRequest)) = 0%nat
        /\ freeGameCells (gsGrid (pscGameState resp)) = 2%nat).
Proof.
  split.
  - eexists _, _. split; [vm_compute; reflexivity|]. split; reflexivity.
  - eexists _, _. split; [vm_compute; reflexivity|]. repeat split.
Qed.

(* ------------------------------------------------------------------ *)
(** ** Scans *)

Lemma ValidateGridDimensions_square grid level :
  ValidateGridDimensions grid level = true ->
  len grid = GetGridSize level /\ square (len grid) grid.
Proof.
  unfold ValidateGridDimensions.
  destruct (Z.eqb_spec (len grid) (GetGridSize level)) as [E|];
    [|discriminate]. cbn [negb]. intros H. split; [assumption|].
  split; [reflexivity|]. rewrite forallb_forall in H.
  apply Forall_forall. intros row Hrow. apply H, Z.eqb_eq in Hrow. lia.
Qed.

Lemma scan_total {St : Type} (grid : Grid)
  (cell : string -> Z -> Z -> St -> option St) (s : St) :
  square (len grid) grid ->
  (forall c x y acc, exists acc', cell c x y acc = Some acc') ->
  exists s',
    forUp (length grid) 0
      (fun y =>
         forUp (length grid) 0
           (fun x acc =>
              match mget grid y x with
              | Some c => cell c x y acc
              | None => None
              end))
      s = Some s'.
Proof.
  intros Hsq Hcell.
  destruct (forUp_total (fun _ => True) (length grid) 0
              (fun y =>
                 forUp (length grid) 0
                   (fun x acc =>
                      match mget grid y x with
                      | Some c => cell c x y acc
                      | None => None
                      end)) s) as (s' & E & _); [|exact I|eauto].
  intros y t Hy _.
  destruct (forUp_total (fun _ => True) (length grid) 0
              (fun x acc =>
                 match mget grid y x with
                 | Some c => cell c x y acc
                 | None => None
                 end) t) as (t' & E & _); [|exact I|eauto].
  intros x u Hx _.
  destruct (square_mget _ grid y x Hsq) as [c ->];
    [unfold len; lia|unfold len; lia|].
  destruct (Hcell c x y u) as [u' ->]. eauto.
Qed.

Lemma FindStageClearedSymbols_total grid level :
  square (len grid) grid ->
  exists found, FindStageClearedSymbols grid level = Some found.
Proof.
  intros Hsq. unfold FindStageClearedSymbols. apply scan_total; [assumption|].
  intros c x y acc. destruct (c =? GetStageClearedSymbol level)%string; eauto.
Qed.

Lemma CountFreeGameSymbols_total grid :
  square (len grid) grid ->
  exists count, CountFreeGameSymbols grid = Some count.
Proof.
  intros Hsq. unfold CountFreeGameSymbols. apply scan_total; [assumption|].
  intros c x y acc. destruct (c =? SymbolFreeGame)%string; eauto.
Qed.

(* ------------------------------------------------------------------ *)
(** ** ProcessStageClearedHandler *)

Lemma processedSymbols_total gs :
  square (len (gsGrid gs)) (gsGrid gs) ->
  exists found, processedSymbols gs = Some found.
Proof.
  intros Hsq. unfold processedSymbols.
  destruct (len (StageClearedSymbols gs) =? 0); [|eauto].
  now apply FindStageClearedSymbols_total.
Qed.

Lemma processedSymbols_step gs found w :
  processedSymbols gs = Some found ->
  (if len (StageClearedSymbols gs) =? 0
   then lift (FindStageClearedSymbols (gsGrid gs) (CurrentLevel gs))
   else ret (StageClearedSymbols gs)) w = Some (found, w).
Proof.
  unfold processedSymbols.
  destruct (len (StageClearedSymbols gs) =? 0); [now intros ->|].
  intros H. now inversion H.
Qed.

(** The first phase of the handler on a well-formed request: the
    processed symbols are removed and the affected columns refilled,
    leaving a grid of the same size; no service is called. *)
Lemma process_removal req w :
  wellFormed req ->
  let gs := reqGameState req in
  exists found g1 g2 newPositions w1,
    processedSymbols gs = Some found
    /\ RemoveStageClearedSymbolsSurgical (gsGrid gs) found = Some g1
    /\ ApplyGravitySurgical g1 found (CurrentLevel gs)
         (GameMode gs =? "freeSpins")%string w
       = Some ((g2, newPositions), w1)
    /\ square (GetGridSize (CurrentLevel gs)) g2
    /\ calls w1 = calls w.
Proof.
  intros [_ Hdim] gs. apply ValidateGridDimensions_square in Hdim.
  fold gs in Hdim. destruct Hdim as [Hlen Hsq].
  destruct (processedSymbols_total gs Hsq) as [found Ef].
  destruct (RemoveStageClearedSymbolsSurgical_spec (gsGrid gs) found Hsq)
    as (g1 & E1 & Hsq1 & _).
  assert (Hl : len g1 = len (gsGrid gs))
    by (rewrite (proj1 Hsq1); reflexivity).
  rewrite <- Hl in Hsq1.
  destruct (gravityColumns_spec g1
              (map (fun s => X (scPosition s)) found) (CurrentLevel gs)
              (GameMode gs =? "freeSpins")%string w Hsq1)
    as (g2 & np & w1 & E2 & Hsq2 & _ & _ & _ & Hc).
  exists found, g1, g2, np, w1. repeat (split; [assumption|]).
  split; [|assumption]. now rewrite Hl, Hlen in Hsq2.
Qed.

(** The handler on a request whose accumulated progress reaches the
    target: it regenerates the grid and replies at once. *)
Lemma ProcessStageClearedHandler_advance svc req w found :
  wellFormed req ->
  let gs := reqGameState req in
  let progress := wrap64 (StageProgress gs + len found) in
  let newLevel := AdvanceLevel (CurrentLevel gs) in
  processedSymbols gs = Some found ->
  StageProgressTarget <= progress ->
  exists grid w',
    ProcessStageClearedHandler svc req w
    = Some (mkHandled
              (Json (mkProcessStageClearedResponse "success" ""
                       (mkGameState (Bet gs) newLevel (GetGridSize newLevel)
                          grid (wrap64 (progress - StageProgressTarget))
                          (GameMode gs) (FreeSpins gs) (TotalWin gs)
                          (Cascading gs) (LastConnections gs)
                          (CascadeCount gs) [])
                       (len found) true (CurrentLevel gs) newLevel []
                       0%float))
              false, w')
    /\ square (GetGridSize newLevel) grid
    /\ (freeGameCells grid <= 1)%nat
    /\ calls w' = calls w.
Proof.
  intros Hwf gs progress newLevel Ef Hge.
  destruct (process_removal req w Hwf)
    as (found' & g1 & g2 & np & w1 & Ef' & E1 & E2 & Hsq2 & Hc1).
  fold gs in Ef', E1, E2, Hsq2. rewrite Ef in Ef'. inversion Ef'.
  subst found'. clear Ef'.
  destruct (GenerateGrid_spec newLevel false w1)
    as (grid & w' & Eg & Hsq & Hcap & _ & Hc2).
  exists grid, w'. split; [|split; [assumption|split; [assumption|]]];
    [|congruence].
  destruct Hwf as [Hacc Hdim]. unfold accepted in Hacc.
  unfold ProcessStageClearedHandler. fold gs in Hacc, Hdim |- *.
  rewrite Hacc, Hdim. cbn [negb].
  rewrite (bind_eq _ _ _ _ _ (processedSymbols_step gs found w Ef)).
  rewrite E1. unfold lift at 1. unfold bind at 1.
  rewrite (bind_eq _ _ _ _ _ E2). cbn [StageProgress setStageProgress setGrid].
  fold progress. destruct (Z.geb_spec progress StageProgressTarget); [|lia].
  fold newLevel. rewrite (bind_eq _ _ _ _ _ Eg). reflexivity.
Qed.


Lemma square_len {A : Type} n (m : list (list A)) :
  square n m -> square (len m) m.
Proof. intros H. now rewrite (proj1 H). Qed.




Lemma sampleRequest_wellFormed : wellFormed sampleRequest.
Proof. split; vm_compute; reflexivity. Qed.


(** C10.  When the accumulated progress of a well-formed request
    reaches the target, the handler replies right after regenerating
    the grid: the reply is a success with the advancement flag, it
    lists no connection, no service has been called, the pending
    stage-cleared symbols are cleared, and [TotalWin], [CascadeCount],
    [LastConnections] and [Cascading] are those of the request. *)
Theorem level_advance_replies_at_once svc req w found :
  wellFormed req ->
  let gs := reqGameState req in
  processedSymbols gs = Some found ->
  StageProgressTarget <= wrap64 (StageProgress gs + len found) ->
  exists resp w',
    ProcessStageClearedHandler svc req w
    = Some (mkHandled (Json resp) false, w')
    /\ pscStatus resp = "success"
    /\ pscLevelAdvanced resp = true
    /\ pscConnections resp = []
    /\ calls w' = calls w
    /\ StageClearedSymbols (pscGameState resp) = []
    /\ TotalWin (pscGameState resp) = TotalWin gs
    /\ CascadeCount (pscGameState resp) = CascadeCount gs
    /\ LastConnections (pscGameState resp) = LastConnections gs
    /\ Cascading (pscGameState resp) = Cascading gs.
Proof.
  intros Hwf gs Ef Hge.
  destruct (ProcessStageClearedHandler_advance svc req w found Hwf Ef Hge)
    as (grid & w' & E & _ & _ & Hc).
  eexists _, w'. split; [exact E|]. cbn. now repeat split.
Qed.

Lemma level_advance_replies_at_once_witness :
  exists resp w',
    ProcessStageClearedHandler sampleServices sampleRequest sampleWorld
    = Some (mkHandled (Json resp) false, w')
    /\ pscStatus resp = "success"
    /\ pscLevelAdvanced resp = true
    /\ pscConnections resp = []
    /\ calls w' = calls sampleWorld
    /\ StageClearedSymbols (pscGameState resp) = []
    /\ TotalWin (pscGameState resp) = TotalWin sampleState
    /\ CascadeCount (pscGameState resp) = CascadeCount sampleState
    /\ LastConnections (pscGameState resp) = LastConnections sampleState
    /\ Cascading (pscGameState resp) = Cascading sampleState.
Proof.
  apply (level_advance_replies_at_once sampleServices sampleRequest
           sampleWorld sampleFound sampleRequest_wellFormed).
  - vm_compute. reflexivity.
  - vm_compute. discriminate.
Defined.

(* ------------------------------------------------------------------ *)
(** ** CascadeHandler *)

(** Removal, gravity and detection of a cascade step return on a square
    grid, change nothing but the grid, keep it square, and call no
    service. *)
Lemma cascadeStep_spec gs w :
  square (len (gsGrid gs)) (gsGrid gs) ->
  exists gs1 affectedPositions newPositions connections w1,
    cascadeStep gs w
    = Some ((gs1, affectedPositions, newPositions, connections), w1)
    /\ gs1 = setGrid gs (gsGrid gs1)
    /\ square (len (gsGrid gs)) (gsGrid gs1)
    /\ calls w1 = calls w.
Proof.
  intros Hsq. unfold cascadeStep.
  assert (Hdetect :
    forall (g : Grid) (aff np : list Position) (conns : list Connection) u,
      square (len (gsGrid gs)) g -> calls u = calls w ->
      exists gs1 affectedPositions newPositions connections w1,
        (connections <-
           (if (CascadeCount (setGrid gs g) >=? 1) || (len conns =? 0)
            then lift (FindRegularConnections (gsGrid (setGrid gs g))
                         (CurrentLevel (setGrid gs g)))
            else ret conns) ;;
         ret (setGrid gs g, aff, np, connections)) u
        = Some ((gs1, affectedPositions, newPositions, connections), w1)
        /\ gs1 = setGrid gs (gsGrid gs1)
        /\ square (len (gsGrid gs)) (gsGrid gs1)
        /\ calls w1 = calls w).
  { intros g aff np conns u Hg Hu.
    destruct (FindRegularConnections_total g (CurrentLevel gs))
      as [found Ef]; [eapply square_len; eauto|].
    cbn [gsGrid CurrentLevel CascadeCount setGrid].
    destruct ((CascadeCount gs >=? 1) || (len conns =? 0)).
    - rewrite Ef. unfold lift, bind, ret.
      exists (setGrid gs g), aff, np, found, u.
      split; [reflexivity|]. split; [reflexivity|]. split; assumption.
    - unfold bind, ret. exists (setGrid gs g), aff, np, conns, u.
      split; [reflexivity|]. split; [reflexivity|]. split; assumption. }
  destruct ((CascadeCount gs >=? 1) && (0 <? len (LastConnections gs))).
  - destruct (RemoveConnectionsSurgical_spec (gsGrid gs)
                (LastConnections gs) Hsq) as (g1 & aff & -> & Hsq1 & _).
    rewrite !bind_assoc, bind_lift. cbv beta iota.
    destruct (gravityColumns_spec g1 (map X aff) (CurrentLevel gs)
                (GameMode gs =? "freeSpins")%string w
                (square_len _ _ Hsq1))
      as (g2 & np & w1 & E2 & Hsq2 & _ & _ & _ & Hc).
    unfold ApplyGravitySurgicalForCascade.
    rewrite bind_assoc, (bind_eq _ _ _ _ _ E2). cbv beta iota.
    rewrite bind_ret.
    apply (Hdetect g2 aff np [] w1); [|assumption].
    now rewrite (proj1 Hsq1) in Hsq2.
  - destruct (FindRegularConnections_total (gsGrid gs) (CurrentLevel gs) Hsq)
      as [conns ->].
    rewrite !bind_assoc, bind_lift.
    destruct (0 <? len conns).
    + destruct (gravityColumns_spec (gsGrid gs)
                  (map X (flat_map cPositions conns)) (CurrentLevel gs)
                  (GameMode gs =? "freeSpins")%string w Hsq)
        as (g2 & np & w1 & E2 & Hsq2 & _ & _ & _ & Hc).
      unfold ApplyGravitySurgicalForCascade.
      rewrite bind_assoc, (bind_eq _ _ _ _ _ E2). cbv beta iota.
      rewrite bind_ret.
      apply (Hdetect g2 _ np conns w1); assumption.
    + rewrite bind_ret. cbv beta iota.
      pose proof (Hdetect (gsGrid gs) [] [] conns w Hsq eq_refl) as H.
      rewrite setGrid_same in H. exact H.
Qed.

(* ------------------------------------------------------------------ *)
(** ** Reconciliation that cannot produce a loss *)

Lemma reconcile_exhausted {R : Type} svc req applyLoss gs connections
  totalWinnings rtp w gs' w' :
  0 < len connections ->
  lossPreferred svc req gs rtp totalWinnings ->
  applyLoss gs (afterServices req gs rtp totalWinnings w)
  = Some ((false, gs'), w') ->
  @reconcile R svc req applyLoss gs connections totalWinnings w
  = Some (inr (gs', connections, totalWinnings, true), w').
Proof.
  intros Hpos [Hrtp Hout] Hloss. unfold reconcile.
  apply Z.ltb_lt in Hpos. rewrite Hpos.
  unfold GetRTP at 1. unfold bind at 1. rewrite Hrtp.
  unfold GetOutcome at 1. unfold bind at 1. rewrite Hout.
  cbn [String.eqb Ascii.eqb Bool.eqb]. unfold afterServices in Hloss.
  rewrite (bind_eq _ _ _ _ _ Hloss). reflexivity.
Qed.

(** C6.  When the outcome service prefers a loss and the surgical loss
    gives up after its fifty attempts, the cascade handler and the
    stage-cleared handler both still reply with status "success", with
    [rngBypassed] set, and with the grid, the connections and the total
    winnings they had computed before reconciling. *)
Theorem reconciliation_fails_closed svc req w :
  wellFormed req ->
  let gs := reqGameState req in
  (forall gs1 affectedPositions newPositions connections w1 priced
          totalWinnings rtp gs2 w2,
      cascadeStep (setCascadeCount gs (wrap64 (CascadeCount gs + 1))) w
      = Some ((gs1, affectedPositions, newPositions, connections), w1) ->
      totalWinningsOf gs1 connections = (priced, totalWinnings) ->
      0 < len priced ->
      lossPreferred svc req gs1 rtp totalWinnings ->
      ApplySurgicalLossForCascade gs1 (gsGrid gs) newPositions
        (CurrentLevel gs1) (afterServices req gs1 rtp totalWinnings w1)
      = Some ((false, gs2), w2) ->
      exists resp,
        CascadeHandler svc req w = Some (mkHandled (Json resp) true, w2)
        /\ caStatus resp = "success"
        /\ gsGrid (caGameState resp) = gsGrid gs1
        /\ caConnections resp = priced
        /\ LastConnections (caGameState resp) = priced
        /\ TotalWin (caGameState resp) = totalWinnings)
  /\ (forall found g1 g2 newPositions w1 connections priced totalWinnings
             rtp gs2 w2,
        let progress := wrap64 (StageProgress gs + len found) in
        let gs1 :=
          setStageClearedSymbols
            (setStageProgress (setGrid gs g2) progress) [] in
        processedSymbols gs = Some found ->
        RemoveStageClearedSymbolsSurgical (gsGrid gs) found = Some g1 ->
        ApplyGravitySurgical g1 found (CurrentLevel gs)
          (GameMode gs =? "freeSpins")%string w
        = Some ((g2, newPositions), w1) ->
        progress < StageProgressTarget ->
        FindRegularConnections g2 (CurrentLevel gs) = Some connections ->
        totalWinningsOf gs1 connections = (priced, totalWinnings) ->
        0 < len priced ->
        lossPreferred svc req gs1 rtp totalWinnings ->
        ApplySurgicalLoss gs1 (gsGrid gs) found (CurrentLevel gs)
          newPositions (afterServices req gs1 rtp totalWinnings w1)
        = Some ((false, gs2), w2) ->
        exists resp,
          ProcessStageClearedHandler svc req w
          = Some (mkHandled (Json resp) true, w2)
          /\ pscStatus resp = "success"
          /\ gsGrid (pscGameState resp) = g2
          /\ pscConnections resp = priced
          /\ LastConnections (pscGameState resp) = priced
          /\ TotalWin (pscGameState resp) = totalWinnings).
Proof.
  intros [Hacc Hdim] gs. unfold accepted in Hacc. fold gs in Hacc, Hdim.
  pose proof (ValidateGridDimensions_square _ _ Hdim) as [Hlen Hsq].
  split.
  - intros gs1 aff np conns w1 priced total rtp gs2 w2 Estep Epay Hpos Hpref
      Eloss.
    destruct (cascadeStep_spec
                (setCascadeCount gs (wrap64 (CascadeCount gs + 1))) w Hsq)
      as (gs1' & aff' & np' & conns' & w1' & E' & Hset & Hsq1 & _).
    rewrite Estep in E'. inversion E'. subst gs1' aff' np' conns' w1'.
    clear E'. cbn [gsGrid setCascadeCount] in Hsq1.
    assert (Hsq1' : square (len (gsGrid gs1)) (gsGrid gs1))
      by (eapply square_len; eauto).
    destruct (surgicalLoss_spec 4 gs1 (CurrentLevel gs1) np
                (afterServices req gs1 rtp total w1) Hsq1')
      as (r & Er & Hr).
    unfold ApplySurgicalLossForCascade in Eloss. rewrite Eloss in Er.
    inversion Er. subst r. clear Er.
    destruct Hr as (_ & _ & _ & _ & Hfail & _).
    specialize (Hfail eq_refl). subst gs2.
    destruct (FindStageClearedSymbols_total (gsGrid gs1) (CurrentLevel gs1)
                Hsq1') as [scs Escs].
    unfold CascadeHandler. fold gs. rewrite Hacc, Hdim. cbn [negb].
    rewrite (bind_eq _ _ _ _ _ Estep). cbv beta iota. rewrite Epay.
    rewrite (bind_eq _ _ _ _ _
               (reconcile_exhausted svc req _ gs1 priced total rtp w1 gs1 w2
                  Hpos Hpref Eloss)).
    cbv beta iota. rewrite Escs, bind_lift.
    rewrite andb_false_r, bind_ret. unfold ret. eexists.
    split; [reflexivity|]. cbn. now repeat split.
  - intros found g1 g2 np w1 conns priced total rtp gs2 w2 progress gs1 Ef
      E1 E2 Hlt Ec Epay Hpos Hpref Eloss.
    destruct (process_removal req w (conj Hacc Hdim))
      as (found' & g1' & g2' & np' & w1' & Ef' & E1' & E2' & Hsq2 & _).
    fold gs in Ef', E1', E2', Hsq2. rewrite Ef in Ef'. inversion Ef'.
    subst found'. rewrite E1 in E1'. inversion E1'. subst g1'.
    rewrite E2 in E2'. inversion E2'. subst g2' np' w1'.
    clear Ef' E1' E2'.
    assert (Hsq1 : square (len (gsGrid gs1)) (gsGrid gs1))
      by (eapply square_len; exact Hsq2).
    destruct (surgicalLoss_spec 3 gs1 (CurrentLevel gs) np
                (afterServices req gs1 rtp total w1) Hsq1)
      as (r & Er & Hr).
    unfold ApplySurgicalLoss in Eloss. rewrite Eloss in Er.
    inversion Er. subst r. clear Er.
    destruct Hr as (_ & _ & _ & _ & Hfail & _).
    specialize (Hfail eq_refl). subst gs2.
    unfold ProcessStageClearedHandler. fold gs. rewrite Hacc, Hdim.
    cbn [negb].
    rewrite (bind_eq _ _ _ _ _ (processedSymbols_step gs found w Ef)).
    rewrite E1, bind_lift. rewrite (bind_eq _ _ _ _ _ E2).
    cbn [StageProgress setStageProgress setGrid]. fold progress.
    destruct (Z.geb_spec progress StageProgressTarget); [lia|].
    fold gs1. change (gsGrid gs1) with g2.
    change (CurrentLevel gs1) with (CurrentLevel gs).
    rewrite Ec, bind_lift. rewrite Epay.
    rewrite (bind_eq _ _ _ _ _
               (reconcile_exhausted svc req _ gs1 priced total rtp w1 gs1 w2
                  Hpos Hpref Eloss)).
    unfold ret. eexists. split; [reflexivity|]. cbn. now repeat split.
Qed.

(** Evaluation of a closed computation whose result is not yet known. *)
Ltac run :=
  match goal with
  | |- ?l = ?r =>
      let v := eval vm_compute in l in
      unify r v; vm_compute; reflexivity
  end.

Lemma fullRequest_wellFormed : wellFormed fullRequest.
Proof. split; vm_compute; reflexivity. Qed.

Lemma stuckRequest_wellFormed : wellFormed stuckRequest.
Proof. split; vm_compute; reflexivity. Qed.

Lemma reconciliation_fails_closed_witness :
  (exists resp w',
      CascadeHandler sampleServices fullRequest sampleWorld
      = Some (mkHandled (Json resp) true, w')
      /\ caStatus resp = "success"
      /\ gsGrid (caGameState resp) = fullGrid
      /\ length (caConnections resp) = 1%nat
      /\ LastConnections (caGameState resp) = caConnections resp
      /\ TotalWin (caGameState resp) = 0.8%float)
  /\ (exists resp w',
        ProcessStageClearedHandler sampleServices stuckRequest sampleWorld
        = Some (mkHandled (Json resp) true, w')
        /\ pscStatus resp = "success"
        /\ length (pscConnections resp) = 1%nat
        /\ LastConnections (pscGameState resp) = pscConnections resp
        /\ TotalWin (pscGameState resp) = 0.2%float).
Proof.
  split.
  - edestruct (proj1 (reconciliation_fails_closed sampleServices fullRequest
                        sampleWorld fullRequest_wellFormed))
      as (resp & E & Hs & Hg & Hc & Hl & Ht).
    + run.
    + run.
    + reflexivity.
    + split; reflexivity.
    + run.
    + eexists resp, _. split; [exact E|]. rewrite Hs, Hg, Hc, Hl, Ht.
      repeat split.
  - edestruct (proj2 (reconciliation_fails_closed sampleServices stuckRequest
                        sampleWorld stuckRequest_wellFormed))
      as (resp & E & Hs & Hg & Hc & Hl & Ht).
    + run.
    + run.
    + run.
    + vm_compute. reflexivity.
    + run.
    + run.
    + reflexivity.
    + split; reflexivity.
    + run.
    + eexists resp, _. split; [exact E|]. rewrite Hs, Hc, Hl, Ht.
      repeat split.
Defined.

(* ------------------------------------------------------------------ *)
(** ** SpinHandler *)

(** The free-spin trigger leaves the bet alone. *)
Lemma triggerFreeSpins_bet gs w gs' w' :
  triggerFreeSpins gs w = Some (gs', w') -> Bet gs' = Bet gs.
Proof.
  unfold triggerFreeSpins. intros H. mstep H.
  destruct (_ && _) in H.
  - mstep H. unfold ret in H. injection H as <- <-. reflexivity.
  - unfold ret in H. injection H as <- <-. reflexivity.
Qed.

Ltac spin_finish H :=
  let E := fresh "E" in
  let gs := fresh "gs" in
  let w := fresh "w" in
  apply bind_Some in H as (gs & w & E & H);
  apply triggerFreeSpins_bet in E;
  unfold ret in H; injection H as <- <-;
  cbn [spStatus spTotalCost spGameState];
  split; [reflexivity|]; split; [reflexivity|];
  repeat match goal with
         | |- context [if ?c then _ else _] => destruct c
         end;
  cbn; rewrite E; cbn; assumption.

(** Every successful reply of the spin handler: the cost is read off
    the game mode of the returned state, that is, after the trigger and
    the countdown; the returned bet is the request's, with the
    multiplier of the table, unless level 0 had the state replaced. *)
Lemma SpinHandler_reply svc req w resp w' :
  SpinHandler svc req w = Some (Json resp, w') ->
  let gs := reqGameState req in
  let amount := if CurrentLevel gs =? 0 then 0%float else Amount (Bet gs) in
  spStatus resp = "success"
  /\ spTotalCost resp
     = (if (GameMode (spGameState resp) =? "freeSpins")%string then 0%float
        else Amount (Bet (spGameState resp)))
  /\ Bet (spGameState resp)
     = mkBet amount
         match lookupF BetAmountToMultiplier amount with
         | Some m => m
         | None => 0
         end.
Proof.
  unfold SpinHandler. intros H.
  destruct (validateRequest _ _ _ _ _); [discriminate|].
  cbv zeta in H |- *.
  set (gs1 := if CurrentLevel (reqGameState req) =? 0
              then InitializeGameState else reqGameState req) in H.
  set (gs2 := if String.eqb (GameMode gs1) "" then setGameMode gs1 "base"
              else gs1) in H.
  set (gs3 := if negb (GridSize gs2 =? GetGridSize (CurrentLevel gs2))
              then setGridSize gs2 (GetGridSize (CurrentLevel gs2))
              else gs2) in H.
  set (gs4 := setBetMultiplier gs3 _) in H.
  set (amount := if CurrentLevel (reqGameState req) =? 0 then 0%float
                 else Amount (Bet (reqGameState req))).
  assert (Hbet : Bet gs4
                 = mkBet amount
                     match lookupF BetAmountToMultiplier amount with
                     | Some m => m
                     | None => 0
                     end).
  { assert (H3 : Amount (Bet gs3) = amount).
    { subst gs3 gs2 gs1 amount.
      destruct (CurrentLevel (reqGameState req) =? 0);
        destruct (String.eqb _ ""); destruct (negb _); reflexivity. }
    subst gs4. cbn. rewrite H3. reflexivity. }
  clearbody gs4. clear gs3 gs2 gs1.
  mstep H. mstep H. mlift E0. mstep H. mlift E1.
  cbn [gsGrid CurrentLevel setStageClearedSymbols setGrid] in H.
  destruct (totalWinningsOf _ _) as [priced totalWinnings].
  destruct (0 <? len priced).
  - mstep H. destruct a2 as [rtp|]; [|discriminate].
    mstep H. destruct a2 as [prefOutcome|]; [|discriminate].
    destruct (String.eqb prefOutcome "loss").
    + mstep H. mstep H. spin_finish H.
    + spin_finish H.
  - spin_finish H.
Qed.

(** In free-spins mode the trigger changes nothing. *)
Lemma triggerFreeSpins_freeSpins gs w gs' w' :
  GameMode gs = "freeSpins" ->
  triggerFreeSpins gs w = Some (gs', w') -> gs' = gs.
Proof.
  unfold triggerFreeSpins. intros Hm H. mstep H. rewrite Hm in H.
  cbn in H. unfold ret in H. now injection H as <- <-.
Qed.

(** The spin that uses up the last awarded free spin is charged the
    bet, whatever is drawn and whatever the services answer. *)
Lemma last_free_spin_charged svc req w resp w' :
  let gs := reqGameState req in
  CurrentLevel gs <> 0 ->
  GameMode gs = "freeSpins" ->
  Remaining (FreeSpins gs) = 1 ->
  SpinHandler svc req w = Some (Json resp, w') ->
  spTotalCost resp = Amount (Bet gs)
  /\ GameMode (spGameState resp) = "base".
Proof.
  intros gs Hlevel Hmode Hrem H.
  destruct (SpinHandler_reply _ _ _ _ _ H) as (_ & Hcost & Hbet).
  fold gs in Hbet. apply Z.eqb_neq in Hlevel. rewrite Hlevel in Hbet.
  assert (Hbase : GameMode (spGameState resp) = "base").
  { clear Hcost Hbet. unfold SpinHandler in H.
    destruct (validateRequest _ _ _ _ _); [discriminate|].
    cbv zeta in H. fold gs in H. rewrite Hlevel, Hmode in H.
    cbn [String.eqb Ascii.eqb Bool.eqb] in H.
    set (gs3 := if negb (GridSize gs =? GetGridSize (CurrentLevel gs))
                then setGridSize gs (GetGridSize (CurrentLevel gs))
                else gs) in H.
    set (gs4 := setBetMultiplier gs3 _) in H.
    assert (H4 : GameMode gs4 = "freeSpins"
                 /\ Remaining (FreeSpins gs4) = 1).
    { subst gs4 gs3. destruct (negb _); cbn; auto. }
    destruct H4 as [Hm4 Hr4]. clearbody gs4. clear gs3.
    mstep H. mstep H. mlift E0. mstep H. mlift E1.
    cbn [gsGrid CurrentLevel setStageClearedSymbols setGrid] in H.
    destruct (totalWinningsOf _ _) as [priced totalWinnings].
    assert (Hlast : forall gs0 (k : GameState -> SpinResponse) u,
               GameMode gs0 = "freeSpins" ->
               Remaining (FreeSpins gs0) = 1 ->
               (gs' <- triggerFreeSpins gs0 ;;
                ret (Json (k gs'))) u = Some (Json resp, w') ->
               exists gs', gs' = gs0 /\ resp = k gs').
    { intros gs0 k u Hm Hr Hk. mstep Hk.
      apply (triggerFreeSpins_freeSpins _ _ _ _ Hm) in E2. subst.
      unfold ret in Hk. injection Hk as <- <-. eauto. }
    assert (Hend : forall gs0 : GameState,
               GameMode gs0 = "freeSpins" ->
               Remaining (FreeSpins gs0) = 1 ->
               GameMode
                 (if String.eqb (GameMode gs0) "freeSpins" then
                    if Remaining
                         (FreeSpins
                            (setFreeSpins gs0
                               (mkFreeSpins
                                  (wrap64 (Remaining (FreeSpins gs0) - 1))
                                  (TotalAwarded (FreeSpins gs0))
                                  (fsMultiplier (FreeSpins gs0))))) <=? 0
                    then
                      setFreeSpins
                        (setGameMode
                           (setFreeSpins gs0
                              (mkFreeSpins
                                 (wrap64 (Remaining (FreeSpins gs0) - 1))
                                 (TotalAwarded (FreeSpins gs0))
                                 (fsMultiplier (FreeSpins gs0)))) "base")
                        (mkFreeSpins 0 0 1.0)
                    else
                      setFreeSpins gs0
                        (mkFreeSpins
                           (wrap64 (Remaining (FreeSpins gs0) - 1))
                           (TotalAwarded (FreeSpins gs0))
                           (fsMultiplier (FreeSpins gs0)))
                  else gs0) = "base").
    { intros gs0 Hm Hr. rewrite Hm, Hr. reflexivity. }
    destruct (0 <? len priced).
    - mstep H. destruct a2 as [rtp|]; [|discriminate].
      mstep H. destruct a2 as [prefOutcome|]; [|discriminate].
      destruct (String.eqb prefOutcome "loss").
      + mstep H. mstep H.
        apply Hlast in H as (gs' & -> & ->); [|assumption..].
        cbn [spGameState]. apply Hend; assumption.
      + apply Hlast in H as (gs' & -> & ->); [|assumption..].
        cbn [spGameState]. apply Hend; assumption.
    - apply Hlast in H as (gs' & -> & ->); [|assumption..].
      cbn [spGameState]. apply Hend; assumption. }
  split; [|assumption]. rewrite Hcost, Hbase, Hbet. reflexivity.
Qed.

(** C8 (the code departs from the claim).  The cost is taken from the
    game mode after the free-spin counters have been updated: the last
    awarded free spin, played in free-spins mode, is charged the bet,
    and a base-mode spin whose grid shows the trigger is charged
    nothing. *)
Theorem spin_cost_follows_updated_mode :
  (exists resp w',
      SpinHandler winServices lastFreeSpinRequest zeroWorld
      = Some (Json resp, w')
      /\ GameMode (reqGameState lastFreeSpinRequest) = "freeSpins"
      /\ spTotalCost resp = 0.5%float)
  /\ (exists resp w',
        SpinHandler winServices baseSpinRequest sampleWorld
        = Some (Json resp, w')
        /\ GameMode (reqGameState baseSpinRequest) = "base"
        /\ spTotalCost resp = 0%float).
Proof.
  split; eexists _, _; (split; [run|split; reflexivity]).
Qed.

(** A request whose bet amount is not one of the five allowed values is
    answered with status 400 by each handler, and the world is left as
    it was: nothing was drawn and no service was called. *)
Lemma invalid_bet_rejected svc req w :
  isValidBetAmount (Amount (Bet (reqGameState req))) = false ->
  exists message,
    SpinHandler svc req w = Some (ErrorJson StatusBadRequest message, w)
    /\ ProcessStageClearedHandler svc req w
       = Some (mkHandled (ErrorJson StatusBadRequest message) false, w)
    /\ CascadeHandler svc req w
       = Some (mkHandled (ErrorJson StatusBadRequest message) false, w).
Proof.
  intros Hbad.
  unfold SpinHandler, ProcessStageClearedHandler, CascadeHandler.
  destruct (validateRequest (ClientID req) (GameID req) (PlayerID req)
              (BetID req) (Amount (Bet (reqGameState req)))) as [err|] eqn:E.
  - exists err. repeat split.
  - exfalso. unfold validateRequest in E. rewrite Hbad in E.
    destruct (ClientID req =? "")%string; [discriminate|].
    destruct (GameID req =? "")%string; [discriminate|].
    destruct (PlayerID req =? "")%string; [discriminate|].
    destruct (BetID req =? "")%string; discriminate.
Qed.

(** An allowed bet amount has a multiplier in the table, and it is the
    corresponding one. *)
Lemma allowed_bet_multiplier amount :
  isValidBetAmount amount = true ->
  exists m,
    lookupF BetAmountToMultiplier amount = Some m
    /\ ((PrimFloat.eqb amount 0.1 = true /\ m = 1)
        \/ (PrimFloat.eqb amount 0.2 = true /\ m = 2)
        \/ (PrimFloat.eqb amount 0.3 = true /\ m = 3)
        \/ (PrimFloat.eqb amount 0.5 = true /\ m = 5)
        \/ (PrimFloat.eqb amount 1.0 = true /\ m = 10)).
Proof.
  unfold isValidBetAmount, BetAmountToMultiplier. cbn [existsb lookupF].
  destruct (PrimFloat.eqb amount 0.1); [intros _; eexists; split;
    [reflexivity|tauto]|].
  destruct (PrimFloat.eqb amount 0.2); [intros _; eexists; split;
    [reflexivity|tauto]|].
  destruct (PrimFloat.eqb amount 0.3); [intros _; eexists; split;
    [reflexivity|tauto]|].
  destruct (PrimFloat.eqb amount 0.5); [intros _; eexists; split;
    [reflexivity|tauto]|].
  destruct (PrimFloat.eqb amount 1.0); [intros _; eexists; split;
    [reflexivity|tauto]|].
  discriminate.
Qed.

(** C9 (the code departs from the claim).  A first spin, at level 0,
    passes validation with the allowed bet 0.5, whose multiplier is 5;
    the default initialization then replaces the whole game state, bet
    included, so the multiplier is looked up for amount 0 and the game
    state is assigned multiplier 0. *)
Theorem new_game_discards_validated_bet :
  accepted newGameRequest
  /\ lookupF BetAmountToMultiplier
       (Amount (Bet (reqGameState newGameRequest))) = Some 5
  /\ exists resp w',
       SpinHandler winServices newGameRequest zeroWorld
       = Some (Json resp, w')
       /\ Multiplier (Bet (spGameState resp)) = 0
       /\ Amount (Bet (spGameState resp)) = 0%float
       /\ spTotalCost resp = 0%float.
Proof.
  split; [vm_compute; reflexivity|]. split; [reflexivity|].
  eexists _, _. split; [run|]. repeat split.
Qed.

(* ------------------------------------------------------------------ *)
(** ** Payouts *)








(* ------------------------------------------------------------------ *)
(** ** The connection finder misses nothing *)

Lemma forUp_inv_at {St : Type} (I : Z -> St -> Prop) n :
  forall lo (body : Z -> St -> option St) s s',
    (forall i t t',
        lo <= i < lo + Z.of_nat n -> I i t -> body i t = Some t' ->
        I (i + 1) t') ->
    I lo s -> forUp n lo body s = Some s' -> I (lo + Z.of_nat n) s'.
Proof.
  induction n as [|n IH]; intros lo body s s' Hbody Hs; simpl forUp.
  - intros H. inversion H. subst. now replace (lo + Z.of_nat 0) with lo by lia.
  - destruct (body lo s) as [t|] eqn:E; [|discriminate]. intros H.
    replace (lo + Z.of_nat (S n)) with (lo + 1 + Z.of_nat n) by lia.
    apply (IH (lo + 1) body t); [|apply (Hbody lo s t); [lia|assumption..]|
                                  assumption].
    intros i u u' Hi. apply Hbody. lia.
Qed.

Lemma component_start_holds grid s a b :
  component grid s a b -> inside (len grid) a /\ holds grid a s.
Proof. induction 1; auto. Qed.

Lemma component_trans grid s a b c :
  component grid s a b -> component grid s b c -> component grid s a c.
Proof.
  intros Hab Hbc. induction Hbc as [|p q Hp IH Ha Hi Hh]; [assumption|].
  eapply component_step; eauto.
Qed.

Lemma component_sym grid s a b :
  component grid s a b -> component grid s b a.
Proof.
  induction 1 as [|p q Hp IH Ha Hi Hh]; [now constructor|].
  apply component_trans with p; [|assumption].
  apply component_holds in Hp as [Hip Hhp].
  apply component_step with q; [now constructor|now apply adjacent_sym|
                                 assumption..].
Qed.

(** Closed marks contain the whole component of a marked cell. *)
Lemma closedMarks_component grid V s p q :
  closedMarks grid V -> marked V p -> component grid s p q -> marked V q.
Proof.
  intros Hcl Hp. induction 1 as [|a b Ha IH Hadj Hi Hh]; [assumption|].
  apply component_holds in Ha as [Hia Hha].
  apply (Hcl a b IH Hia Hadj Hi). unfold holds in *. congruence.
Qed.

Lemma row_major_unique n x y p :
  0 <= x < n -> 0 <= X p < n -> Y p * n + X p = y * n + x ->
  p = mkPosition x y.
Proof.
  intros Hx Hp H. assert (Y p = y) by nia.
  apply position_eq; simpl; nia.
Qed.

Lemma findCell_cover grid level y x st st' :
  0 <= y < len grid -> 0 <= x < len grid ->
  coverInv grid level (y * len grid + x) st ->
  findCell grid level y x st = Some st' ->
  coverInv grid level (y * len grid + x + 1) st'.
Proof.
  intros Hy Hx (Hfin & Hmk & Hcm & Hnd & Hsc) E.
  pose proof (findCell_inv _ _ _ _ _ _ Hy Hx Hfin E) as Hfin'.
  destruct st as [visited connections]. simpl in Hmk, Hcm, Hnd, Hsc.
  unfold findCell in E.
  assert (Hnext :
    forall V : list (list bool),
      (forall p, marked visited p -> marked V p) ->
      (forall g, mget grid y x = Some g -> IsRegularBirdSymbol g = true ->
                 marked V (mkPosition x y)) ->
      forall p g,
        inside (len grid) p -> Y p * len grid + X p < y * len grid + x + 1 ->
        holds grid p g -> IsRegularBirdSymbol g = true -> marked V p).
  { intros V Hmono Hcell p g Hi Hk Hh Hr.
    destruct (Z.eq_dec (Y p * len grid + X p) (y * len grid + x)) as [Ek|Nk].
    - apply row_major_unique in Ek; [|lia|apply Hi]. subst p.
      apply (Hcell g); assumption.
    - apply Hmono. apply (Hsc p g); auto. lia. }
  destruct (mget visited y x) as [[|]|] eqn:Ev; [| |discriminate].
  { inversion E. subst st'. repeat (split; [assumption|]). simpl.
    apply Hnext; [auto|]. intros _ _ _. exact Ev. }
  destruct (mget grid y x) as [g|] eqn:Eg; [|discriminate].
  destruct (IsRegularBirdSymbol g) eqn:Er.
  2:{ inversion E. subst st'. repeat (split; [assumption|]). simpl.
      apply Hnext; [auto|]. intros g' Hg'. inversion Hg'. congruence. }
  destruct (findConnectedPositions grid x y g visited) as [[P V]|] eqn:Ef;
    [|discriminate].
  assert (Hi : inside (len grid) (mkPosition x y)) by (split; simpl; lia).
  assert (Hf : ~ marked visited (mkPosition x y))
    by (unfold marked; simpl; congruence).
  destruct Hfin as [Hcl Hall]. simpl in Hcl, Hall.
  destruct
    (findConnectedPositions_component grid g (mkPosition x y) visited Er Hi
       Eg Hf P V Hcl Ef) as (HndP & Hcomp & Hmarks).
  assert (Hstart : In (mkPosition x y) P)
    by (apply Hcomp; now constructor).
  assert (Hfresh : forall p, In p P -> ~ marked visited p).
  { intros p Hp Hm. apply Hf. apply Hcomp, component_sym in Hp.
    exact (closedMarks_component _ _ _ _ _ Hcl Hm Hp). }
  assert (Hsmall :
    forall p, In p P -> len P < GetMinConnection level ->
              ~ componentAtLeast grid g p (GetMinConnection level)).
  { intros p Hp Hlt (l & Hl & Hin & Hge).
    assert (Hle : (length l <= length P)%nat).
    { apply NoDup_incl_length; [assumption|]. intros q Hq.
      apply Hcomp. apply component_trans with p; [now apply Hcomp|auto]. }
    unfold len in *. lia. }
  assert (Hmarked :
    forall cs : list Connection,
      (forall c, In c connections -> In c cs) ->
      ((len P >=? GetMinConnection level) = true ->
       exists c, In c cs /\ cSymbol c = g /\ cPositions c = P) ->
      forall p,
        marked V p ->
        inside (len grid) p
        /\ exists g0,
             holds grid p g0 /\ IsRegularBirdSymbol g0 = true
             /\ ((exists c, In c cs /\ cSymbol c = g0 /\ In p (cPositions c))
                 \/ ~ componentAtLeast grid g0 p (GetMinConnection level))).
  { intros cs Hsub Hnew p Hp. apply Hmarks in Hp as [Hp|Hp].
    - destruct (Hmk p Hp) as (Hip & g0 & Hh & Hr & [(c & Hc & Hs & Hpc)|Hn]).
      + split; [assumption|]. exists g0. repeat (split; [assumption|]).
        left. exists c. auto.
      + split; [assumption|]. exists g0. auto.
    - pose proof (proj1 (Hcomp p) Hp) as Hc.
      apply component_holds in Hc as [Hip Hh]. split; [assumption|].
      exists g. repeat (split; [assumption|]).
      destruct (len P >=? GetMinConnection level) eqn:Em.
      + left. destruct (Hnew eq_refl) as (c & Hc & Hs & HP).
        exists c. rewrite HP. auto.
      + right. apply Hsmall; [assumption|].
        destruct (Z.geb_spec (len P) (GetMinConnection level));
          [discriminate|lia]. }
  assert (Hscan :
    forall p g0,
      inside (len grid) p -> Y p * len grid + X p < y * len grid + x + 1 ->
      holds grid p g0 -> IsRegularBirdSymbol g0 = true -> marked V p).
  { apply Hnext.
    - intros p Hp. apply Hmarks. now left.
    - intros _ _ _. apply Hmarks. now right. }
  destruct (len P >=? GetMinConnection level) eqn:Em; inversion E; subst st';
    (split; [assumption|]); simpl.
  - split; [|split; [|split]].
    + apply Hmarked.
      * intros c Hc. apply in_app_iff. now left.
      * intros _. eexists. split; [apply in_app_iff; right; now left|].
        split; reflexivity.
    + intros c p Hc Hp. apply Hmarks.
      apply in_app_iff in Hc as [Hc|[<-|[]]]; [left; eauto|now right].
    + rewrite flat_map_app. simpl. rewrite app_nil_r.
      apply NoDup_app; [assumption|assumption|].
      intros p Hp HpP. apply (Hfresh p HpP).
      apply in_flat_map in Hp as (c & Hc & Hpc). eauto.
    + assumption.
  - split; [|split; [|split]].
    + apply Hmarked; [auto|discriminate].
    + intros c p Hc Hp. apply Hmarks. left. eauto.
    + assumption.
    + assumption.
Qed.

(** At the end of the scan every bird cell is marked, and the
    connections are the components that are large enough, each cell
    listed once. *)
Lemma FindRegularConnections_cover grid level conns :
  FindRegularConnections grid level = Some conns ->
  exists V, coverInv grid level (len grid * len grid) (V, conns).
Proof.
  unfold FindRegularConnections.
  destruct (forUp _ _ _ _) as [[V cs]|] eqn:E; [|discriminate].
  intros H. inversion H. subst cs. exists V.
  apply (forUp_inv_at (fun y => coverInv grid level (y * len grid))) in E.
  - replace (len grid * len grid) with ((0 + Z.of_nat (length grid)) * len grid)
      by (unfold len; lia). exact E.
  - intros y st st' Hy Hst Ey.
    apply (forUp_inv_at
             (fun x => coverInv grid level (y * len grid + x))) in Ey.
    + replace ((y + 1) * len grid)
        with (y * len grid + (0 + Z.of_nat (length grid)))
        by (unfold len; lia). exact Ey.
    + intros x t t' Hx Ht Et.
      replace (y * len grid + (x + 1)) with (y * len grid + x + 1) by lia.
      apply (findCell_cover grid level y x t t'); auto; unfold len; lia.
    + now replace (y * len grid + 0) with (y * len grid) by lia.
  - split; [|split; [|split; [|split]]]; simpl.
    + split; simpl; [|constructor].
      intros p q Hp. now apply marked_repeat in Hp.
    + intros p Hp. now apply marked_repeat in Hp.
    + intros c p [].
    + constructor.
    + intros p g [Hxp Hyp] Hk. nia.
Qed.

Lemma GetMinConnection_pos level : 0 < GetMinConnection level.
Proof.
  unfold GetMinConnection. destruct (level =? Level1); [reflexivity|].
  destruct (level =? Level2); [reflexivity|].
  destruct (level =? Level3); reflexivity.
Qed.

(** A component that is large enough is among the connections. *)
Lemma large_component_found grid level conns p g :
  square (len grid) grid ->
  FindRegularConnections grid level = Some conns ->
  holds grid p g -> IsRegularBirdSymbol g = true ->
  componentAtLeast grid g p (GetMinConnection level) ->
  exists c, In c conns /\ cSymbol c = g /\ In p (cPositions c).
Proof.
  intros Hsq E Hh Hr Hbig.
  destruct (FindRegularConnections_cover _ _ _ E)
    as (V & _ & Hmk & _ & _ & Hsc). simpl in Hmk, Hsc.
  pose proof (square_mget_range _ _ _ _ _ Hsq Hh) as [Hy Hx].
  assert (Hm : marked V p).
  { apply (Hsc p g); [split; assumption| |assumption..]. nia. }
  destruct (Hmk p Hm) as (_ & g0 & Hh0 & _ & [Hc|Hn]).
  - unfold holds in *. replace g with g0 by congruence. exact Hc.
  - exfalso. apply Hn. unfold holds in *. replace g0 with g by congruence.
    exact Hbig.
Qed.

(** X1.  On a square grid [FindRegularConnections] returns, and it
    misses no win: every cell that holds a regular bird symbol and
    whose 4-connected component of that symbol has at least the
    level's minimum number of cells is listed in a returned connection
    of that symbol. *)
Theorem FindRegularConnections_complete grid level :
  square (len grid) grid ->
  exists conns,
    FindRegularConnections grid level = Some conns
    /\ forall p g,
         holds grid p g -> IsRegularBirdSymbol g = true ->
         componentAtLeast grid g p (GetMinConnection level) ->
         exists c, In c conns /\ cSymbol c = g /\ In p (cPositions c).
Proof.
  intros Hsq. destruct (FindRegularConnections_total grid level Hsq)
    as [conns E]. exists conns. split; [assumption|].
  intros p g. now apply large_component_found.
Qed.

Lemma FindRegularConnections_complete_witness :
  exists conns c,
    FindRegularConnections sampleGrid 1 = Some conns
    /\ In c conns /\ cSymbol c = "purple_owl"
    /\ In (mkPosition 0 2) (cPositions c).
Proof.
  destruct (FindRegularConnections_complete sampleGrid 1 sampleGrid_square)
    as (conns & E & H).
  destruct (H (mkPosition 0 2) "purple_owl") as (c & Hc & Hs & Hp).
  - reflexivity.
  - reflexivity.
  - exists [mkPosition 0 2; mkPosition 0 1; mkPosition 0 0; mkPosition 1 0].
    split; [|split; [|vm_compute; discriminate]].
    + repeat constructor; simpl; intuition discriminate.
    + assert (H2 : component sampleGrid "purple_owl" (mkPosition 0 2)
                     (mkPosition 0 2)).
      { apply component_start; [unfold inside, len; simpl; lia|reflexivity]. }
      assert (H1 : component sampleGrid "purple_owl" (mkPosition 0 2)
                     (mkPosition 0 1)).
      { apply component_step with (p := mkPosition 0 2); [assumption| | |].
        - left. simpl. lia.
        - unfold inside, len; simpl; lia.
        - reflexivity. }
      assert (H0 : component sampleGrid "purple_owl" (mkPosition 0 2)
                     (mkPosition 0 0)).
      { apply component_step with (p := mkPosition 0 1); [assumption| | |].
        - left. simpl. lia.
        - unfold inside, len; simpl; lia.
        - reflexivity. }
      intros q [<-|[<-|[<-|[<-|[]]]]]; try assumption.
      apply component_step with (p := mkPosition 0 0); [assumption| | |].
      * right. simpl. lia.
      * unfold inside, len; simpl; lia.
      * reflexivity.
  - exists conns, c. auto.
Defined.

(** X2.  On a square grid no cell is listed twice in the result of
    [FindRegularConnections], neither within a connection nor in two
    connections: a cell is paid at most once. *)
Theorem FindRegularConnections_disjoint grid level :
  square (len grid) grid ->
  exists conns,
    FindRegularConnections grid level = Some conns
    /\ NoDup (flat_map cPositions conns).
Proof.
  intros Hsq. destruct (FindRegularConnections_total grid level Hsq)
    as [conns E]. exists conns. split; [assumption|].
  destruct (FindRegularConnections_cover _ _ _ E) as (V & _ & _ & _ & H & _).
  exact H.
Qed.

Lemma FindRegularConnections_disjoint_witness :
  exists conns,
    FindRegularConnections sampleGrid 1 = Some conns
    /\ NoDup (flat_map cPositions conns).
Proof.
  exact (FindRegularConnections_disjoint sampleGrid 1 sampleGrid_square).
Defined.

(** X3.  On a square grid [HasPotentialConnections] returns, and it
    answers true exactly when some cell holds a regular bird symbol
    whose 4-connected component has at least the level's minimum
    number of cells. *)
Theorem HasPotentialConnections_iff grid level :
  square (len grid) grid ->
  exists b,
    HasPotentialConnections grid level = Some b
    /\ (b = true <->
        exists p g,
          holds grid p g /\ IsRegularBirdSymbol g = true
          /\ componentAtLeast grid g p (GetMinConnection level)).
Proof.
  intros Hsq. unfold HasPotentialConnections.
  destruct (FindRegularConnections_total grid level Hsq) as [conns E].
  pose proof (fun p g => large_component_found grid level conns p g Hsq E)
    as Hall.
  rewrite E. eexists. split; [reflexivity|].
  split.
  - intros Hb. apply Z.ltb_lt in Hb.
    destruct conns as [|c conns]; [discriminate|].
    pose proof (FindRegularConnections_inv _ _ _ E) as Hinv.
    inversion Hinv as [|c' cs' (Hr & Hcount & Hmin & Hnd & start & Hcomp)].
    subst. pose proof (GetMinConnection_pos level) as Hpos.
    destruct (cPositions c) as [|q qs] eqn:Eq;
      [rewrite Hcount in Hmin; unfold len in Hmin; simpl in Hmin; lia|].
    assert (Hq : component grid (cSymbol c) start q)
      by (apply Hcomp; now left).
    apply component_start_holds in Hq as [_ Hs].
    exists start, (cSymbol c). split; [assumption|]. split; [assumption|].
    exists (q :: qs). split; [assumption|]. split; [apply Hcomp|]. lia.
  - intros (p & g & Hh & Hr & Hbig).
    destruct (Hall p g Hh Hr Hbig) as (c & Hc & _).
    destruct conns; [destruct Hc|]. reflexivity.
Qed.

Lemma HasPotentialConnections_iff_witness :
  exists b,
    HasPotentialConnections sampleGrid 1 = Some b
    /\ (b = true <->
        exists p g,
          holds sampleGrid p g /\ IsRegularBirdSymbol g = true
          /\ componentAtLeast sampleGrid g p (GetMinConnection 1)).
Proof.
  exact (HasPotentialConnections_iff sampleGrid 1 sampleGrid_square).
Defined.

(* ------------------------------------------------------------------ *)
(** ** Scans of the whole grid *)

Lemma forUp_ext {St : Type} n :
  forall lo (body body' : Z -> St -> option St) s,
    (forall i t, lo <= i < lo + Z.of_nat n -> body i t = body' i t) ->
    forUp n lo body s = forUp n lo body' s.
Proof.
  induction n as [|n IH]; intros lo body body' s H; simpl; [reflexivity|].
  rewrite <- (H lo s) by lia. destruct (body lo s); [|reflexivity].
  apply IH. intros i t Hi. apply H. lia.
Qed.

Lemma fold_left_map_in {A B C : Type} (f : C -> B -> C) (g : A -> B) l :
  forall s, fold_left f (map g l) s = fold_left (fun acc a => f acc (g a)) l s.
Proof. induction l as [|a l IH]; intros s; simpl; [reflexivity|apply IH]. Qed.

(** A loop over the cells of one row is a fold over the row. *)
Lemma scan_row {St : Type} (f : string -> Z -> St -> St) (l2 : list string) :
  forall l1 s,
    forUp (length l2) (len l1)
      (fun x acc =>
         match idx (l1 ++ l2) x with
         | Some c => Some (f c x acc)
         | None => None
         end) s
    = Some (fold_left (fun acc e => f (snd e) (fst e) acc)
              (indexFrom (len l1) l2) s).
Proof.
  induction l2 as [|a l2 IH]; intros l1 s; [reflexivity|].
  cbn [length forUp indexFrom fold_left fst snd].
  rewrite (idx_app_mid l1 l2 a (len l1) eq_refl).
  replace (l1 ++ a :: l2) with ((l1 ++ [a]) ++ l2)
    by (now rewrite <- app_assoc).
  replace (len l1 + 1) with (len (l1 ++ [a]))
    by (unfold len; rewrite length_app; simpl; lia).
  apply IH.
Qed.

(** The double loop of the scans is a fold over the cells, row after
    row, provided every row has as many cells as the grid has rows. *)
Lemma scan_rows {St : Type} n (f : string -> Z -> Z -> St -> St)
  (g2 : Grid) :
  forall (g1 : Grid) s,
    Forall (fun row => length row = n) g2 ->
    forUp (length g2) (len g1)
      (fun y =>
         forUp n 0
           (fun x acc =>
              match mget (g1 ++ g2) y x with
              | Some c => Some (f c x y acc)
              | None => None
              end)) s
    = Some (fold_left (fun acc e => f (snd e) (X (fst e)) (Y (fst e)) acc)
              (cellsFrom (len g1) g2) s).
Proof.
  induction g2 as [|row g2 IH]; intros g1 s Hrows; [reflexivity|].
  inversion Hrows as [|? ? Hrow Hrest]. subst.
  cbn [length forUp]. unfold cellsFrom. cbn [indexFrom flat_map fst snd].
  rewrite fold_left_app, fold_left_map_in. cbn [fst snd X Y].
  rewrite (forUp_ext (length row) 0 _
             (fun x acc =>
                match idx ([] ++ row) x with
                | Some c => Some (f c x (len g1) acc)
                | None => None
                end)).
  2:{ intros x t _. unfold mget.
      now rewrite (idx_app_mid g1 g2 row (len g1) eq_refl). }
  change 0 with (len (@nil string)) at 1.
  rewrite (scan_row (fun c x acc => f c x (len g1) acc) row []).
  change (len (@nil string)) with 0.
  replace (g1 ++ row :: g2) with ((g1 ++ [row]) ++ g2)
    by (now rewrite <- app_assoc).
  replace (len g1 + 1) with (len (g1 ++ [row]))
    by (unfold len; rewrite length_app; simpl; lia).
  apply (IH (g1 ++ [row])). assumption.
Qed.

Lemma scan_cells {St : Type} (grid : Grid)
  (f : string -> Z -> Z -> St -> St) s :
  square (len grid) grid ->
  forUp (length grid) 0
    (fun y =>
       forUp (length grid) 0
         (fun x acc =>
            match mget grid y x with
            | Some c => Some (f c x y acc)
            | None => None
            end)) s
  = Some (fold_left (fun acc e => f (snd e) (X (fst e)) (Y (fst e)) acc)
            (cellsOf grid) s).
Proof.
  intros [_ Hrows].
  apply (scan_rows (length grid) f grid [] s).
  eapply Forall_impl; [|exact Hrows]. intros row H. unfold len in H. lia.
Qed.

Lemma indexFrom_In {A : Type} (l : list A) :
  forall k i a,
    In (i, a) (indexFrom k l) <-> k <= i /\ idx l (i - k) = Some a.
Proof.
  induction l as [|b l IH]; intros k i a; simpl.
  - split; [tauto|]. intros [_ H]. unfold idx in H.
    destruct (i - k <? 0); [discriminate|].
    now destruct (Z.to_nat (i - k)).
  - rewrite IH. unfold idx.
    destruct (Z.eq_dec i k) as [->|N].
    + rewrite Z.sub_diag. simpl. split.
      * intros [H|[H _]]; [inversion H; now split|lia].
      * intros [_ H]. inversion H. now left.
    + split.
      * intros [H|[Hk H]]; [inversion H; lia|]. split; [lia|].
        destruct (Z.ltb_spec (i - (k + 1)) 0); [discriminate|].
        destruct (Z.ltb_spec (i - k) 0); [lia|].
        replace (Z.to_nat (i - k)) with (S (Z.to_nat (i - (k + 1)))) by lia.
        exact H.
      * intros [Hk H]. right. split; [lia|].
        destruct (Z.ltb_spec (i - k) 0); [discriminate|].
        destruct (Z.ltb_spec (i - (k + 1)) 0); [lia|].
        replace (Z.to_nat (i - k)) with (S (Z.to_nat (i - (k + 1)))) in H
          by lia.
        exact H.
Qed.

(** The cells listed are the cells of the grid. *)
Lemma cellsOf_In grid p c : In (p, c) (cellsOf grid) <-> holds grid p c.
Proof.
  unfold cellsOf, cellsFrom, holds, mget. rewrite in_flat_map. split.
  - intros ([y row] & Hy & Hp). apply in_map_iff in Hp as ([x c'] & E & Hx).
    simpl in *. inversion E. subst. simpl.
    apply indexFrom_In in Hy as [_ Hy]. apply indexFrom_In in Hx as [_ Hx].
    rewrite Z.sub_0_r in *. now rewrite Hy.
  - destruct (idx grid (Y p)) as [row|] eqn:Er; [|discriminate]. intros Hx.
    assert (0 <= Y p) by (unfold idx in Er; destruct (Z.ltb_spec (Y p) 0);
                          [discriminate|assumption]).
    assert (0 <= X p) by (unfold idx in Hx; destruct (Z.ltb_spec (X p) 0);
                          [discriminate|assumption]).
    exists (Y p, row). split.
    + apply indexFrom_In. now rewrite Z.sub_0_r.
    + apply in_map_iff. exists (X p, c). simpl. split; [now destruct p|].
      apply indexFrom_In. now rewrite Z.sub_0_r.
Qed.

Lemma StronglySorted_app {A : Type} (R : A -> A -> Prop) (l1 l2 : list A) :
  StronglySorted R l1 -> StronglySorted R l2 ->
  (forall a b, In a l1 -> In b l2 -> R a b) ->
  StronglySorted R (l1 ++ l2).
Proof.
  induction 1 as [|a l1 H1 IH Ha]; intros H2 H; simpl; [assumption|].
  constructor.
  - apply IH; [assumption|]. intros; apply H; simpl; auto.
  - apply Forall_app. split; [assumption|].
    apply Forall_forall. intros b Hb. apply H; simpl; auto.
Qed.

Lemma indexFrom_sorted {A : Type} (l : list A) :
  forall k, StronglySorted Z.lt (map fst (indexFrom k l)).
Proof.
  induction l as [|a l IH]; intros k; simpl; constructor; [apply IH|].
  apply Forall_forall. intros i Hi. apply in_map_iff in Hi as ([j b] & <- & Hj).
  apply indexFrom_In in Hj. simpl. lia.
Qed.

Lemma StronglySorted_map {A B : Type} (R : B -> B -> Prop) (f : A -> B)
  (S' : A -> A -> Prop) l :
  (forall a b, S' a b -> R (f a) (f b)) ->
  StronglySorted S' l -> StronglySorted R (map f l).
Proof.
  intros HR. induction 1 as [|a l Hl IH Ha]; simpl; constructor;
    [assumption|].
  apply Forall_forall. intros b Hb. apply in_map_iff in Hb as (c & <- & Hc).
  rewrite Forall_forall in Ha. auto.
Qed.

Lemma StronglySorted_filter {A : Type} (R : A -> A -> Prop) (P : A -> bool)
  l : StronglySorted R l -> StronglySorted R (filter P l).
Proof.
  induction 1 as [|a l Hl IH Ha]; simpl; [constructor|].
  destruct (P a); [|assumption]. constructor; [assumption|].
  apply Forall_forall. intros b Hb. apply filter_In in Hb as [Hb _].
  rewrite Forall_forall in Ha. auto.
Qed.

Lemma StronglySorted_indexed {A B : Type} (R : B -> B -> Prop)
  (f : Z * A -> B) l :
  (forall a b, fst a < fst b -> R (f a) (f b)) ->
  forall k, StronglySorted R (map f (indexFrom k l)).
Proof.
  intros HR. induction l as [|a l IH]; intros k; simpl; constructor;
    [apply IH|].
  apply Forall_forall. intros b Hb. apply in_map_iff in Hb as ([j c] & <- & Hj).
  apply HR. apply indexFrom_In in Hj. simpl. lia.
Qed.

Lemma cellsFrom_sorted rows :
  forall y0, StronglySorted rowMajor (map fst (cellsFrom y0 rows)).
Proof.
  unfold cellsFrom.
  induction rows as [|row rows IH]; intros y0; simpl; [constructor|].
  rewrite map_app. apply StronglySorted_app.
  - rewrite map_map. simpl.
    apply (StronglySorted_indexed rowMajor
             (fun xc : Z * string => mkPosition (fst xc) y0)).
    intros a b Hab. right. simpl. split; [reflexivity|assumption].
  - apply IH.
  - intros p q Hp Hq. left.
    apply in_map_iff in Hp as ([p' c] & <- & Hp).
    apply in_map_iff in Hp as ([x c'] & E & _). inversion E. subst. simpl.
    apply in_map_iff in Hq as ([q' d] & <- & Hq).
    apply in_flat_map in Hq as ([y r] & Hy & Hq).
    apply in_map_iff in Hq as ([x' d'] & E' & _). inversion E'. subst. simpl.
    apply indexFrom_In in Hy. lia.
Qed.

Lemma rowMajor_sorted_NoDup l : StronglySorted rowMajor l -> NoDup l.
Proof.
  induction 1 as [|p l Hl IH Hp]; constructor; [|assumption].
  intros Hin. rewrite Forall_forall in Hp. specialize (Hp p Hin).
  unfold rowMajor in Hp. lia.
Qed.

(** The stage-cleared scan as a filter of the cells. *)
Lemma FindStageClearedSymbols_cells grid level :
  square (len grid) grid ->
  FindStageClearedSymbols grid level
  = Some (map (fun e =>
                 mkStageClearedSymbol (GetStageClearedSymbol level) (fst e))
            (filter (fun e => String.eqb (snd e) (GetStageClearedSymbol level))
               (cellsOf grid))).
Proof.
  intros Hsq. unfold FindStageClearedSymbols.
  set (expected := GetStageClearedSymbol level).
  rewrite (forUp_ext (length grid) 0 _
             (fun y =>
                forUp (length grid) 0
                  (fun x found =>
                     match mget grid y x with
                     | Some c =>
                         Some ((fun c x y found =>
                                  if String.eqb c expected
                                  then found ++
                                         [mkStageClearedSymbol expected
                                            (mkPosition x y)]
                                  else found) c x y found)
                     | None => None
                     end))).
  2:{ intros y t _. apply forUp_ext. intros x u _.
      destruct (mget grid y x) as [c|]; [|reflexivity].
      now destruct (String.eqb c expected). }
  rewrite (scan_cells grid _ [] Hsq). f_equal.
  assert (H : forall cells acc,
    fold_left
      (fun acc e =>
         if String.eqb (snd e) expected
         then acc ++ [mkStageClearedSymbol expected
                        (mkPosition (X (fst e)) (Y (fst e)))]
         else acc) cells acc
    = acc ++ map (fun e => mkStageClearedSymbol expected (fst e))
               (filter (fun e => String.eqb (snd e) expected) cells)).
  { induction cells as [|[p c] cells IH]; intros acc; simpl;
      [now rewrite app_nil_r|].
    rewrite IH. destruct (String.eqb c expected); [|reflexivity].
    simpl. rewrite <- app_assoc. now destruct p. }
  apply (H (cellsOf grid) []).
Qed.

Lemma GetStageClearedSymbol_nonempty level : GetStageClearedSymbol level <> "".
Proof.
  unfold GetStageClearedSymbol. destruct (level =? Level1); [discriminate|].
  destruct (level =? Level2); [discriminate|].
  destruct (level =? Level3); discriminate.
Qed.

(** X4.  On a square grid [FindStageClearedSymbols] returns exactly the
    cells that hold the level's stage-cleared symbol, each once and in
    row-major order, every entry carrying that symbol;
    [CountStageClearedSymbolsInGrid] is the length of that list. *)
Theorem FindStageClearedSymbols_exact grid level :
  square (len grid) grid ->
  exists found,
    FindStageClearedSymbols grid level = Some found
    /\ (forall s,
           In s found <->
           scSymbol s = GetStageClearedSymbol level
           /\ holds grid (scPosition s) (GetStageClearedSymbol level))
    /\ StronglySorted rowMajor (map scPosition found)
    /\ NoDup (map scPosition found)
    /\ CountStageClearedSymbolsInGrid grid level = Some (len found).
Proof.
  intros Hsq. unfold CountStageClearedSymbolsInGrid.
  rewrite (FindStageClearedSymbols_cells grid level Hsq).
  eexists. split; [reflexivity|].
  set (expected := GetStageClearedSymbol level).
  assert (Hsorted :
    StronglySorted rowMajor
      (map scPosition
         (map (fun e => mkStageClearedSymbol expected (fst e))
            (filter (fun e => String.eqb (snd e) expected)
               (cellsOf grid))))).
  { rewrite map_map. simpl.
    apply (StronglySorted_map rowMajor fst
             (fun a b => rowMajor (fst a) (fst b))); [auto|].
    apply StronglySorted_filter.
    pose proof (cellsFrom_sorted grid 0) as H. fold (cellsOf grid) in H.
    remember (cellsOf grid) as cells eqn:Ec. clear Ec.
    induction cells as [|a cells IH]; simpl in *; [constructor|].
    inversion H as [|? ? Hs Hf]. subst. constructor; [auto|].
    rewrite Forall_forall in *. intros b Hb. apply Hf.
    now apply in_map. }
  split; [|split; [assumption|split;
    [now apply rowMajor_sorted_NoDup|reflexivity]]].
  intros s. rewrite in_map_iff. split.
  - intros ([p c] & <- & H). apply filter_In in H as [H Hc]. simpl in *.
    apply String.eqb_eq in Hc. subst c. split; [reflexivity|].
    now apply cellsOf_In.
  - intros [Hs Hh]. exists (scPosition s, expected). split.
    + destruct s as [sym pos]. simpl in *. now subst sym.
    + apply filter_In. simpl. split; [now apply cellsOf_In|].
      apply String.eqb_refl.
Qed.

Lemma FindStageClearedSymbols_exact_witness :
  exists found,
    FindStageClearedSymbols sampleGrid 1 = Some found
    /\ (forall s,
           In s found <->
           scSymbol s = "orange_slice"
           /\ holds sampleGrid (scPosition s) "orange_slice")
    /\ StronglySorted rowMajor (map scPosition found)
    /\ NoDup (map scPosition found)
    /\ CountStageClearedSymbolsInGrid sampleGrid 1 = Some (len found).
Proof.
  exact (FindStageClearedSymbols_exact sampleGrid 1 sampleGrid_square).
Defined.

Lemma rowCount_indexed P (row : list string) (f : Z * string -> Position) :
  forall k,
    rowCount P row
    = length (filter (fun e : Position * string => P (snd e))
                (map (fun xc => (f xc, snd xc)) (indexFrom k row))).
Proof.
  unfold rowCount. induction row as [|c row IH]; intros k; simpl;
    [reflexivity|].
  rewrite (IH (k + 1)). now destruct (P c).
Qed.

Lemma countCells_cells P (rows : Grid) :
  forall y0,
    countCells P rows
    = length (filter (fun e : Position * string => P (snd e))
                (cellsFrom y0 rows)).
Proof.
  unfold countCells, cellsFrom.
  induction rows as [|row rows IH]; intros y0; simpl; [reflexivity|].
  rewrite filter_app, length_app, <- (IH (y0 + 1)). f_equal.
  apply (rowCount_indexed P row (fun xc => mkPosition (fst xc) y0)).
Qed.

(** X5.  On a square grid [CountFreeGameSymbols] returns the number of
    cells that hold [free_game], and it is positive exactly when
    [hasFreeGameSymbol] answers true. *)
Theorem CountFreeGameSymbols_count grid :
  square (len grid) grid ->
  exists count,
    CountFreeGameSymbols grid = Some count
    /\ count = Z.of_nat (freeGameCells grid)
    /\ (0 < count <-> hasFreeGameSymbol grid = true).
Proof.
  intros Hsq. unfold CountFreeGameSymbols.
  rewrite (forUp_ext (length grid) 0 _
             (fun y =>
                forUp (length grid) 0
                  (fun x count =>
                     match mget grid y x with
                     | Some c =>
                         Some ((fun c (_ _ : Z) count =>
                                  if String.eqb c SymbolFreeGame
                                  then count + 1 else count) c x y count)
                     | None => None
                     end))).
  2:{ intros y t _. apply forUp_ext. intros x u _.
      destruct (mget grid y x) as [c|]; [|reflexivity].
      now destruct (String.eqb c SymbolFreeGame). }
  rewrite (scan_cells grid _ 0 Hsq). eexists. split; [reflexivity|].
  assert (H : forall cells acc,
    fold_left
      (fun acc (e : Position * string) =>
         if String.eqb (snd e) SymbolFreeGame then acc + 1 else acc)
      cells acc
    = acc + Z.of_nat (length (filter (fun e => isFreeGame (snd e)) cells))).
  { induction cells as [|[p c] cells IH]; intros acc; simpl; [lia|].
    rewrite IH. unfold isFreeGame. simpl.
    destruct (String.eqb c SymbolFreeGame); simpl length; lia. }
  rewrite H. unfold freeGameCells, cellsOf.
  rewrite (countCells_cells isFreeGame grid 0). split; [lia|].
  rewrite <- (countCells_cells isFreeGame grid 0).
  fold (freeGameCells grid).
  pose proof (hasFreeGameSymbol_count grid) as Hc.
  destruct (hasFreeGameSymbol grid); split; intros; try reflexivity;
    try discriminate.
  - destruct (freeGameCells grid); [|lia].
    assert (true = false) by (apply Hc; reflexivity). discriminate.
  - assert (freeGameCells grid = O) by (now apply Hc). lia.
Qed.

Lemma CountFreeGameSymbols_count_witness :
  exists count,
    CountFreeGameSymbols sampleGrid = Some count
    /\ count = Z.of_nat (freeGameCells sampleGrid)
    /\ (0 < count <-> hasFreeGameSymbol sampleGrid = true).
Proof.
  exact (CountFreeGameSymbols_count sampleGrid sampleGrid_square).
Defined.

(** X6.  Finding the stage-cleared symbols of a square grid and
    removing them surgically leaves none: a second search finds
    nothing; the cells that held the symbol are empty and every other
    cell is as it was. *)
Theorem removal_clears_stage_symbols grid level :
  square (len grid) grid ->
  exists found g',
    FindStageClearedSymbols grid level = Some found
    /\ RemoveStageClearedSymbolsSurgical grid found = Some g'
    /\ FindStageClearedSymbols g' level = Some []
    /\ (forall p, holds grid p (GetStageClearedSymbol level) ->
                  holds g' p "")
    /\ (forall p c, holds grid p c -> c <> GetStageClearedSymbol level ->
                    holds g' p c).
Proof.
  intros Hsq.
  destruct (FindStageClearedSymbols_exact grid level Hsq)
    as (found & E & Hin & _).
  destruct (RemoveStageClearedSymbolsSurgical_spec grid found Hsq)
    as (g' & Er & Hsq' & _ & _ & Hclear & Hkeep).
  exists found, g'. split; [assumption|]. split; [assumption|].
  set (expected := GetStageClearedSymbol level) in *.
  assert (Hrem : forall p, In p (map scPosition found) <-> holds grid p expected).
  { intros p. rewrite in_map_iff. split.
    - intros (s & <- & Hs). now apply Hin.
    - intros Hp. exists (mkStageClearedSymbol expected p). split;
        [reflexivity|]. apply Hin. simpl. auto. }
  assert (Hempty : forall p, holds grid p expected -> holds g' p "").
  { intros p Hp. apply Hclear; [now apply Hrem|].
    apply square_mget_range with (n := len grid) in Hp as [Hy Hx];
      [|assumption].
    unfold inGrid.
    destruct (Z.leb_spec 0 (X p)), (Z.ltb_spec (X p) (len grid)),
      (Z.leb_spec 0 (Y p)), (Z.ltb_spec (Y p) (len grid)); simpl; lia. }
  split; [|split; [assumption|]].
  - assert (Hsq2 : square (len g') g') by (eapply square_len; eauto).
    destruct (FindStageClearedSymbols_exact g' level Hsq2)
      as (found' & E' & Hin' & _).
    rewrite E'. f_equal. destruct found' as [|s found']; [reflexivity|].
    exfalso. destruct (proj1 (Hin' s) (or_introl eq_refl)) as [_ Hs].
    fold expected in Hs.
    destruct (In_dec Position_eq_dec (scPosition s) (map scPosition found))
      as [Hi|Hn].
    + apply Hrem, Hempty in Hi. unfold holds in *.
      rewrite Hs in Hi. inversion Hi as [He].
      now apply (GetStageClearedSymbol_nonempty level).
    + apply Hn, Hrem. unfold holds in *. now rewrite <- (Hkeep _ Hn).
  - intros p c Hp Hc. unfold holds in *. rewrite Hkeep; [assumption|].
    intros Hi. apply Hrem in Hi. unfold holds in Hi. congruence.
Qed.

Lemma removal_clears_stage_symbols_witness :
  exists found g',
    FindStageClearedSymbols sampleGrid 1 = Some found
    /\ RemoveStageClearedSymbolsSurgical sampleGrid found = Some g'
    /\ FindStageClearedSymbols g' 1 = Some []
    /\ (forall p, holds sampleGrid p "orange_slice" -> holds g' p "")
    /\ (forall p c, holds sampleGrid p c -> c <> "orange_slice" ->
                    holds g' p c).
Proof.
  exact (removal_clears_stage_symbols sampleGrid 1 sampleGrid_square).
Defined.

(* ------------------------------------------------------------------ *)
(** ** What a draw and a generated grid can show *)

Lemma forUpM_inv_at {St : Type} (I : Z -> St -> Prop) n :
  forall lo (body : Z -> St -> M St) s w s' w',
    (forall i t u t' u',
        lo <= i < lo + Z.of_nat n -> I i t -> body i t u = Some (t', u') ->
        I (i + 1) t') ->
    I lo s -> forUpM n lo body s w = Some (s', w') ->
    I (lo + Z.of_nat n) s'.
Proof.
  induction n as [|n IH]; intros lo body s w s' w' Hbody Hs; cbn [forUpM].
  - unfold ret. intros H. inversion H. subst.
    now replace (lo + Z.of_nat 0) with lo by lia.
  - intros H. apply bind_Some in H as (t & u & E & H).
    replace (lo + Z.of_nat (S n)) with (lo + 1 + Z.of_nat n) by lia.
    apply (IH (lo + 1) body t u s' w'); [|eapply Hbody; eauto; lia|assumption].
    intros i t0 u0 t' u' Hi. apply Hbody. lia.
Qed.

Lemma levelSymbol_cases level c :
  levelSymbol level c ->
  c <> ""
  /\ (IsRegularBirdSymbol c = true \/ c = SymbolFreeGame
      \/ c = GetStageClearedSymbol level)
  /\ (IsStageClearedSymbol c = true -> c = GetStageClearedSymbol level).
Proof.
  unfold levelSymbol, GetLevelSpecificWeights, GetStageClearedSymbol.
  destruct (level =? Level1); [|destruct (level =? Level2);
    [|destruct (level =? Level3)]]; simpl;
    intuition (subst; simpl; auto; try discriminate).
Qed.

Lemma purple_levelSymbol level forbid :
  In SymbolPurpleOwl
    (map fst (if forbid : bool
              then deleteS (GetLevelSpecificWeights level) SymbolFreeGame
              else GetLevelSpecificWeights level)).
Proof.
  unfold GetLevelSpecificWeights.
  destruct forbid, (level =? Level1), (level =? Level2), (level =? Level3);
    simpl; auto.
Qed.

(** The symbol of a draw is a key of the level's weights, and not the
    trigger when that is forbidden. *)
Lemma WeightedRandomSymbolWithControl_keys level forbid w :
  exists symbol w',
    WeightedRandomSymbolWithControl level forbid w = Some (symbol, w')
    /\ levelSymbol level symbol
    /\ (forbid = true -> symbol <> SymbolFreeGame)
    /\ calls w' = calls w.
Proof.
  unfold WeightedRandomSymbolWithControl.
  set (weights := if forbid then _ else _).
  destruct (rangeOrder_spec weights w) as (o1 & w1 & E1 & _ & C1).
  rewrite (bind_eq _ _ _ _ _ E1). unfold Float64 at 1.
  unfold bind at 1.
  destruct (rangeOrder_spec weights (advance w1)) as (o2 & w2 & E2 & P2 & C2).
  rewrite (bind_eq _ _ _ _ _ E2). unfold ret.
  eexists _, w2. split; [reflexivity|].
  assert (Hin : In (pickSymbol (rndFloat w1 (tick w1) *
                      fold_left (fun t e => t + snd e) o1 0)%float o2 0%float)
                  (map fst weights)).
  { destruct (pickSymbol_In (rndFloat w1 (tick w1) *
                 fold_left (fun t e => t + snd e) o1 0)%float o2 0%float)
      as [H| ->]; [|apply purple_levelSymbol].
    eapply Permutation_in; [|exact H]. apply Permutation_map. now symmetry. }
  subst weights. split; [|split].
  - destruct forbid; [|exact Hin]. now apply deleteS_keys in Hin.
  - intros ->. now apply deleteS_keys in Hin.
  - rewrite C2. simpl. exact C1.
Qed.

(** X7.  A weighted draw never panics and makes no service call; the
    symbol drawn is a key of the level's weight table, hence a regular
    bird, the trigger or the stage-cleared symbol of that very level
    and never the empty marker; it is not the trigger when that is
    forbidden.  [WeightedRandomSymbol] is the draw with nothing
    forbidden. *)
Theorem weighted_draw_range level forbidFreeGame w :
  (exists symbol w',
      WeightedRandomSymbolWithControl level forbidFreeGame w
      = Some (symbol, w')
      /\ levelSymbol level symbol
      /\ symbol <> ""
      /\ (IsRegularBirdSymbol symbol = true \/ symbol = SymbolFreeGame
          \/ symbol = GetStageClearedSymbol level)
      /\ (IsStageClearedSymbol symbol = true ->
          symbol = GetStageClearedSymbol level)
      /\ (forbidFreeGame = true -> symbol <> SymbolFreeGame)
      /\ calls w' = calls w)
  /\ WeightedRandomSymbol level w
     = WeightedRandomSymbolWithControl level false w.
Proof.
  split; [|reflexivity].
  destruct (WeightedRandomSymbolWithControl_keys level forbidFreeGame w)
    as (symbol & w' & E & Hk & Hf & Hc).
  destruct (levelSymbol_cases level symbol Hk) as (H1 & H2 & H3).
  exists symbol, w'. auto 10.
Qed.

Lemma mget_upd_other {A : Type} (m m' : list (list A)) y row y' x' :
  upd m y row = Some m' -> y' <> y -> mget m' y' x' = mget m y' x'.
Proof.
  intros H Hy. unfold mget. now rewrite (idx_upd_other _ _ _ _ _ H Hy).
Qed.

(** Every cell of a generated grid was drawn for the level. *)
Lemma GenerateGrid_cells level forbid w grid w' :
  GenerateGrid level forbid w = Some (grid, w') ->
  forall y x,
    0 <= y < GetGridSize level -> 0 <= x < GetGridSize level ->
    exists c,
      mget grid y x = Some c /\ levelSymbol level c
      /\ (forbid = true -> c <> SymbolFreeGame).
Proof.
  unfold GenerateGrid.
  set (n := Z.to_nat (GetGridSize level)).
  assert (Hn : GetGridSize level = Z.of_nat n)
    by (subst n; destruct (GetGridSize_cases level) as [->|[->| ->]];
        reflexivity).
  rewrite Hn. intros H. apply bind_Some in H as ([g placed] & u & E & H).
  unfold ret in H. inversion H. subst g u. clear H.
  pose (ok := fun (g : Grid) (y x : Z) =>
                exists c,
                  mget g y x = Some c /\ levelSymbol level c
                  /\ (forbid = true -> c <> SymbolFreeGame)).
  pose (I := fun (y : Z) (st : Grid * bool) =>
               forall y' x', 0 <= y' < y -> 0 <= x' < Z.of_nat n ->
                             ok (fst st) y' x').
  apply (forUpM_inv_at I) in E.
  - intros y x Hy Hx. apply (E y x); lia.
  - intros y [g p] u [g' p'] u' Hy HI Ey.
    apply bind_Some in Ey as (g1 & u1 & E1 & Ey).
    apply lift_Some in E1 as [E1 ->].
    pose (J := fun (x : Z) (st : Grid * bool) =>
                 (forall y' x', 0 <= y' < y -> 0 <= x' < Z.of_nat n ->
                                ok (fst st) y' x')
                 /\ (forall x', 0 <= x' < x -> ok (fst st) y x')).
    apply (forUpM_inv_at J) in Ey.
    + destruct Ey as [Ha Hb]. intros y' x' Hy' Hx'. cbn [fst] in *.
      destruct (Z.eq_dec y' y) as [->|Ny]; [apply Hb; lia|apply Ha; lia].
    + intros x [g2 p2] u2 [g3 p3] u3 Hx [Ha Hb] Ex. cbn [fst] in Ha, Hb.
      apply bind_Some in Ex as (symbol & u4 & Es & Ex).
      apply bind_Some in Ex as (g4 & u5 & Em & Ex).
      apply lift_Some in Em as [Em ->]. unfold ret in Ex.
      inversion Ex. subst g3 p3 u3. clear Ex.
      destruct (WeightedRandomSymbolWithControl_keys level
                  (negb (negb p2 && negb forbid)) u2)
        as (s' & v & Es' & Hk & Hf & _).
      rewrite Es in Es'. inversion Es'. subst s' v. clear Es'.
      assert (Hnew : ok g4 y x).
      { exists symbol. split; [exact (mget_mset_same _ _ _ _ _ Em)|].
        split; [assumption|]. intros ->. apply Hf.
        now rewrite andb_false_r. }
      split; cbn [fst].
      * intros y' x' Hy' Hx'. unfold ok. unfold Symbol in *.
        rewrite (mget_mset_other _ _ _ _ _ y' x' Em) by lia.
        now apply Ha.
      * intros x' Hx'. destruct (Z.eq_dec x' x) as [->|Nx];
          [assumption|]. unfold ok. unfold Symbol in *.
        rewrite (mget_mset_other _ _ _ _ _ y x' Em) by lia.
        apply Hb. lia.
    + split; cbn [fst]; [|intros x' Hx'; lia].
      intros y' x' Hy' Hx'. unfold ok.
      rewrite (mget_upd_other _ _ _ _ y' x' E1) by lia.
      now apply HI.
  - intros y' x' Hy'. lia.
Qed.

(** X8.  [GenerateGrid] never panics and makes no service call; the
    grid is square of the level's size and each of its cells holds a
    key of the level's weight table: a regular bird, the trigger or
    the stage-cleared symbol of that level, never the empty marker or
    the stage-cleared symbol of another level, and never the trigger
    when that is forbidden. *)
Theorem GenerateGrid_symbols level forbidFreeGame w :
  exists grid w',
    GenerateGrid level forbidFreeGame w = Some (grid, w')
    /\ square (GetGridSize level) grid
    /\ calls w' = calls w
    /\ forall p c,
         holds grid p c ->
         levelSymbol level c /\ c <> ""
         /\ (IsRegularBirdSymbol c = true \/ c = SymbolFreeGame
             \/ c = GetStageClearedSymbol level)
         /\ (IsStageClearedSymbol c = true ->
             c = GetStageClearedSymbol level)
         /\ (forbidFreeGame = true -> c <> SymbolFreeGame).
Proof.
  destruct (GenerateGrid_spec level forbidFreeGame w)
    as (grid & w' & E & Hsq & _ & _ & Hc).
  exists grid, w'. repeat (split; [assumption|]).
  intros p c Hp.
  destruct (square_mget_range _ _ _ _ _ Hsq Hp) as [Hy Hx].
  destruct (GenerateGrid_cells _ _ _ _ _ E (Y p) (X p) Hy Hx)
    as (c' & Hc' & Hk & Hf).
  unfold holds in Hp. rewrite Hp in Hc'. inversion Hc'. subst c'.
  destruct (levelSymbol_cases level c Hk) as (H1 & H2 & H3). auto 10.
Qed.

(* ------------------------------------------------------------------ *)
(** ** Grids with a forced win *)

Lemma Intn_spec n w :
  0 < n -> exists k, Intn n w = Some (k, advance w) /\ 0 <= k < n.
Proof.
  intros Hn. unfold Intn. destruct (Z.leb_spec n 0); [lia|].
  eexists. split; [reflexivity|]. apply Z.mod_pos_bound. lia.
Qed.

Lemma bird_regular s : In s birdSymbols <-> IsRegularBirdSymbol s = true.
Proof.
  unfold birdSymbols, IsRegularBirdSymbol. simpl. split.
  - intros [<-|[<-|[<-|[<-|[<-|[]]]]]]; reflexivity.
  - intros H. repeat (apply orb_true_iff in H as [H|H]);
      apply String.eqb_eq in H; auto 6.
Qed.

Lemma bird_levelSymbol level s :
  IsRegularBirdSymbol s = true -> levelSymbol level s.
Proof.
  intros H. apply bird_regular in H.
  unfold levelSymbol, GetLevelSpecificWeights.
  destruct (level =? Level1), (level =? Level2), (level =? Level3);
    simpl in *; intuition.
Qed.

Lemma GetMinConnection_size level : GetMinConnection level = GetGridSize level.
Proof.
  unfold GetMinConnection, GetGridSize.
  destruct (level =? Level1); [reflexivity|].
  destruct (level =? Level2); [reflexivity|].
  destruct (level =? Level3); reflexivity.
Qed.

Lemma GenerateGrid_generated level forbid w :
  exists grid w',
    GenerateGrid level forbid w = Some (grid, w')
    /\ generated level forbid grid /\ calls w' = calls w.
Proof.
  destruct (GenerateGrid_spec level forbid w)
    as (grid & w' & E & Hsq & Hcap & Hf & Hc).
  exists grid, w'. split; [assumption|]. split; [|assumption].
  split; [assumption|]. split; [|auto]. intros p c Hp.
  destruct (square_mget_range _ _ _ _ _ Hsq Hp) as [Hy Hx].
  destruct (GenerateGrid_cells _ _ _ _ _ E (Y p) (X p) Hy Hx)
    as (c' & Hc' & Hk & _).
  unfold holds in Hp. rewrite Hp in Hc'. now inversion Hc'.
Qed.

(** Writing a bird into a generated grid. *)
Lemma generated_mset level forbid (g : Grid) y x s :
  generated level forbid g ->
  0 <= y < GetGridSize level -> 0 <= x < GetGridSize level ->
  IsRegularBirdSymbol s = true ->
  exists g',
    mset g y x s = Some g' /\ generated level forbid g'
    /\ (freeGameCells g' <= freeGameCells g)%nat.
Proof.
  intros (Hsq & Hcells & Hcap & Hf) Hy Hx Hs.
  destruct (square_mget _ g y x Hsq Hy Hx) as [old Eo].
  destruct (mset_defined g y x s _ Eo) as [g' Es]. exists g'.
  split; [assumption|].
  pose proof (countCells_mset isFreeGame _ _ _ _ _ _ Es Eo) as Hcount.
  fold (freeGameCells g) in Hcount. fold (freeGameCells g') in Hcount.
  assert (Hn : isFreeGame s = false).
  { unfold isFreeGame. apply String.eqb_neq.
    apply regular_not_special in Hs. tauto. }
  rewrite Hn in Hcount.
  assert (Hle : (freeGameCells g' <= freeGameCells g)%nat)
    by (destruct (isFreeGame old); lia).
  split; [|assumption]. split; [eapply mset_square; eauto|].
  split; [|split; [lia|intros H; specialize (Hf H); lia]].
  intros p c Hp. unfold holds in Hp.
  destruct (Z.eq_dec (Y p) y) as [Ey|Ny];
    [destruct (Z.eq_dec (X p) x) as [Ex|Nx]|].
  - subst. rewrite (mget_mset_same _ _ _ _ _ Es) in Hp. inversion Hp.
    subst. now apply bird_levelSymbol.
  - rewrite (mget_mset_other _ _ _ _ _ (Y p) (X p) Es) in Hp by tauto.
    now apply (Hcells p).
  - rewrite (mget_mset_other _ _ _ _ _ (Y p) (X p) Es) in Hp by tauto.
    now apply (Hcells p).
Qed.

Lemma NoDup_map_inj {A B : Type} (f : A -> B) (l : list A) :
  (forall a b, In a l -> In b l -> f a = f b -> a = b) ->
  NoDup l -> NoDup (map f l).
Proof.
  intros Hinj. induction 1 as [|a l Ha Hl IH]; simpl; constructor.
  - intros Hin. apply in_map_iff in Hin as (b & Hb & Hbl).
    apply Hinj in Hb; simpl; auto. now subst.
  - apply IH. intros; apply Hinj; simpl; auto.
Qed.

(** A run of [k] equal cells in a row lies in one component. *)
Lemma row_component grid s y a k :
  (forall i, 0 <= i < k -> holds grid (mkPosition (a + i) y) s) ->
  square (len grid) grid ->
  forall i, 0 <= i < k ->
            component grid s (mkPosition a y) (mkPosition (a + i) y).
Proof.
  intros Hrun Hsq.
  assert (Hin : forall i, 0 <= i < k ->
                          inside (len grid) (mkPosition (a + i) y)).
  { intros i Hi. specialize (Hrun i Hi).
    apply square_mget_range with (n := len grid) in Hrun; [|assumption].
    simpl in Hrun. split; simpl; lia. }
  assert (H : forall n : nat,
             Z.of_nat n < k ->
             component grid s (mkPosition a y)
               (mkPosition (a + Z.of_nat n) y)).
  { induction n as [|n IH]; intros Hn.
    - replace (a + Z.of_nat 0) with (a + 0) by lia.
      rewrite Z.add_0_r.
      specialize (Hrun 0 ltac:(lia)). specialize (Hin 0 ltac:(lia)).
      rewrite Z.add_0_r in *. now constructor.
    - apply component_step with (p := mkPosition (a + Z.of_nat n) y).
      + apply IH. lia.
      + right. simpl. lia.
      + apply Hin. lia.
      + apply Hrun. lia. }
  intros i Hi. replace i with (Z.of_nat (Z.to_nat i)) by lia. apply H. lia.
Qed.

Lemma row_componentAtLeast grid s y a k :
  0 <= k ->
  (forall i, 0 <= i < k -> holds grid (mkPosition (a + i) y) s) ->
  square (len grid) grid ->
  componentAtLeast grid s (mkPosition a y) k.
Proof.
  intros Hk Hrun Hsq.
  exists (map (fun i => mkPosition (a + Z.of_nat i) y) (seq 0 (Z.to_nat k))).
  split; [|split].
  - apply NoDup_map_inj; [|apply seq_NoDup].
    intros i j _ _ H. inversion H. lia.
  - intros q Hq. apply in_map_iff in Hq as (i & <- & Hi).
    apply in_seq in Hi. apply (row_component grid s y a k); auto. lia.
  - unfold len. rewrite length_map, length_seq. lia.
Qed.

(** A grid with a large enough component has a connection. *)
Lemma win_detected grid level p g :
  square (len grid) grid ->
  holds grid p g -> IsRegularBirdSymbol g = true ->
  componentAtLeast grid g p (GetMinConnection level) ->
  HasPotentialConnections grid level = Some true.
Proof.
  intros Hsq Hh Hr Hbig. unfold HasPotentialConnections.
  destruct (FindRegularConnections_total grid level Hsq) as [conns E].
  rewrite E.
  destruct (large_component_found grid level conns p g Hsq E Hh Hr Hbig)
    as (c & Hc & _).
  destruct conns; [destruct Hc|reflexivity].
Qed.

Lemma ForceWinGrid_spec level forbid w :
  exists grid w',
    ForceWinGrid level forbid w = Some (grid, w')
    /\ generated level forbid grid
    /\ HasPotentialConnections grid level = Some true
    /\ calls w' = calls w.
Proof.
  unfold ForceWinGrid.
  destruct (GenerateGrid_generated level forbid w)
    as (g0 & w0 & E0 & Hg0 & C0).
  rewrite (bind_eq _ _ _ _ _ E0).
  destruct (Intn_spec (len birdSymbols) w0) as (t & Et & Ht);
    [reflexivity|].
  rewrite (bind_eq _ _ _ _ _ Et).
  destruct (idx_defined birdSymbols t Ht) as [target Etarget].
  rewrite Etarget, bind_lift.
  assert (Hbird : IsRegularBirdSymbol target = true)
    by (apply bird_regular; eapply idx_In; eauto).
  change (GetMinConnection level) with (GetGridSize level).
  destruct (Intn_spec (GetGridSize level - GetGridSize level + 1)
              (advance w0)) as (startX & Ex & Hx); [lia|].
  rewrite (bind_eq _ _ _ _ _ Ex).
  assert (startX = 0) by lia. subst startX.
  assert (Hpos : 0 < GetGridSize level)
    by (destruct (GetGridSize_cases level) as [->|[->| ->]]; reflexivity).
  destruct (Intn_spec (GetGridSize level) (advance (advance w0)))
    as (y & Ey & Hy); [assumption|].
  rewrite (bind_eq _ _ _ _ _ Ey).
  set (w3 := advance (advance (advance w0))).
  pose (I := fun (i : Z) (g : Grid) (u : World) =>
               generated level forbid g
               /\ (forall j, 0 <= j < i ->
                              holds g (mkPosition (0 + j) y) target)
               /\ u = w3).
  destruct (forUpM_total I (Z.to_nat (GetGridSize level)) 0
              (fun i grid => lift (mset grid y (0 + i) target)) g0 w3)
    as (grid & w' & E & Hgen & Hrun & ->).
  - intros i g u Hi (Hg & Hr & ->).
    destruct (generated_mset level forbid g y (0 + i) target Hg)
      as (g' & Es & Hg' & _); [lia|lia|assumption|].
    exists g', w3. rewrite Es. split; [reflexivity|].
    split; [assumption|]. split; [|reflexivity].
    intros j Hj. unfold holds. simpl.
    destruct (Z.eq_dec j i) as [->|Nj];
      [exact (mget_mset_same _ _ _ _ _ Es)|].
    rewrite (mget_mset_other _ _ _ _ _ y j Es) by lia.
    apply (Hr j). lia.
  - split; [assumption|]. split; [intros j Hj; lia|reflexivity].
  - exists grid, w3. split; [exact E|]. split; [assumption|].
    split; [|subst w3; simpl; assumption].
    destruct Hgen as (Hsq & _).
    assert (Hsq' : square (len grid) grid) by (eapply square_len; eauto).
    apply (win_detected grid level (mkPosition 0 y) target);
      [assumption| |assumption|].
    + specialize (Hrun 0). rewrite Z.add_0_r in Hrun.
      apply Hrun. lia.
    + change (GetMinConnection level) with (GetGridSize level).
      apply row_componentAtLeast; [lia| |assumption].
      intros i Hi. apply Hrun. lia.
Qed.

Lemma GenerateGridWithWin_attempts_spec attempts level forbid :
  forall w,
    exists grid w',
      GenerateGridWithWin_attempts attempts level forbid w = Some (grid, w')
      /\ generated level forbid grid
      /\ HasPotentialConnections grid level = Some true
      /\ calls w' = calls w.
Proof.
  induction attempts as [|k IH]; intros w; cbn [GenerateGridWithWin_attempts];
    [apply ForceWinGrid_spec|].
  destruct (GenerateGrid_generated level forbid w)
    as (g0 & w0 & E0 & Hg0 & C0).
  rewrite (bind_eq _ _ _ _ _ E0).
  assert (Hsq : square (len g0) g0)
    by (destruct Hg0 as [Hsq _]; eapply square_len; eauto).
  destruct (FindRegularConnections_total g0 level Hsq) as [conns Ec].
  rewrite Ec, bind_lift.
  destruct (0 <? len conns) eqn:El.
  - exists g0, w0. unfold ret. split; [reflexivity|].
    split; [assumption|]. split; [|assumption].
    unfold HasPotentialConnections. now rewrite Ec, El.
  - destruct (IH w0) as (grid & w' & E & Hg & Hwin & Hc).
    exists grid, w'. repeat (split; [assumption|]). congruence.
Qed.

(** X9.  [ForceWinGrid] and [GenerateGridWithWin] never panic and make
    no service call; the grid they return is square of the level's
    size, shows only symbols of the level, the trigger at most once
    and never when it is forbidden, and has at least one connection. *)
Theorem GenerateGridWithWin_wins level forbidFreeGame w :
  (exists grid w',
      ForceWinGrid level forbidFreeGame w = Some (grid, w')
      /\ generated level forbidFreeGame grid
      /\ HasPotentialConnections grid level = Some true
      /\ calls w' = calls w)
  /\ (exists grid w',
        GenerateGridWithWin level forbidFreeGame w = Some (grid, w')
        /\ generated level forbidFreeGame grid
        /\ HasPotentialConnections grid level = Some true
        /\ calls w' = calls w).
Proof.
  split; [apply ForceWinGrid_spec|].
  apply GenerateGridWithWin_attempts_spec.
Qed.

(* ------------------------------------------------------------------ *)
(** ** Grids with a forced loss *)

Lemma removeFirst_incl v s a : In a (removeFirst v s) -> In a s.
Proof.
  induction s as [|b s IH]; simpl; [tauto|].
  destruct (String.eqb b v); simpl; tauto.
Qed.

Lemma removeFirst_NoDup v s : NoDup s -> NoDup (removeFirst v s).
Proof.
  induction 1 as [|b s Hb Hs IH]; simpl; [constructor|].
  destruct (String.eqb b v); [assumption|]. constructor; [|assumption].
  intros H. now apply removeFirst_incl in H.
Qed.

Lemma removeFirst_gone v s : NoDup s -> ~ In v (removeFirst v s).
Proof.
  induction 1 as [|b s Hb Hs IH]; simpl; [tauto|].
  destruct (String.eqb_spec b v) as [->|N]; [assumption|].
  simpl. intros [H|H]; [congruence|tauto].
Qed.

Lemma removeFirst_length v s : (length s <= S (length (removeFirst v s)))%nat.
Proof.
  induction s as [|b s IH]; simpl; [lia|].
  destruct (String.eqb b v); simpl; lia.
Qed.

Lemma birdSymbols_good : goodChoice birdSymbols 5.
Proof.
  split; [|split; [apply incl_refl|reflexivity]].
  repeat constructor; simpl; intuition discriminate.
Qed.

Lemma goodChoice_remove v av k :
  goodChoice av (S k) ->
  goodChoice (removeFirst v av) k /\ ~ In v (removeFirst v av).
Proof.
  intros (Hnd & Hin & Hl). split; [|now apply removeFirst_gone].
  split; [now apply removeFirst_NoDup|]. split.
  - intros a Ha. apply Hin. eapply removeFirst_incl; eauto.
  - pose proof (removeFirst_length v av). lia.
Qed.

Lemma goodChoice_weaken av k k' :
  (k' <= k)%nat -> goodChoice av k -> goodChoice av k'.
Proof. intros Hk (H1 & H2 & H3). repeat split; auto. lia. Qed.

Lemma regular_test c :
  IsRegularBirdSymbol c = true ->
  negb (String.eqb c "") && IsRegularBirdSymbol c = true.
Proof.
  intros H. rewrite H. destruct (regular_not_special c H) as (_ & _ & Hn).
  apply String.eqb_neq in Hn. now rewrite Hn.
Qed.

(** "Remove symbols that would create connections", to the left. *)
Lemma loss_left_spec (grid : Grid) y x w :
  (0 < x ->
   exists prev,
     mget grid y (x - 1) = Some prev /\ IsRegularBirdSymbol prev = true) ->
  exists av,
    (if 0 <? x then
       prev <- lift (mget grid y (x - 1)) ;;
       ret (if negb (String.eqb prev "") && IsRegularBirdSymbol prev
            then removeFirst prev birdSymbols
            else birdSymbols)
     else ret birdSymbols) w = Some (av, w)
    /\ goodChoice av 4
    /\ (0 < x -> ~ mget grid y (x - 1) = None
                /\ forall prev, mget grid y (x - 1) = Some prev ->
                                ~ In prev av).
Proof.
  intros H. destruct (Z.ltb_spec 0 x) as [Hx|Hx].
  - destruct (H Hx) as (prev & Ep & Hr). rewrite Ep, bind_lift.
    rewrite (regular_test _ Hr). unfold ret. eexists. split; [reflexivity|].
    destruct (goodChoice_remove prev birdSymbols 4 birdSymbols_good)
      as [Hg Hn].
    split; [assumption|]. intros _. split; [discriminate|].
    intros p Hp. inversion Hp. subst. assumption.
  - unfold ret. eexists. split; [reflexivity|].
    split; [|lia]. apply (goodChoice_weaken _ 5); [lia|].
    apply birdSymbols_good.
Qed.

(** The same, above. *)
Lemma loss_up_spec (grid : Grid) y x av w :
  goodChoice av 4 ->
  (0 < y ->
   exists up,
     mget grid (y - 1) x = Some up /\ IsRegularBirdSymbol up = true) ->
  exists av',
    (if 0 <? y then
       up <- lift (mget grid (y - 1) x) ;;
       ret (if negb (String.eqb up "") && IsRegularBirdSymbol up
            then removeFirst up av
            else av)
     else ret av) w = Some (av', w)
    /\ goodChoice av' 3 /\ incl av' av
    /\ (0 < y -> forall up, mget grid (y - 1) x = Some up -> ~ In up av').
Proof.
  intros Hav H. destruct (Z.ltb_spec 0 y) as [Hy|Hy].
  - destruct (H Hy) as (up & Eu & Hr). rewrite Eu, bind_lift.
    rewrite (regular_test _ Hr). unfold ret. eexists. split; [reflexivity|].
    destruct (goodChoice_remove up av 3 Hav) as [Hg Hn].
    split; [assumption|]. split.
    + intros a Ha. eapply removeFirst_incl; eauto.
    + intros _ u Hu. inversion Hu. subst. assumption.
  - unfold ret. eexists. split; [reflexivity|].
    split; [apply (goodChoice_weaken _ 4); [lia|assumption]|].
    split; [apply incl_refl|lia].
Qed.

(** The draw among the candidates. *)
Lemma loss_pick_spec av w :
  goodChoice av 3 ->
  exists symbol,
    (if 0 <? len av then
       i <- Intn (len av) ;;
       lift (idx av i)
     else
       i <- Intn (len birdSymbols) ;;
       lift (idx birdSymbols i)) w = Some (symbol, advance w)
    /\ In symbol av.
Proof.
  intros (_ & _ & Hl).
  assert (Hpos : 0 < len av) by (unfold len; lia).
  destruct (Z.ltb_spec 0 (len av)); [|lia].
  destruct (Intn_spec (len av) w Hpos) as (i & Ei & Hi).
  rewrite (bind_eq _ _ _ _ _ Ei).
  destruct (idx_defined av i Hi) as [symbol Es]. rewrite Es.
  exists symbol. split; [reflexivity|]. eapply idx_In; eauto.
Qed.

Lemma apart_mset (g g' : Grid) y x s y' x' :
  mset g y x s = Some g' -> before y' x' y x -> 0 <= y' -> 0 <= x' ->
  apart g y' x' -> apart g' y' x'.
Proof.
  intros Es Hb Hy' Hx' (c & Hc & Hr & Hl & Hu). exists c.
  unfold before in Hb.
  rewrite !(mget_mset_other _ _ _ _ _ _ _ Es) by lia. auto.
Qed.

Lemma apart_upd (g g' : Grid) y row y' x' :
  upd g y row = Some g' -> y' < y -> apart g y' x' -> apart g' y' x'.
Proof.
  intros Eu Hy (c & Hc & Hr & Hl & Hu). exists c.
  rewrite !(mget_upd_other _ _ _ _ _ _ Eu) by lia. auto.
Qed.

(** One cell of the first loop of [ForceLossGrid]. *)
Lemma ForceLossGrid_cell n y x (grid : Grid) w :
  0 <= y < Z.of_nat n -> 0 <= x < Z.of_nat n ->
  lossInv n (S (Z.to_nat y)) y x grid ->
  exists grid' w',
    (let availableSymbols := birdSymbols in
     availableSymbols <-
       (if 0 <? x then
          prev <- lift (mget grid y (x - 1)) ;;
          ret (if negb (String.eqb prev "") && IsRegularBirdSymbol prev
               then removeFirst prev availableSymbols
               else availableSymbols)
        else ret availableSymbols) ;;
     availableSymbols <-
       (if 0 <? y then
          up <- lift (mget grid (y - 1) x) ;;
          ret (if negb (String.eqb up "") && IsRegularBirdSymbol up
               then removeFirst up availableSymbols
               else availableSymbols)
        else ret availableSymbols) ;;
     symbol <-
       (if 0 <? len availableSymbols then
          i <- Intn (len availableSymbols) ;;
          lift (idx availableSymbols i)
        else
          i <- Intn (len birdSymbols) ;;
          lift (idx birdSymbols i)) ;;
     lift (mset grid y x symbol)) w = Some (grid', w')
    /\ lossInv n (S (Z.to_nat y)) y (x + 1) grid'
    /\ calls w' = calls w.
Proof.
  intros Hy Hx [Hshape Hcells]. cbv zeta.
  assert (Hbird : forall y' x',
             before y' x' y x -> 0 <= y' -> 0 <= x' < Z.of_nat n ->
             exists c, mget grid y' x' = Some c
                       /\ IsRegularBirdSymbol c = true).
  { intros y' x' Hb Hy' Hx'.
    destruct (Hcells y' x' Hb Hy' Hx') as (c & Hc & Hr & _). eauto. }
  destruct (loss_left_spec grid y x w) as (av1 & E1 & Hg1 & Hl1).
  { intros H0. apply Hbird; unfold before; lia. }
  rewrite (bind_eq _ _ _ _ _ E1).
  destruct (loss_up_spec grid y x av1 w Hg1) as (av2 & E2 & Hg2 & Hi2 & Hu2).
  { intros H0. apply Hbird; unfold before; lia. }
  rewrite (bind_eq _ _ _ _ _ E2).
  destruct (loss_pick_spec av2 w Hg2) as (symbol & E3 & Hs).
  rewrite (bind_eq _ _ _ _ _ E3).
  destruct (rowlens_mget grid y x (Z.of_nat n)) as [old Eo]; [|lia|].
  { rewrite Hshape. apply idx_repeat_app. lia. }
  destruct (mset_defined grid y x symbol _ Eo) as [grid' Es].
  rewrite Es. unfold lift. exists grid', (advance w).
  split; [reflexivity|]. split; [|reflexivity].
  split; [now rewrite (mset_rowlens _ _ _ _ _ Es)|].
  intros y' x' Hb Hy' Hx'.
  destruct (Z.eq_dec y' y) as [->|Ny];
    [destruct (Z.eq_dec x' x) as [->|Nx]|].
  - exists symbol. split; [exact (mget_mset_same _ _ _ _ _ Es)|].
    split; [apply bird_regular, (proj1 (proj2 Hg2)), Hs|].
    rewrite !(mget_mset_other _ _ _ _ _ _ _ Es) by lia. split.
    + intros H0 Hp. destruct (Hl1 H0) as [_ Hn]. apply (Hn symbol Hp).
      now apply Hi2.
    + intros H0 Hp. exact (Hu2 H0 symbol Hp Hs).
  - apply (apart_mset _ _ _ _ _ _ _ Es); [unfold before in *; lia|lia|lia|].
    apply Hcells; [unfold before in *; lia|lia|lia].
  - apply (apart_mset _ _ _ _ _ _ _ Es); [unfold before in *; lia|lia|lia|].
    apply Hcells; [unfold before in *; lia|lia|lia].
Qed.

Lemma component_neighbour grid s a p :
  component grid s a p -> p <> a ->
  exists q, adjacent a q /\ holds grid q s.
Proof.
  induction 1 as [|p q Hp IH Ha Hi Hh]; [congruence|]. intros _.
  destruct (Position_eq_dec p a) as [->|N]; [eauto|auto].
Qed.

(** A grid without equal neighbouring birds has no connection. *)
Lemma noPairs_no_connections grid level :
  square (len grid) grid -> noPairs grid ->
  FindRegularConnections grid level = Some [].
Proof.
  intros Hsq Hno.
  destruct (FindRegularConnections_total grid level Hsq) as [conns E].
  rewrite E. f_equal. destruct conns as [|c conns]; [reflexivity|].
  exfalso. pose proof (FindRegularConnections_inv _ _ _ E) as Hinv.
  inversion Hinv as [|c' cs' (Hr & Hcount & Hmin & Hnd & start & Hcomp)].
  subst. change (GetMinConnection level) with (GetGridSize level) in Hmin.
  assert (Hsize : 4 <= GetGridSize level)
    by (destruct (GetGridSize_cases level) as [->|[->| ->]]; lia).
  destruct (cPositions c) as [|p1 [|p2 ps]] eqn:Ep;
    try (rewrite Hcount in Hmin; unfold len in Hmin; simpl in Hmin; lia).
  assert (H1 : component grid (cSymbol c) start p1)
    by (apply Hcomp; simpl; auto).
  assert (H2 : component grid (cSymbol c) start p2)
    by (apply Hcomp; simpl; auto).
  assert (Hne : p1 <> p2).
  { inversion Hnd as [|? ? Hn _]. subst. intros ->. apply Hn. now left. }
  pose proof (component_start_holds _ _ _ _ H1) as [_ Hs].
  assert (Hq : exists q, adjacent start q /\ holds grid q (cSymbol c)).
  { destruct (Position_eq_dec p1 start) as [->|N1].
    - apply (component_neighbour _ _ _ _ H2). congruence.
    - apply (component_neighbour _ _ _ _ H1 N1). }
  destruct Hq as (q & Ha & Hq). exact (Hno start q (cSymbol c) Ha Hs Hq Hr).
Qed.

Lemma apart_noPairs n (grid : Grid) :
  square (Z.of_nat n) grid ->
  (forall y x, 0 <= y < Z.of_nat n -> 0 <= x < Z.of_nat n -> apart grid y x) ->
  noPairs grid.
Proof.
  intros Hsq Hall p q c Ha Hp Hq _.
  destruct (square_mget_range _ _ _ _ _ Hsq Hp) as [Hyp Hxp].
  destruct (square_mget_range _ _ _ _ _ Hsq Hq) as [Hyq Hxq].
  destruct (Hall _ _ Hyp Hxp) as (cp & Ecp & _ & Hlp & Hup).
  destruct (Hall _ _ Hyq Hxq) as (cq & Ecq & _ & Hlq & Huq).
  unfold holds in *. rewrite Hp in Ecp. rewrite Hq in Ecq.
  inversion Ecp. inversion Ecq. subst cp cq.
  destruct Ha as [[Hx [Hy|Hy]]|[Hy [Hx|Hx]]].
  - apply Huq; [lia|]. now rewrite Hy, Z.add_simpl_r, Hx.
  - apply Hup; [lia|]. rewrite <- Hx. now replace (Y p - 1) with (Y q) by lia.
  - apply Hlq; [lia|]. now rewrite Hx, Z.add_simpl_r, Hy.
  - apply Hlp; [lia|]. rewrite <- Hy. now replace (X p - 1) with (X q) by lia.
Qed.

Lemma birds_no_free_game (grid : Grid) :
  (forall p c, holds grid p c -> IsRegularBirdSymbol c = true) ->
  freeGameCells grid = O.
Proof.
  intros H. unfold freeGameCells.
  rewrite (countCells_cells isFreeGame grid 0). fold (cellsOf grid).
  destruct (filter _ _) as [|[p c] l] eqn:E; [reflexivity|]. exfalso.
  assert (Hin : In (p, c) (filter (fun e => isFreeGame (snd e))
                             (cellsOf grid)))
    by (rewrite E; now left).
  apply filter_In in Hin as [Hin Hf]. apply cellsOf_In, H in Hin.
  simpl in Hf. unfold isFreeGame in Hf. apply String.eqb_eq in Hf.
  apply regular_not_special in Hin. tauto.
Qed.

(** The grid of [ForceLossGrid]: generated, of birds only, without
    equal neighbours. *)
Lemma ForceLossGrid_spec level forbid w :
  exists grid w',
    ForceLossGrid level forbid w = Some (grid, w')
    /\ generated level forbid grid
    /\ (forall p c, holds grid p c -> IsRegularBirdSymbol c = true)
    /\ noPairs grid
    /\ calls w' = calls w.
Proof.
  unfold ForceLossGrid.
  set (n := Z.to_nat (GetGridSize level)).
  assert (Hn : GetGridSize level = Z.of_nat n)
    by (subst n; destruct (GetGridSize_cases level) as [->|[->| ->]];
        reflexivity).
  cbv zeta.
  pose (I := fun (y : Z) (g : Grid) (u : World) =>
               lossInv n (Z.to_nat y) y 0 g /\ calls u = calls w).
  match goal with
  | |- exists g w', bind (forUpM n 0 ?body ?s) _ _ = _ /\ _ =>
      destruct (forUpM_total I n 0 body s w) as (grid & w1 & E & HI & Hc)
  end.
  - intros y g u Hy [[Hshape Hcells] Hc].
    assert (Hrow : idx (map len g) y = Some 0).
    { rewrite Hshape. replace (n - Z.to_nat y)%nat
        with (S (n - S (Z.to_nat y))) by lia.
      cbn [repeat]. apply idx_app_mid. unfold len. rewrite repeat_length.
      lia. }
    rewrite idx_map in Hrow.
    destruct (idx g y) as [row|] eqn:Er; [|discriminate].
    destruct (upd_defined g y (repeat "" n)) as [g1 E1].
    { eapply idx_Some_range; eauto. }
    rewrite E1. unfold lift at 1. unfold bind at 1.
    assert (H1 : lossInv n (S (Z.to_nat y)) y 0 g1).
    { split.
      - apply (upd_map len) in E1. rewrite Hshape in E1.
        replace (n - Z.to_nat y)%nat with (S (n - S (Z.to_nat y))) in E1
          by lia.
        cbn [repeat] in E1. rewrite upd_app_mid in E1
          by (unfold len; rewrite repeat_length; lia).
        injection E1 as E2. rewrite <- E2.
        unfold len at 1. rewrite repeat_length.
        change (Z.of_nat n :: repeat 0 (n - S (Z.to_nat y)))
          with ([Z.of_nat n] ++ repeat 0 (n - S (Z.to_nat y))).
        rewrite app_assoc. f_equal.
        change [Z.of_nat n] with (repeat (Z.of_nat n) 1).
        rewrite <- repeat_app. f_equal. lia.
      - intros y' x' Hb Hy' Hx'.
        apply (apart_upd _ _ _ _ _ _ E1); [unfold before in Hb; lia|].
        now apply Hcells. }
    pose (J := fun (x : Z) (g' : Grid) (u' : World) =>
                 lossInv n (S (Z.to_nat y)) y x g' /\ calls u' = calls w).
    match goal with
    | |- exists t' u', forUpM n 0 ?body ?s u = _ /\ _ =>
        destruct (forUpM_total J n 0 body s u) as (g2 & u2 & E2 & HJ & Hc2)
    end.
    + intros x g' v Hx [Hg Hv].
      destruct (ForceLossGrid_cell n y x g' v) as (g3 & v3 & E3 & Hg3 & Hv3);
        [lia|lia|assumption|].
      exists g3, v3. split; [exact E3|]. split; [assumption|congruence].
    + split; assumption.
    + exists g2, u2. split; [exact E2|]. split; [|assumption].
      replace (Z.to_nat (y + 1)) with (S (Z.to_nat y)) by lia.
      destruct HJ as [Hs2 Hcells2]. split; [assumption|].
      intros y' x' Hb Hy' Hx'. apply Hcells2; [|assumption..].
      unfold before in *. lia.
  - split; [|reflexivity]. split.
    + cbn [Z.to_nat repeat app]. rewrite Nat.sub_0_r.
      apply Forall_map_repeat_len.
    + intros y' x' Hb Hy'. unfold before in Hb. lia.
  - rewrite (bind_eq _ _ _ _ _ E).
    destruct HI as [Hshape Hcells].
    replace (Z.to_nat (0 + Z.of_nat n)) with n in Hshape by lia.
    rewrite Nat.sub_diag in Hshape. cbn [repeat] in Hshape.
    rewrite app_nil_r in Hshape.
    assert (Hsq : square (Z.of_nat n) grid) by (now apply square_rowlens).
    assert (Hall : forall y x, 0 <= y < Z.of_nat n -> 0 <= x < Z.of_nat n ->
                               apart grid y x).
    { intros y x Hy Hx. apply Hcells; [unfold before; lia|lia|lia]. }
    assert (Hbirds : forall p c, holds grid p c ->
                                 IsRegularBirdSymbol c = true).
    { intros p c Hp.
      destruct (square_mget_range _ _ _ _ _ Hsq Hp) as [Hy Hx].
      destruct (Hall _ _ Hy Hx) as (c' & Ec & Hr & _).
      unfold holds in Hp. rewrite Hp in Ec. now inversion Ec. }
    assert (Hgen : generated level forbid grid).
    { split; [now rewrite Hn|]. split.
      - intros p c Hp. apply bird_levelSymbol. eauto.
      - rewrite (birds_no_free_game grid Hbirds). auto. }
    assert (Hdone :
      exists w',
        (if forbid then
           forUpM n 0
             (fun y grid =>
                forUpM n 0
                  (fun x grid =>
                     c <- lift (mget grid y x) ;;
                     if String.eqb c SymbolFreeGame then
                       i <- Intn (len birdSymbols) ;;
                       symbol <- lift (idx birdSymbols i) ;;
                       lift (mset grid y x symbol)
                     else ret grid)
                  grid)
             grid
         else ret grid) w1 = Some (grid, w')
        /\ calls w' = calls w).
    { destruct forbid; [|exists w1; split; [reflexivity|assumption]].
      pose (K := fun (_ : Z) (g : Grid) (u : World) => g = grid /\ u = w1).
      match goal with
      | |- exists w', forUpM n 0 ?body ?s w1 = _ /\ _ =>
          destruct (forUpM_total K n 0 body s w1) as (g' & w' & E' & -> & ->)
      end.
      - intros y g u Hy [-> ->].
        match goal with
        | |- exists t' u', forUpM n 0 ?body ?s w1 = _ /\ _ =>
            destruct (forUpM_total K n 0 body s w1)
              as (g' & w' & E' & -> & ->)
        end.
        + intros x g u Hx [-> ->].
          destruct (Hall y x) as (c & Ec & Hr & _); [lia|lia|].
          rewrite Ec, bind_lift.
          destruct (regular_not_special c Hr) as (_ & Hf & _).
          apply String.eqb_neq in Hf. rewrite Hf.
          exists grid, w1. split; [reflexivity|]. split; reflexivity.
        + split; reflexivity.
        + exists grid, w1. split; [exact E'|]. split; reflexivity.
      - split; reflexivity.
      - exists w1. split; [exact E'|assumption]. }
    destruct Hdone as (w' & Ed & Hcw). exists grid, w'.
    split; [exact Ed|]. split; [assumption|]. split; [assumption|].
    split; [|assumption]. now apply (apart_noPairs n).
Qed.

Lemma GenerateLossGrid_attempts_spec attempts level forbid :
  forall w,
    exists grid w',
      GenerateLossGrid_attempts attempts level forbid w = Some (grid, w')
      /\ generated level forbid grid
      /\ FindRegularConnections grid level = Some []
      /\ calls w' = calls w.
Proof.
  induction attempts as [|k IH]; intros w;
    cbn [GenerateLossGrid_attempts].
  - destruct (ForceLossGrid_spec level forbid w)
      as (grid & w' & E & Hg & _ & Hno & Hc).
    exists grid, w'. split; [assumption|]. split; [assumption|].
    split; [|assumption]. apply noPairs_no_connections; [|assumption].
    destruct Hg as [Hsq _]. eapply square_len; eauto.
  - destruct (GenerateGrid_generated level forbid w)
      as (g0 & w0 & E0 & Hg0 & C0).
    rewrite (bind_eq _ _ _ _ _ E0).
    assert (Hsq : square (len g0) g0)
      by (destruct Hg0 as [Hsq _]; eapply square_len; eauto).
    destruct (FindRegularConnections_total g0 level Hsq) as [conns Ec].
    rewrite Ec, bind_lift.
    destruct (len conns =? 0) eqn:El.
    + exists g0, w0. unfold ret. split; [reflexivity|].
      split; [assumption|]. split; [|assumption].
      apply len_zero_nil in El. now subst.
    + destruct (IH w0) as (grid & w' & E & Hg & Hloss & Hc).
      exists grid, w'. repeat (split; [assumption|]). congruence.
Qed.

(** X10.  [ForceLossGrid] and [GenerateLossGrid] never panic and make
    no service call; the grid they return is square of the level's
    size, shows only symbols of the level, the trigger at most once
    and never when it is forbidden, and has no connection.  The grid
    of [ForceLossGrid] holds birds only, no two neighbours alike. *)
Theorem GenerateLossGrid_loses level forbidFreeGame w :
  (exists grid w',
      ForceLossGrid level forbidFreeGame w = Some (grid, w')
      /\ generated level forbidFreeGame grid
      /\ (forall p c, holds grid p c -> IsRegularBirdSymbol c = true)
      /\ noPairs grid
      /\ FindRegularConnections grid level = Some []
      /\ calls w' = calls w)
  /\ (exists grid w',
        GenerateLossGrid level forbidFreeGame w = Some (grid, w')
        /\ generated level forbidFreeGame grid
        /\ FindRegularConnections grid level = Some []
        /\ calls w' = calls w).
Proof.
  split; [|apply GenerateLossGrid_attempts_spec].
  destruct (ForceLossGrid_spec level forbidFreeGame w)
    as (grid & w' & E & Hg & Hb & Hno & Hc).
  exists grid, w'. repeat (split; [assumption|]). split; [|assumption].
  apply noPairs_no_connections; [|assumption].
  destruct Hg as [Hsq _]. eapply square_len; eauto.
Qed.
